(** * The reactivity core of Vue 2: Dep, Watcher and the Observer

    A shallow embedding of

    - [dep.js]     (class [Dep], [pushTarget], [popTarget]),
    - [watcher.js] (class [Watcher]),
    - [index.js]   ([observe], [defineReactive], [set], [del])

    in explicit state-passing style.  JavaScript objects with identity
    (Dep, Watcher, Observer, containers) live in finite maps keyed by their
    unique id or address; exceptions are a constructor of the result type;
    calls into user code (a watcher's getter, its callback) are scripts of
    calls back into the reactivity API, run by an interpreter whose fuel
    bounds the nesting depth of such calls. *)

From stdpp Require Import gmap strings list sorting.
From Stdlib Require Import ZArith.

Open Scope Z_scope.
Open Scope nat_scope.

#[local] Set Warnings "-clear-no-such-hyp".

(** ** JavaScript values *)

Module JS.

(** Numbers are integers plus [NaN]; objects are addresses. *)
Inductive val :=
| VUndef
| VNull
| VBool (b : bool)
| VNum (z : Z)
| VNaN
| VStr (s : string)
| VObj (a : nat).

#[global] Instance val_eq_dec : EqDecision val.
Proof. solve_decision. Defined.

(** [a === b]: [NaN] is not equal to itself, objects compare by address. *)
Definition strict_eq (a b : val) : bool :=
  match a, b with
  | VNaN, _ | _, VNaN => false
  | _, _ => bool_decide (a = b)
  end.

(** util [isObject]: [obj !== null && typeof obj === 'object']. *)
Definition isObject (v : val) : bool :=
  match v with VObj _ => true | _ => false end.

(** util [isUndef]: [v === undefined || v === null]. *)
Definition isUndef (v : val) : bool :=
  match v with VUndef | VNull => true | _ => false end.

(** util [isPrimitive]: string, number, symbol or boolean. *)
Definition isPrimitive (v : val) : bool :=
  match v with VBool _ | VNum _ | VNaN | VStr _ => true | _ => false end.

(** Thrown values. *)
Inductive err :=
| TypeError (msg : string)
| UserError (n : nat).

#[global] Instance err_eq_dec : EqDecision err.
Proof. solve_decision. Defined.

End JS.
Import JS.

(** ** Dep and Watcher *)

Module Reactivity.

(** [Dep.target : ?Watcher].  The slot is initialised to [null]; reading
    past the end of [targetStack] yields [undefined]. *)
Inductive target :=
| TNull
| TUndefined
| TWatcher (w : nat).

#[global] Instance target_eq_dec : EqDecision target.
Proof. solve_decision. Defined.

(** The current consumer, if any: what [if (Dep.target)] tests. *)
Definition consumer (t : target) : option nat :=
  match t with TWatcher w => Some w | _ => None end.

(** A Watcher object.  Watchers are identified by [id] (unique, from
    [++uid]) and Deps by [dep.id] (unique, from [uid++]), so the arrays
    [deps], [newDeps] and [dep.subs] hold ids. *)
Record Watcher := mkWatcher {
  vm : nat;
  noop : bool;          (* the path did not parse: getter is util [noop] *)
  deep : bool;
  user : bool;
  lazy : bool;
  sync : bool;
  dirty : bool;
  active : bool;
  deps : list nat;
  newDeps : list nat;
  depIds : gset nat;
  newDepIds : gset nat;
  value : val
}.

(** The part of the host component the watcher touches. *)
Record Component := mkComponent {
  _watcher : option nat;
  _watchers : list nat;
  _isBeingDestroyed : bool
}.

Definition empty_vm : Component :=
  {| _watcher := None; _watchers := []; _isBeingDestroyed := false |}.

(** What the code does to its collaborators, and the entry of the methods
    the properties speak about, in program order. *)
Inductive event :=
| EvDepend (d w : nat)            (* d.depend() called w.addDep(d) *)
| EvGet (w : nat)                 (* w.get() entered *)
| EvUpdate (w : nat)              (* w.update() entered *)
| EvCb (w : nat) (v old : val)    (* w.cb.call(vm, v, old) *)
| EvTeardown (w : nat)            (* w.teardown() entered *)
| EvQueue (w : nat)               (* queueWatcher(w) *)
| EvHandleError (e : err) (v w : nat) (in_getter : bool)
| EvWarn (w : nat).               (* Failed watching path *)

#[global] Instance event_eq_dec : EqDecision event.
Proof. solve_decision. Defined.

Record state := mkState {
  subs : gmap nat (list nat);     (* dep.id ↦ dep.subs *)
  watchers : gmap nat Watcher;    (* watcher.id ↦ the Watcher *)
  vms : gmap nat Component;
  Dep_target : target;            (* Dep.target *)
  targetStack : list target;
  uid : nat;                      (* watcher.js: let uid = 0 *)
  log : list event
}.

(** dep.js and watcher.js at module load. *)
Definition init : state :=
  {| subs := ∅; watchers := ∅; vms := ∅; Dep_target := TNull;
     targetStack := []; uid := 0; log := [] |}.

(** [process.env.NODE_ENV === 'production'] and [config.async]. *)
Record config := mkConfig { production : bool; async : bool }.

(** *** State updates *)

Definition set_subs (f : gmap nat (list nat)) (s : state) : state :=
  {| subs := f; watchers := watchers s; vms := vms s;
     Dep_target := Dep_target s; targetStack := targetStack s;
     uid := uid s; log := log s |}.

Definition set_watchers (f : gmap nat Watcher) (s : state) : state :=
  {| subs := subs s; watchers := f; vms := vms s;
     Dep_target := Dep_target s; targetStack := targetStack s;
     uid := uid s; log := log s |}.

Definition set_vms (f : gmap nat Component) (s : state) : state :=
  {| subs := subs s; watchers := watchers s; vms := f;
     Dep_target := Dep_target s; targetStack := targetStack s;
     uid := uid s; log := log s |}.

Definition set_target (t : target) (st : list target) (s : state) : state :=
  {| subs := subs s; watchers := watchers s; vms := vms s;
     Dep_target := t; targetStack := st; uid := uid s; log := log s |}.

Definition set_uid (n : nat) (s : state) : state :=
  {| subs := subs s; watchers := watchers s; vms := vms s;
     Dep_target := Dep_target s; targetStack := targetStack s;
     uid := n; log := log s |}.

Definition emit (e : event) (s : state) : state :=
  {| subs := subs s; watchers := watchers s; vms := vms s;
     Dep_target := Dep_target s; targetStack := targetStack s;
     uid := uid s; log := log s ++ [e] |}.

Definition with_dirty (b : bool) (r : Watcher) : Watcher :=
  {| vm := vm r; noop := noop r; deep := deep r; user := user r;
     lazy := lazy r; sync := sync r; dirty := b; active := active r;
     deps := deps r; newDeps := newDeps r; depIds := depIds r;
     newDepIds := newDepIds r; value := value r |}.

Definition with_active (b : bool) (r : Watcher) : Watcher :=
  {| vm := vm r; noop := noop r; deep := deep r; user := user r;
     lazy := lazy r; sync := sync r; dirty := dirty r; active := b;
     deps := deps r; newDeps := newDeps r; depIds := depIds r;
     newDepIds := newDepIds r; value := value r |}.

Definition with_value (v : val) (r : Watcher) : Watcher :=
  {| vm := vm r; noop := noop r; deep := deep r; user := user r;
     lazy := lazy r; sync := sync r; dirty := dirty r; active := active r;
     deps := deps r; newDeps := newDeps r; depIds := depIds r;
     newDepIds := newDepIds r; value := v |}.

Definition with_deps (ds nds : list nat) (ids nids : gset nat)
    (r : Watcher) : Watcher :=
  {| vm := vm r; noop := noop r; deep := deep r; user := user r;
     lazy := lazy r; sync := sync r; dirty := dirty r; active := active r;
     deps := ds; newDeps := nds; depIds := ids; newDepIds := nids;
     value := value r |}.

(** [dep.subs]; a Dep nobody subscribed to has the empty array. *)
Definition subs_of (s : state) (d : nat) : list nat :=
  default [] (subs s !! d).

Definition vm_of (s : state) (v : nat) : Component :=
  default empty_vm (vms s !! v).

(** Modelled from the spec: util [remove(arr, item)], which is not under
    src/; "list membership add/remove by identity": the first occurrence
    of [x] is spliced out, an absent [x] leaves the array as it is. *)
Fixpoint remove (x : nat) (l : list nat) : list nat :=
  match l with
  | [] => []
  | y :: l' => if decide (x = y) then l' else y :: remove x l'
  end.

(** *** dep.js *)

(** [addSub (sub) { this.subs.push(sub) }] *)
Definition addSub (d w : nat) (s : state) : state :=
  set_subs (<[d := subs_of s d ++ [w]]> (subs s)) s.

(** [removeSub (sub) { remove(this.subs, sub) }] *)
Definition removeSub (d w : nat) (s : state) : state :=
  set_subs (<[d := remove w (subs_of s d)]> (subs s)) s.

(** [pushTarget (target)] *)
Definition pushTarget (t : target) (s : state) : state :=
  set_target t (targetStack s ++ [t]) s.

(** [popTarget ()]: [pop()] of the empty array leaves it empty, and
    [targetStack[-1]] is [undefined]. *)
Definition popTarget (s : state) : state :=
  let st := removelast (targetStack s) in
  set_target (List.last st TUndefined) st s.

(** *** watcher.js: dependency bookkeeping *)

(** [addDep (dep)] *)
Definition addDep (w d : nat) (s : state) : state :=
  match watchers s !! w with
  | None => s
  | Some r =>
    if decide (d ∈ newDepIds r) then s
    else
      let r' := with_deps (deps r) (newDeps r ++ [d]) (depIds r)
                  ({[d]} ∪ newDepIds r) r in
      let s' := set_watchers (<[w := r']> (watchers s)) s in
      if decide (d ∈ depIds r) then s' else addSub d w s'
  end.

(** [depend () { if (Dep.target) Dep.target.addDep(this) }] *)
Definition depend (d : nat) (s : state) : state :=
  match Dep_target s with
  | TWatcher w => addDep w d (emit (EvDepend d w) s)
  | _ => s
  end.

(** [while (i--) { const dep = this.deps[i]; if (..) dep.removeSub(this) }],
    the loop of [cleanupDeps] and of [teardown], over the Deps [ds] in
    the order visited. *)
Fixpoint unsub_loop (w : nat) (drop : nat → bool) (ds : list nat)
    (s : state) : state :=
  match ds with
  | [] => s
  | d :: ds' => unsub_loop w drop ds' (if drop d then removeSub d w s else s)
  end.

(** [depend()] of each Dep of [ds] in turn. *)
Definition depend_all (ds : list nat) (s : state) : state :=
  foldl (fun s d => depend d s) s ds.

(** [cleanupDeps ()]: the loop walks [deps] from its last element to its
    first; then the two generations are swapped and the new one is
    emptied. *)
Definition cleanupDeps (w : nat) (s : state) : state :=
  match watchers s !! w with
  | None => s
  | Some r =>
    let s1 := unsub_loop w (fun d => bool_decide (d ∉ newDepIds r))
                (reverse (deps r)) s in
    set_watchers
      (<[w := with_deps (newDeps r) [] (newDepIds r) ∅ r]> (watchers s1)) s1
  end.

(** *** User code

    A getter or callback is arbitrary JavaScript; what matters here is the
    calls it makes back into the reactivity system, in order.  Reading a
    reactive property is [dep.depend()], writing one is [dep.notify()]. *)
Inductive op :=
| ODepend (d : nat)                     (* d.depend() *)
| ONotify (d : nat)                     (* d.notify() *)
| ONew (v : nat) (fn : bool) (opts : option (bool * bool * bool * bool))
       (isRenderWatcher : bool)         (* new Watcher(vm, expOrFn, cb, options, ..) *)
| OGet (w : nat)                        (* w.get() *)
| OUpdate (w : nat)                     (* w.update() *)
| ORun (w : nat)                        (* w.run(), the scheduler's job *)
| OEvaluate (w : nat)                   (* w.evaluate() *)
| OWDepend (w : nat)                    (* w.depend() *)
| OTeardown (w : nat)                   (* w.teardown() *)
| OThrow (e : err).                     (* throw e *)

(** The calls a function makes and the value it returns when none of
    them throws. *)
Record script := mkScript { body : list op; ret : val }.

Definition noop_script : script := {| body := []; ret := VUndef |}.

(** Normal completion with a value, an exception, or the interpreter's
    fuel ran out. *)
Inductive res (A : Type) :=
| Ok (a : A) (s : state)
| Exn (e : err) (s : state)
| Fuel.
Arguments Ok {A} a s.
Arguments Exn {A} e s.
Arguments Fuel {A}.

Definition res_state {A} (r : res A) : option state :=
  match r with Ok _ s | Exn _ s => Some s | Fuel => None end.

Definition void {A} (r : res A) : res unit :=
  match r with Ok _ s => Ok tt s | Exn e s => Exn e s | Fuel => Fuel end.

(** Statements in sequence: the first exception ends the block. *)
Fixpoint seq_ops (f : op → state → res unit) (ops : list op) (s : state)
    : res unit :=
  match ops with
  | [] => Ok tt s
  | o :: ops' =>
    match f o s with
    | Ok _ s' => seq_ops f ops' s'
    | r => r
    end
  end.

(** [for (i = 0, l = subs.length; i < l; i++) subs[i].update()] over the
    array [xs], which no call changes. *)
Fixpoint for_each (f : nat → state → res unit) (xs : list nat) (i n : nat)
    (s : state) : res unit :=
  match n with
  | 0 => Ok tt s
  | S n' =>
    match xs !! i with
    | None => Ok tt s
    | Some x =>
      match f x s with
      | Ok _ s' => for_each f xs (S i) n' s'
      | r => r
      end
    end
  end.

Section Semantics.

Context (cfg : config).
(** [this.getter.call(vm, vm)] of watcher [w], called in state [s]. *)
Context (getter : nat → state → script).
(** [this.cb.call(this.vm, value, oldValue)]. *)
Context (cb : nat → val → val → state → list op).
(** Modelled from the spec: [traverse(value)] of ./traverse, which is
    not under src/: "visits every reachable property exactly once,
    cycle-safe, purely to force accessor reads"; the Deps of the
    accessors it reads, in order. *)
Context (traverse : val → state → list nat).

(** Modelled from the spec: [handleError(err, vm, info)] of ../util,
    which is not under src/: the external handler "receives (error,
    owning-scope, description)"; it is recorded in the log. *)
Definition handleError (e : err) (v w : nat) (in_getter : bool)
    (s : state) : state :=
  emit (EvHandleError e v w in_getter) s.

(** Modelled from the spec: [queueWatcher(watcher)] of ./scheduler,
    which is not under src/: the scheduler "exposes
    enqueue(computation)"; the hand-off is recorded in the log and the
    scheduler later calls [run()]. *)
Definition queueWatcher (w : nat) (s : state) : state :=
  emit (EvQueue w) s.

Definition set_watcher (w : nat) (f : Watcher → Watcher) (s : state)
    : state :=
  match watchers s !! w with
  | None => s
  | Some r => set_watchers (<[w := f r]> (watchers s)) s
  end.

(** The [finally] block of [get]. *)
Definition get_finally (w : nat) (deep_ : bool) (v : val) (s : state)
    : state :=
  let s1 := if deep_ then depend_all (traverse v s) s else s in
  cleanupDeps w (popTarget s1).

(** [get ()]; [ex] runs the body of the getter. *)
Definition get (ex : list op → state → res unit) (w : nat) (s : state)
    : res val :=
  match watchers s !! w with
  | None => Ok VUndef s
  | Some r =>
    let s1 := pushTarget (TWatcher w) (emit (EvGet w) s) in
    let g := if noop r then noop_script else getter w s1 in
    match ex (body g) s1 with
    | Ok _ s2 => Ok (ret g) (get_finally w (deep r) (ret g) s2)
    | Exn e s2 =>
      if user r
      then Ok VUndef
             (get_finally w (deep r) VUndef (handleError e (vm r) w true s2))
      else Exn e (get_finally w (deep r) VUndef s2)
    | Fuel => Fuel
    end
  end.

(** [run ()] *)
Definition run (ex : list op → state → res unit) (w : nat) (s : state)
    : res unit :=
  match watchers s !! w with
  | None => Ok tt s
  | Some r =>
    if active r then
      match get ex w s with
      | Ok v s1 =>
        match watchers s1 !! w with
        | None => Ok tt s1
        | Some r1 =>
          if negb (strict_eq v (value r1)) || isObject v || deep r1 then
            let oldValue := value r1 in
            let s2 := emit (EvCb w v oldValue)
                        (set_watcher w (with_value v) s1) in
            match ex (cb w v oldValue s2) s2 with
            | Exn e s3 =>
              if user r1 then Ok tt (handleError e (vm r1) w false s3)
              else Exn e s3
            | r' => r'
            end
          else Ok tt s1
        end
      | Exn e s1 => Exn e s1
      | Fuel => Fuel
      end
    else Ok tt s
  end.

(** [update ()] *)
Definition update (ex : list op → state → res unit) (w : nat)
    (s : state) : res unit :=
  let s := emit (EvUpdate w) s in
  match watchers s !! w with
  | None => Ok tt s
  | Some r =>
    if lazy r then Ok tt (set_watcher w (with_dirty true) s)
    else if sync r then run ex w s
    else Ok tt (queueWatcher w s)
  end.

(** The order in which [notify] walks its snapshot: ascending id when
    updates are not batched ([!config.async], development build), the
    order of the array otherwise. *)
Definition sorted_mode : bool := negb (production cfg) && negb (async cfg).

Definition snapshot (s : state) (d : nat) : list nat :=
  let subs := subs_of s d in
  if sorted_mode then merge_sort (≤) subs else subs.

(** [notify ()] *)
Definition notify (ex : list op → state → res unit) (d : nat)
    (s : state) : res unit :=
  let subs := snapshot s d in
  for_each (update ex) subs 0 (length subs) s.

(** [evaluate ()] *)
Definition evaluate (ex : list op → state → res unit) (w : nat)
    (s : state) : res unit :=
  match get ex w s with
  | Ok v s1 =>
    Ok tt (set_watcher w (with_dirty false)
             (set_watcher w (with_value v) s1))
  | Exn e s1 => Exn e s1
  | Fuel => Fuel
  end.

(** [depend ()] of the Watcher: [while (i--) this.deps[i].depend()]. *)
Definition watcher_depend (w : nat) (s : state) : state :=
  match watchers s !! w with
  | None => s
  | Some r => depend_all (reverse (deps r)) s
  end.

(** [teardown ()] *)
Definition teardown (w : nat) (s : state) : state :=
  let s := emit (EvTeardown w) s in
  match watchers s !! w with
  | None => s
  | Some r =>
    if active r then
      let c := vm_of s (vm r) in
      let s1 :=
        if _isBeingDestroyed c then s
        else set_vms (<[vm r :=
               {| _watcher := _watcher c;
                  _watchers := remove w (_watchers c);
                  _isBeingDestroyed := _isBeingDestroyed c |}]> (vms s)) s in
      let s2 := unsub_loop w (fun _ => true) (reverse (deps r)) s1 in
      set_watcher w (with_active false) s2
    else s
  end.

(** [constructor (vm, expOrFn, cb, options, isRenderWatcher)], up to
    the first evaluation.  [fn] tells whether [expOrFn] is a function
    or a path that parses; [opts] is [(deep, user, lazy, sync)]. *)
Definition opt_flags (opts : option (bool * bool * bool * bool))
    : bool * bool * bool * bool :=
  default (false, false, false, false) opts.

Definition alloc_Watcher (v : nat) (fn : bool)
    (opts : option (bool * bool * bool * bool)) (isRenderWatcher : bool)
    (s : state) : state :=
  let id := S (uid s) in
  let c := vm_of s v in
  let c' := {| _watcher := if isRenderWatcher then Some id else _watcher c;
               _watchers := _watchers c ++ [id];
               _isBeingDestroyed := _isBeingDestroyed c |} in
  let '(deep_, user_, lazy_, sync_) := opt_flags opts in
  let r := {| vm := v; noop := negb fn; deep := deep_; user := user_;
              lazy := lazy_; sync := sync_; dirty := lazy_;
              active := true; deps := []; newDeps := [];
              depIds := ∅; newDepIds := ∅; value := VUndef |} in
  let s1 := set_uid id
              (set_watchers (<[id := r]> (watchers s))
                 (set_vms (<[v := c']> (vms s)) s)) in
  if negb fn && negb (production cfg) then emit (EvWarn id) s1 else s1.

(** [this.value = this.lazy ? undefined : this.get()] *)
Definition new_Watcher (ex : list op → state → res unit) (v : nat)
    (fn : bool) (opts : option (bool * bool * bool * bool))
    (isRenderWatcher : bool) (s : state) : res unit :=
  let id := S (uid s) in
  let s2 := alloc_Watcher v fn opts isRenderWatcher s in
  if (opt_flags opts).1.2 then Ok tt s2
  else
    match get ex id s2 with
    | Ok val s3 => Ok tt (set_watcher id (with_value val) s3)
    | Exn e s3 => Exn e s3
    | Fuel => Fuel
    end.

(** One call made by user code.  The fuel bounds how deep getters and
    callbacks nest. *)
Fixpoint exec_op (n : nat) (o : op) (s : state) : res unit :=
  match n with
  | 0 => Fuel
  | S n' =>
    let ex := seq_ops (exec_op n') in
    match o with
    | ODepend d => Ok tt (depend d s)
    | ONotify d => notify ex d s
    | ONew v fn opts isRender => new_Watcher ex v fn opts isRender s
    | OGet w => void (get ex w s)
    | OUpdate w => update ex w s
    | ORun w => run ex w s
    | OEvaluate w => evaluate ex w s
    | OWDepend w => Ok tt (watcher_depend w s)
    | OTeardown w => Ok tt (teardown w s)
    | OThrow e => Exn e s
    end
  end.

(** A block of user code run with fuel [n]. *)
Definition exec (n : nat) : list op → state → res unit :=
  seq_ops (exec_op n).

End Semantics.

(** *** Lists of subscribers *)

Lemma elem_of_remove x y l : y ∈ remove x l → y ∈ l.
Proof.
  induction l as [|z l IH]; simpl; [done|].
  case_decide; rewrite ?elem_of_cons; naive_solver.
Qed.

Lemma elem_of_remove_ne x y l : x ≠ y → y ∈ remove x l ↔ y ∈ l.
Proof.
  intros Hne. induction l as [|z l IH]; simpl; [done|].
  case_decide; subst; rewrite ?elem_of_cons; naive_solver.
Qed.

Lemma NoDup_remove x l : NoDup l → NoDup (remove x l).
Proof.
  induction 1 as [|z l Hz Hl IH]; simpl; [constructor|].
  case_decide; [done|]. constructor; [|done].
  intros Hin. by apply Hz, (elem_of_remove x).
Qed.

Lemma remove_NoDup_notin x l : NoDup l → x ∉ remove x l.
Proof.
  induction 1 as [|z l Hz Hl IH]; simpl; [apply not_elem_of_nil|].
  case_decide; subst; [done|]. rewrite elem_of_cons. naive_solver.
Qed.

Lemma remove_notin x l : x ∉ l → remove x l = l.
Proof.
  induction l as [|z l IH]; simpl; [done|].
  rewrite not_elem_of_cons. intros [? ?]. case_decide; [done|].
  by rewrite IH.
Qed.

(** *** What each primitive leaves alone *)

Lemma subs_of_set_subs s f d :
  subs_of (set_subs f s) d = default [] (f !! d).
Proof. done. Qed.

Lemma subs_of_addSub s d w d' :
  subs_of (addSub d w s) d' =
    if decide (d = d') then subs_of s d ++ [w] else subs_of s d'.
Proof.
  unfold addSub. rewrite subs_of_set_subs, lookup_insert.
  by case_decide.
Qed.

Lemma subs_of_removeSub s d w d' :
  subs_of (removeSub d w s) d' =
    if decide (d = d') then remove w (subs_of s d) else subs_of s d'.
Proof.
  unfold removeSub. rewrite subs_of_set_subs, lookup_insert.
  by case_decide.
Qed.

Lemma unsub_loop_frame w drop ds s :
  watchers (unsub_loop w drop ds s) = watchers s ∧
  vms (unsub_loop w drop ds s) = vms s ∧
  Dep_target (unsub_loop w drop ds s) = Dep_target s ∧
  targetStack (unsub_loop w drop ds s) = targetStack s ∧
  uid (unsub_loop w drop ds s) = uid s ∧
  log (unsub_loop w drop ds s) = log s.
Proof.
  revert s. induction ds as [|d ds IH]; intros s; simpl; [done|].
  destruct (IH (if drop d then removeSub d w s else s))
    as (-> & -> & -> & -> & -> & ->).
  by destruct (drop d).
Qed.

Lemma unsub_loop_other w drop ds s d w' :
  w ≠ w' → w' ∈ subs_of (unsub_loop w drop ds s) d ↔ w' ∈ subs_of s d.
Proof.
  intros Hne. revert s. induction ds as [|d0 ds IH]; intros s; simpl; [done|].
  rewrite IH. destruct (drop d0); [|done].
  rewrite subs_of_removeSub. case_decide; subst; [|done].
  by apply elem_of_remove_ne.
Qed.

Lemma unsub_loop_sub w drop ds s d x :
  x ∈ subs_of (unsub_loop w drop ds s) d → x ∈ subs_of s d.
Proof.
  revert s. induction ds as [|d0 ds IH]; intros s; simpl; [done|].
  intros Hx. apply IH in Hx. destruct (drop d0); [|done].
  rewrite subs_of_removeSub in Hx. case_decide; subst; [|done].
  by eapply elem_of_remove.
Qed.

Lemma unsub_loop_NoDup w drop ds s :
  (∀ d, NoDup (subs_of s d)) → ∀ d, NoDup (subs_of (unsub_loop w drop ds s) d).
Proof.
  revert s. induction ds as [|d0 ds IH]; intros s Hs; simpl; [done|].
  apply IH. destruct (drop d0); [|done].
  intros d. rewrite subs_of_removeSub. case_decide; [|done].
  by apply NoDup_remove.
Qed.

Lemma unsub_loop_kept w drop ds s d :
  (d ∈ ds → drop d = false) →
  subs_of (unsub_loop w drop ds s) d = subs_of s d.
Proof.
  revert s. induction ds as [|d0 ds IH]; intros s Hd; simpl; [done|].
  rewrite IH by (intros; apply Hd; set_solver).
  destruct (drop d0) eqn:E; [|done].
  rewrite subs_of_removeSub. case_decide; subst; [|done].
  rewrite Hd in E; [done|set_solver].
Qed.

Lemma unsub_loop_dropped w drop ds s d :
  (∀ d, NoDup (subs_of s d)) → d ∈ ds → drop d = true →
  w ∉ subs_of (unsub_loop w drop ds s) d.
Proof.
  revert s. induction ds as [|d0 ds IH]; intros s Hs Hd Hdrop; simpl.
  { by apply elem_of_nil in Hd. }
  destruct (decide (d = d0)) as [->|Hne].
  - rewrite Hdrop. intros Hin. apply unsub_loop_sub in Hin.
    rewrite subs_of_removeSub in Hin. case_decide; [|done].
    by apply remove_NoDup_notin in Hin.
  - apply IH; [|set_solver|done].
    destruct (drop d0); [|done].
    intros d'. rewrite subs_of_removeSub. case_decide; [|done].
    by apply NoDup_remove.
Qed.

(** *** A logic for the methods

    [sat Q s r]: the run from [s] that produced [r] ended, normally or
    by an exception, in a state related to [s] by [Q].  A relation that is
    a preorder, that every primitive step respects, and that the bracket
    [pushTarget .. popTarget; cleanupDeps] of [get] respects as a whole,
    is respected by every run of user code. *)
Definition sat {A} (Q : state → state → Prop) (s : state) (r : res A)
    : Prop :=
  match r with Ok _ s' | Exn _ s' => Q s s' | Fuel => True end.

Record respects (cfg : config) (Q : state → state → Prop) : Prop := {
  resp_refl : ∀ s, Q s s;
  resp_trans : ∀ s1 s2 s3, Q s1 s2 → Q s2 s3 → Q s1 s3;
  resp_depend : ∀ d s, Q s (depend d s);
  resp_update : ∀ w s, Q s (emit (EvUpdate w) s);
  resp_queue : ∀ w s, Q s (queueWatcher w s);
  resp_handle : ∀ e v w b s, Q s (handleError e v w b s);
  resp_value : ∀ w v s, Q s (set_watcher w (with_value v) s);
  resp_dirty : ∀ w b s, Q s (set_watcher w (with_dirty b) s);
  resp_teardown : ∀ w s, Q s (teardown w s);
  resp_alloc : ∀ v fn opts isR s, Q s (alloc_Watcher cfg v fn opts isR s);
  (** the bracket of [get] *)
  resp_get : ∀ w s s2,
    is_Some (watchers s !! w) →
    Q (pushTarget (TWatcher w) (emit (EvGet w) s)) s2 →
    Q s (cleanupDeps w (popTarget s2));
  (** the callback of [run], which [run] only reaches when the watcher
      was active on entry *)
  resp_cb : ∀ w r s s1 v old,
    watchers s !! w = Some r → active r = true → Q s s1 →
    Q s (emit (EvCb w v old) (set_watcher w (with_value v) s1))
}.

Section Logic.

Context (cfg : config) (getter : nat → state → script)
        (cb : nat → val → val → state → list op)
        (traverse : val → state → list nat).

Variable Q : state → state → Prop.
Hypothesis HQ : respects cfg Q.

Let Q_refl := resp_refl cfg Q HQ.
Let Q_trans := resp_trans cfg Q HQ.
Let Q_depend := resp_depend cfg Q HQ.
Let Q_update := resp_update cfg Q HQ.
Let Q_queue := resp_queue cfg Q HQ.
Let Q_handle := resp_handle cfg Q HQ.
Let Q_value := resp_value cfg Q HQ.
Let Q_dirty := resp_dirty cfg Q HQ.
Let Q_teardown := resp_teardown cfg Q HQ.
Let Q_alloc := resp_alloc cfg Q HQ.
Let Q_get := resp_get cfg Q HQ.
Let Q_cb := resp_cb cfg Q HQ.

Definition runner_sat (ex : list op → state → res unit) : Prop :=
  ∀ ops s, sat Q s (ex ops s).

Lemma sat_void {A} s (r : res A) : sat Q s r → sat Q s (void r).
Proof. by destruct r. Qed.

Lemma Q_depends ds s : Q s (depend_all ds s).
Proof.
  unfold depend_all.
  revert s. induction ds as [|d ds IH]; intros s; simpl; [done|].
  eapply Q_trans; [apply Q_depend|apply IH].
Qed.

Lemma seq_ops_sat f :
  (∀ o s, sat Q s (f o s)) → ∀ ops s, sat Q s (seq_ops f ops s).
Proof.
  intros Hf ops. induction ops as [|o ops IH]; intros s; simpl; [done|].
  specialize (Hf o s). destruct (f o s) as [[] s'|e s'|]; simpl in *; try done.
  specialize (IH s').
  destruct (seq_ops f ops s'); simpl in *; eauto.
Qed.

Lemma for_each_sat f xs :
  (∀ x s, sat Q s (f x s)) → ∀ n i s, sat Q s (for_each f xs i n s).
Proof.
  intros Hf n. induction n as [|n IH]; intros i s; simpl; [done|].
  destruct (xs !! i) as [x|]; simpl; [|done].
  specialize (Hf x s). destruct (f x s) as [[] s'|e s'|]; simpl in *; try done.
  specialize (IH (S i) s').
  destruct (for_each f xs (S i) n s'); simpl in *; eauto.
Qed.

(** [get] is the bracket around a run from the state it pushed. *)
Lemma get_inv ex w s r :
  runner_sat ex → watchers s !! w = Some r →
  match get getter traverse ex w s with
  | Ok _ s' | Exn _ s' =>
    ∃ s2, Q (pushTarget (TWatcher w) (emit (EvGet w) s)) s2 ∧
          s' = cleanupDeps w (popTarget s2)
  | Fuel => True
  end.
Proof.
  intros Hex Hw. unfold get. rewrite Hw.
  set (s1 := pushTarget (TWatcher w) (emit (EvGet w) s)).
  set (g := if noop r then noop_script else getter w s1).
  specialize (Hex (body g) s1).
  destruct (ex (body g) s1) as [[] s2|e s2|]; simpl in *; [| |done].
  - unfold get_finally. eexists; split; [|done].
    eapply Q_trans; [exact Hex|].
    destruct (deep r); [apply Q_depends|done].
  - destruct (user r); simpl; unfold get_finally; (eexists; split; [|done]).
    + eapply Q_trans; [exact Hex|]. eapply Q_trans; [apply Q_handle|].
      destruct (deep r); [apply Q_depends|done].
    + eapply Q_trans; [exact Hex|].
      destruct (deep r); [apply Q_depends|done].
Qed.

Lemma get_sat ex w s : runner_sat ex → sat Q s (get getter traverse ex w s).
Proof.
  intros Hex. destruct (watchers s !! w) as [r|] eqn:Hw.
  - pose proof (get_inv ex w s r Hex Hw) as H.
    destruct (get getter traverse ex w s) as [v s'|e s'|]; simpl; [| |done];
      destruct H as (s2 & H2 & ->); apply Q_get; eauto.
  - unfold get. rewrite Hw. simpl. done.
Qed.

Lemma run_sat ex w s : runner_sat ex → sat Q s (run getter cb traverse ex w s).
Proof.
  intros Hex. unfold run.
  destruct (watchers s !! w) as [r|] eqn:Hw; simpl; [|done].
  destruct (active r) eqn:Hact; simpl; [|done].
  pose proof (get_sat ex w s Hex) as Hget.
  destruct (get getter traverse ex w s) as [v s1|e s1|]; simpl in *; [|done|done].
  destruct (watchers s1 !! w) as [r1|] eqn:Hw1; simpl; [|done].
  destruct (negb (strict_eq v (value r1)) || isObject v || deep r1); simpl; [|done].
  set (s2 := emit (EvCb w v (value r1)) (set_watcher w (with_value v) s1)).
  assert (Q s s2) as H2 by (eapply Q_cb; eauto).
  specialize (Hex (cb w v (value r1) s2) s2).
  destruct (ex (cb w v (value r1) s2) s2) as [[] s3|e s3|]; simpl in *;
    [eauto using Q_trans| |done].
  destruct (user r1); simpl; [|eauto using Q_trans].
  eapply Q_trans; [exact H2|]. eapply Q_trans; [exact Hex|apply Q_handle].
Qed.

Lemma update_sat ex w s : runner_sat ex → sat Q s (update getter cb traverse ex w s).
Proof.
  intros Hex. unfold update.
  set (s0 := emit (EvUpdate w) s).
  assert (Q s s0) as H0 by apply Q_update.
  destruct (watchers s0 !! w) as [r|] eqn:Hw; simpl; [|done].
  destruct (lazy r); simpl.
  { eapply Q_trans; [exact H0|apply Q_dirty]. }
  destruct (sync r); simpl.
  - pose proof (run_sat ex w s0 Hex) as Hrun.
    destruct (run getter cb traverse ex w s0); simpl in *; eauto.
  - eapply Q_trans; [exact H0|apply Q_queue].
Qed.

Lemma notify_sat ex d s : runner_sat ex → sat Q s (notify cfg getter cb traverse ex d s).
Proof.
  intros Hex. unfold notify. apply for_each_sat.
  intros x s'. by apply update_sat.
Qed.

Lemma evaluate_sat ex w s : runner_sat ex → sat Q s (evaluate getter traverse ex w s).
Proof.
  intros Hex. unfold evaluate.
  pose proof (get_sat ex w s Hex) as Hget.
  destruct (get getter traverse ex w s) as [v s1|e s1|]; simpl in *; [|done|done].
  eapply Q_trans; [exact Hget|]. eapply Q_trans; [apply Q_value|apply Q_dirty].
Qed.

Lemma watcher_depend_sat w s : Q s (watcher_depend w s).
Proof.
  unfold watcher_depend. destruct (watchers s !! w); [apply Q_depends|done].
Qed.

Lemma new_Watcher_sat ex v fn opts isR s :
  runner_sat ex → sat Q s (new_Watcher cfg getter traverse ex v fn opts isR s).
Proof.
  intros Hex. unfold new_Watcher.
  set (s2 := alloc_Watcher cfg v fn opts isR s).
  assert (Q s s2) as H2 by apply Q_alloc.
  destruct ((opt_flags opts).1.2); simpl; [done|].
  pose proof (get_sat ex (S (uid s)) s2 Hex) as Hget.
  destruct (get getter traverse ex (S (uid s)) s2) as [v' s3|e s3|];
    simpl in *; [|eauto using Q_trans|done].
  eapply Q_trans; [exact H2|]. eapply Q_trans; [exact Hget|apply Q_value].
Qed.

Lemma exec_op_sat n o s : sat Q s (exec_op cfg getter cb traverse n o s).
Proof.
  revert o s. induction n as [|n IH]; intros o s; simpl; [done|].
  assert (runner_sat (seq_ops (exec_op cfg getter cb traverse n))) as Hex
    by (intros ops s'; by apply seq_ops_sat).
  destruct o; simpl.
  - apply Q_depend.
  - by apply notify_sat.
  - by apply new_Watcher_sat.
  - by apply sat_void, get_sat.
  - by apply update_sat.
  - by apply run_sat.
  - by apply evaluate_sat.
  - apply watcher_depend_sat.
  - apply Q_teardown.
  - apply Q_refl.
Qed.

Lemma exec_sat n : runner_sat (exec cfg getter cb traverse n).
Proof. intros ops s. apply seq_ops_sat. intros. apply exec_op_sat. Qed.

End Logic.

(** *** The invariant of the subscription graph *)

Record wf (s : state) : Prop := mkWf {
  (** the id sets mirror the two generations of Deps *)
  wf_ids : ∀ w r, watchers s !! w = Some r →
    depIds r = list_to_set (deps r) ∧ newDepIds r = list_to_set (newDeps r);
  (** a subscriber of a Dep has that Dep in one of its generations *)
  wf_subs : ∀ d w, w ∈ subs_of s d →
    ∃ r, watchers s !! w = Some r ∧ (d ∈ depIds r ∨ d ∈ newDepIds r);
  (** no Dep lists a subscriber twice *)
  wf_nodup : ∀ d, NoDup (subs_of s d);
  (** an active watcher is subscribed to the Deps of both generations *)
  wf_active : ∀ w r d, watchers s !! w = Some r → active r = true →
    d ∈ depIds r ∨ d ∈ newDepIds r → w ∈ subs_of s d;
  (** watcher ids come from [++uid] *)
  wf_uid : ∀ w r, watchers s !! w = Some r → w ≤ uid s;
  wf_vm_nodup : ∀ v, NoDup (_watchers (vm_of s v));
  wf_vm_uid : ∀ v w, w ∈ _watchers (vm_of s v) → w ≤ uid s
}.

Lemma wf_init : wf init.
Proof.
  split; unfold subs_of, vm_of; simpl; intros *;
    rewrite ?lookup_empty; simpl; try done;
    try (intros H; by apply elem_of_nil in H).
  all: constructor.
Qed.

Lemma wf_ext s s' :
  subs s' = subs s → watchers s' = watchers s → vms s' = vms s →
  uid s' = uid s → wf s → wf s'.
Proof.
  intros Hs Hw Hv Hu [H1 H2 H3 H4 H5 H6 H7].
  split; unfold subs_of, vm_of in *; rewrite ?Hs, ?Hw, ?Hv, ?Hu; done.
Qed.

Lemma wf_emit e s : wf s → wf (emit e s).
Proof. by apply wf_ext. Qed.

Lemma wf_pushTarget t s : wf s → wf (pushTarget t s).
Proof. by apply wf_ext. Qed.

Lemma wf_popTarget s : wf s → wf (popTarget s).
Proof. by apply wf_ext. Qed.

Lemma set_watcher_lookup w f s w' :
  watchers (set_watcher w f s) !! w' =
    if decide (w = w') then f <$> watchers s !! w' else watchers s !! w'.
Proof.
  unfold set_watcher. destruct (watchers s !! w) as [r|] eqn:E; simpl.
  - rewrite lookup_insert. case_decide; subst; [by rewrite E|done].
  - case_decide; subst; [by rewrite E|done].
Qed.

Lemma set_watcher_frame w f s :
  subs (set_watcher w f s) = subs s ∧ vms (set_watcher w f s) = vms s ∧
  Dep_target (set_watcher w f s) = Dep_target s ∧
  targetStack (set_watcher w f s) = targetStack s ∧
  uid (set_watcher w f s) = uid s ∧ log (set_watcher w f s) = log s.
Proof. unfold set_watcher. by destruct (watchers s !! w). Qed.

(** Updates of a watcher that leave its generations alone and do not
    activate it. *)
Definition keeps_deps (f : Watcher → Watcher) : Prop :=
  ∀ r, deps (f r) = deps r ∧ newDeps (f r) = newDeps r ∧
       depIds (f r) = depIds r ∧ newDepIds (f r) = newDepIds r ∧
       (active (f r) = true → active r = true).

Lemma keeps_deps_value v : keeps_deps (with_value v).
Proof. by intros r. Qed.
Lemma keeps_deps_dirty b : keeps_deps (with_dirty b).
Proof. by intros r. Qed.
Lemma keeps_deps_inactive : keeps_deps (with_active false).
Proof. by intros r. Qed.

Lemma wf_set_watcher w f s : keeps_deps f → wf s → wf (set_watcher w f s).
Proof.
  intros Hf [H1 H2 H3 H4 H5 H6 H7].
  destruct (set_watcher_frame w f s) as (Hs & Hv & _ & _ & Hu & _).
  split; unfold subs_of, vm_of in *; rewrite ?Hs, ?Hv, ?Hu; try done.
  - intros w' r'. rewrite set_watcher_lookup. case_decide; subst; [|apply H1].
    destruct (watchers s !! w') as [r|] eqn:E; simpl; [|done].
    intros [= <-]. destruct (Hf r) as (-> & -> & -> & -> & _). by eapply H1.
  - intros d w' Hin. destruct (H2 d w' Hin) as (r & Hr & Hd).
    rewrite set_watcher_lookup. case_decide; subst; [|eauto].
    rewrite Hr. simpl. eexists; split; [done|].
    destruct (Hf r) as (_ & _ & -> & -> & _). done.
  - intros w' r' d. rewrite set_watcher_lookup. case_decide; subst; [|apply H4].
    destruct (watchers s !! w') as [r|] eqn:E; simpl; [|done].
    intros [= <-]. destruct (Hf r) as (_ & _ & -> & -> & Ha).
    intros Hact. by eapply H4; eauto.
  - intros w' r'. rewrite set_watcher_lookup. case_decide; subst; [|apply H5].
    destruct (watchers s !! w') as [r|] eqn:E; simpl; [|done].
    intros _. by eapply H5.
Qed.

Lemma addDep_lookup w d s r w' :
  watchers s !! w = Some r → d ∉ newDepIds r →
  watchers (addDep w d s) !! w' =
    if decide (w = w')
    then Some (with_deps (deps r) (newDeps r ++ [d]) (depIds r)
                 ({[d]} ∪ newDepIds r) r)
    else watchers s !! w'.
Proof.
  intros Hw Hd. unfold addDep. rewrite Hw. case_decide; [done|].
  case_decide; simpl; rewrite lookup_insert; by case_decide.
Qed.

Lemma addDep_subs w d s r d' :
  watchers s !! w = Some r → d ∉ newDepIds r →
  subs_of (addDep w d s) d' =
    if decide ((d ∉ depIds r) ∧ d = d') then subs_of s d ++ [w]
    else subs_of s d'.
Proof.
  intros Hw Hd. unfold addDep. rewrite Hw. case_decide; [done|].
  case_decide.
  - rewrite decide_False by naive_solver. done.
  - rewrite subs_of_addSub. unfold subs_of at 1 3. simpl.
    repeat case_decide; naive_solver.
Qed.

Lemma addDep_frame w d s :
  vms (addDep w d s) = vms s ∧ Dep_target (addDep w d s) = Dep_target s ∧
  targetStack (addDep w d s) = targetStack s ∧
  uid (addDep w d s) = uid s ∧ log (addDep w d s) = log s.
Proof.
  unfold addDep. destruct (watchers s !! w); [|done].
  repeat case_decide; done.
Qed.

Lemma wf_addDep w d s : wf s → wf (addDep w d s).
Proof.
  intros Hwf. destruct (watchers s !! w) as [r|] eqn:Hw;
    [|by unfold addDep; rewrite Hw].
  destruct (decide (d ∈ newDepIds r)) as [Hnew|Hnew];
    [by unfold addDep; rewrite Hw, decide_True|].
  destruct Hwf as [H1 H2 H3 H4 H5 H6 H7].
  destruct (addDep_frame w d s) as (Hv & _ & _ & Hu & _).
  destruct (H1 w r Hw) as [Hids Hnids].
  split; unfold vm_of; rewrite ?Hv, ?Hu; try done.
  - intros w' r0. rewrite (addDep_lookup w d s r) by done.
    case_decide; subst; [|apply H1].
    intros [= <-]. simpl. split; [done|].
    rewrite list_to_set_app_L, Hnids. set_solver.
  - intros d' w'. rewrite (addDep_subs w d s r), (addDep_lookup w d s r) by done.
    case_decide as Hc.
    + destruct Hc as [Hc <-]. rewrite elem_of_app, list_elem_of_singleton.
      intros [Hin| ->].
      * destruct (H2 d w' Hin) as (r0 & Hr0 & Hd).
        case_decide; subst; [|eauto].
        eexists; split; [done|]. simpl. set_solver.
      * rewrite decide_True by done. eexists; split; [done|]. simpl. set_solver.
    + intros Hin. destruct (H2 d' w' Hin) as (r0 & Hr0 & Hd).
      case_decide; subst; [|eauto].
      eexists; split; [done|]. simpl.
      assert (r0 = r) as -> by congruence. set_solver.
  - intros d'. rewrite (addDep_subs w d s r) by done.
    case_decide as Hc; [|done]. destruct Hc as [Hc <-].
    apply NoDup_app. split; [done|]. split; [|apply NoDup_singleton].
    intros x Hx ->%list_elem_of_singleton.
    destruct (H2 d w Hx) as (r0 & Hr0 & Hd).
    assert (r0 = r) as -> by congruence. naive_solver.
  - intros w' r0 d'.
    rewrite (addDep_subs w d s r), (addDep_lookup w d s r) by done.
    case_decide as Hww; subst.
    + intros [= <-]. simpl. intros Hact Hd.
      case_decide as Hc.
      * destruct Hc as [Hc <-]. set_solver.
      * destruct (decide (d' = d)) as [->|Hne].
        -- eapply H4; eauto. left.
           destruct (decide (d ∈ depIds r)); [done|naive_solver].
        -- eapply H4; eauto. set_solver.
    + intros Hr0 Hact Hd. case_decide as Hc.
      * destruct Hc as [Hc <-]. apply elem_of_app. left. eapply H4; eauto.
      * eapply H4; eauto.
  - intros w' r0. rewrite (addDep_lookup w d s r) by done.
    case_decide; subst; [|apply H5]. intros _. by eapply H5.
Qed.

Lemma wf_depend d s : wf s → wf (depend d s).
Proof.
  intros Hwf. unfold depend. destruct (Dep_target s); try done.
  by apply wf_addDep, wf_emit.
Qed.

Lemma cleanupDeps_lookup w s r w' :
  watchers s !! w = Some r →
  watchers (cleanupDeps w s) !! w' =
    if decide (w = w') then Some (with_deps (newDeps r) [] (newDepIds r) ∅ r)
    else watchers s !! w'.
Proof.
  intros Hw. unfold cleanupDeps. rewrite Hw. simpl.
  rewrite lookup_insert. case_decide; [done|].
  by destruct (unsub_loop_frame w (λ d, bool_decide (d ∉ newDepIds r))
                 (reverse (deps r)) s) as (-> & _).
Qed.

Lemma cleanupDeps_subs w s r d :
  watchers s !! w = Some r →
  subs_of (cleanupDeps w s) d =
    subs_of (unsub_loop w (λ d, bool_decide (d ∉ newDepIds r))
               (reverse (deps r)) s) d.
Proof. intros Hw. unfold cleanupDeps. by rewrite Hw. Qed.

Lemma cleanupDeps_frame w s :
  vms (cleanupDeps w s) = vms s ∧
  Dep_target (cleanupDeps w s) = Dep_target s ∧
  targetStack (cleanupDeps w s) = targetStack s ∧
  uid (cleanupDeps w s) = uid s ∧ log (cleanupDeps w s) = log s.
Proof.
  unfold cleanupDeps. destruct (watchers s !! w) as [r|]; [|done]. simpl.
  by destruct (unsub_loop_frame w (λ d, bool_decide (d ∉ newDepIds r))
                 (reverse (deps r)) s) as (_ & -> & -> & -> & -> & ->).
Qed.

Lemma wf_cleanupDeps w s : wf s → wf (cleanupDeps w s).
Proof.
  intros Hwf. destruct (watchers s !! w) as [r|] eqn:Hw;
    [|by unfold cleanupDeps; rewrite Hw].
  destruct Hwf as [H1 H2 H3 H4 H5 H6 H7].
  destruct (cleanupDeps_frame w s) as (Hv & _ & _ & Hu & _).
  destruct (H1 w r Hw) as [Hids Hnids].
  set (drop := λ d, bool_decide (d ∉ newDepIds r)).
  split; unfold vm_of; rewrite ?Hv, ?Hu; try done.
  - intros w' r0. rewrite (cleanupDeps_lookup w s r) by done.
    case_decide; subst; [|apply H1]. by intros [= <-].
  - intros d w'. rewrite (cleanupDeps_subs w s r), (cleanupDeps_lookup w s r) by done.
    intros Hin. pose proof (unsub_loop_sub _ _ _ _ _ _ Hin) as Hin0.
    destruct (H2 d w' Hin0) as (r0 & Hr0 & Hd).
    case_decide; subst; [|eauto].
    assert (r0 = r) as -> by congruence.
    eexists; split; [done|]. simpl. left.
    destruct (decide (d ∈ newDepIds r)) as [|Hn]; [done|]. exfalso.
    destruct Hd as [Hd|Hd]; [|done].
    revert Hin. apply unsub_loop_dropped; [done| |by apply bool_decide_eq_true].
    apply elem_of_reverse. rewrite Hids in Hd. by apply elem_of_list_to_set in Hd.
  - intros d. rewrite (cleanupDeps_subs w s r) by done.
    by apply unsub_loop_NoDup.
  - intros w' r0 d.
    rewrite (cleanupDeps_subs w s r), (cleanupDeps_lookup w s r) by done.
    case_decide; subst.
    + intros [= <-]. simpl. intros Hact [Hd|Hd]; [|set_solver].
      rewrite unsub_loop_kept.
      * eapply H4; eauto.
      * intros _. by apply bool_decide_eq_false; intros ?.
    + intros Hr0 Hact Hd. apply unsub_loop_other; [done|]. eapply H4; eauto.
  - intros w' r0. rewrite (cleanupDeps_lookup w s r) by done.
    case_decide; subst; [|apply H5]. intros _. by eapply H5.
Qed.

Lemma vm_of_set_vms s v c v' :
  vm_of (set_vms (<[v := c]> (vms s)) s) v' =
    if decide (v = v') then c else vm_of s v'.
Proof. unfold vm_of. simpl. rewrite lookup_insert. by case_decide. Qed.

(** The state in which [teardown] of an active watcher leaves the host
    component. *)
Definition leave_vm (w : nat) (r : Watcher) (s : state) : state :=
  let c := vm_of s (vm r) in
  if _isBeingDestroyed c then s
  else set_vms (<[vm r :=
         {| _watcher := _watcher c;
            _watchers := remove w (_watchers c);
            _isBeingDestroyed := _isBeingDestroyed c |}]> (vms s)) s.

Lemma teardown_active w s r :
  watchers s !! w = Some r → active r = true →
  teardown w s =
    set_watcher w (with_active false)
      (unsub_loop w (λ _, true) (reverse (deps r))
         (leave_vm w r (emit (EvTeardown w) s))).
Proof. intros Hw Ha. unfold teardown. simpl. by rewrite Hw, Ha. Qed.

Lemma teardown_inactive w s r :
  watchers s !! w = Some r → active r = false →
  teardown w s = emit (EvTeardown w) s.
Proof. intros Hw Ha. unfold teardown. simpl. by rewrite Hw, Ha. Qed.

Lemma wf_leave_vm w r s : wf s → wf (leave_vm w r s).
Proof.
  intros Hwf. unfold leave_vm. destruct (_isBeingDestroyed _); [done|].
  destruct Hwf as [H1 H2 H3 H4 H5 H6 H7].
  split; try done.
  - intros v. rewrite vm_of_set_vms. case_decide; [|done]. simpl.
    by apply NoDup_remove.
  - intros v w'. rewrite vm_of_set_vms. case_decide; [|apply H7]. simpl.
    intros Hin%elem_of_remove. by eapply H7.
Qed.

Lemma wf_deactivate w ds s :
  wf s →
  wf (set_watcher w (with_active false) (unsub_loop w (λ _, true) ds s)).
Proof.
  intros [H1 H2 H3 H4 H5 H6 H7].
  set (s1 := unsub_loop w (λ _, true) ds s).
  destruct (unsub_loop_frame w (λ _, true) ds s) as (Hw & Hv & _ & _ & Hu & _).
  destruct (set_watcher_frame w (with_active false) s1) as (Hs' & Hv' & _ & _ & Hu' & _).
  assert (Hsub : ∀ d, subs_of (set_watcher w (with_active false) s1) d = subs_of s1 d).
  { intros d. unfold subs_of. by rewrite Hs'. }
  split; unfold vm_of; rewrite ?Hv', ?Hu'; fold s1 in Hw, Hv, Hu;
    rewrite ?Hv, ?Hu; try done.
  - intros w' r'. rewrite set_watcher_lookup, Hw.
    case_decide; subst; [|apply H1].
    destruct (watchers s !! w') as [r|] eqn:E; simpl; [|done].
    intros [= <-]. simpl. by eapply H1.
  - intros d w'. rewrite Hsub. intros Hin%unsub_loop_sub.
    destruct (H2 d w' Hin) as (r & Hr & Hd).
    rewrite set_watcher_lookup, Hw. case_decide; subst; [|eauto].
    rewrite Hr. simpl. eauto.
  - intros d. rewrite Hsub. by apply unsub_loop_NoDup.
  - intros w' r' d. rewrite set_watcher_lookup, Hw, Hsub.
    case_decide; subst.
    + destruct (watchers s !! w') as [r|] eqn:E; simpl; [|done].
      by intros [= <-].
    + intros Hr Hact Hd. apply unsub_loop_other; [done|]. eapply H4; eauto.
  - intros w' r'. rewrite set_watcher_lookup, Hw.
    case_decide; subst; [|apply H5].
    destruct (watchers s !! w') as [r|] eqn:E; simpl; [|done].
    intros _. by eapply H5.
Qed.

Lemma wf_teardown w s : wf s → wf (teardown w s).
Proof.
  intros Hwf. destruct (watchers s !! w) as [r|] eqn:Hw.
  - destruct (active r) eqn:Ha.
    + rewrite (teardown_active w s r) by done.
      by apply wf_deactivate, wf_leave_vm, wf_emit.
    + rewrite (teardown_inactive w s r) by done. by apply wf_emit.
  - unfold teardown. simpl. rewrite Hw. by apply wf_emit.
Qed.

Lemma wf_alloc_Watcher cfg v fn opts isR s :
  wf s → wf (alloc_Watcher cfg v fn opts isR s).
Proof.
  intros [H1 H2 H3 H4 H5 H6 H7]. unfold alloc_Watcher.
  destruct (opt_flags opts) as [[[deep_ user_] lazy_] sync_].
  match goal with |- wf (if ?b then emit ?e ?s1 else _) =>
    cut (wf s1); [by destruct b; [apply wf_emit|]|] end.
  assert (Hfresh : watchers s !! S (uid s) = None).
  { destruct (watchers s !! S (uid s)) as [r|] eqn:E; [|done].
    apply H5 in E. lia. }
  split; simpl.
  - intros w r. rewrite lookup_insert. case_decide; subst; [|apply H1].
    by intros [= <-].
  - intros d w Hin. destruct (H2 d w Hin) as (r & Hr & Hd).
    exists r. split; [|done]. rewrite lookup_insert_ne; [done|congruence].
  - done.
  - intros w r d. rewrite lookup_insert. case_decide; subst; [|apply H4].
    intros [= <-]. simpl. set_solver.
  - intros w r. rewrite lookup_insert. case_decide; subst; [lia|].
    intros Hr%H5. lia.
  - intros v'. unfold vm_of. simpl. rewrite lookup_insert.
    case_decide; subst; simpl; [|apply H6].
    apply NoDup_app. split; [apply H6|]. split; [|apply NoDup_singleton].
    intros x Hx ->%list_elem_of_singleton. apply H7 in Hx. lia.
  - intros v' w. unfold vm_of. simpl. rewrite lookup_insert.
    case_decide; subst; simpl.
    + rewrite elem_of_app, list_elem_of_singleton.
      intros [Hx%H7| ->]; lia.
    + intros Hx%H7. lia.
Qed.

(** Every run of user code keeps the invariant. *)
Section Invariant.

Context (cfg : config) (getter : nat → state → script)
        (cb : nat → val → val → state → list op)
        (traverse : val → state → list nat).

Lemma wf_respected : respects cfg (λ s s', wf s → wf s').
Proof.
  split.
  - done.
  - eauto.
  - intros. by apply wf_depend.
  - intros. by apply wf_emit.
  - intros. by apply wf_emit.
  - intros. by apply wf_emit.
  - intros. by apply wf_set_watcher.
  - intros. by apply wf_set_watcher.
  - intros. by apply wf_teardown.
  - intros. by apply wf_alloc_Watcher.
  - intros w s0 s2 _ H0 Hs0.
    by apply wf_cleanupDeps, wf_popTarget, H0, wf_pushTarget, wf_emit.
  - intros w r s0 s1 v old _ _ H0 Hs0.
    by apply wf_emit, wf_set_watcher, H0.
Qed.

Lemma sat_wf {A} s (r : res A) :
  wf s → sat (λ s s', wf s → wf s') s r → sat (λ _ s', wf s') s r.
Proof. intros Hwf. destruct r; simpl; auto. Qed.

Lemma exec_wf n ops s :
  wf s → sat (λ _ s', wf s') s (exec cfg getter cb traverse n ops s).
Proof. intros Hwf. by apply sat_wf, exec_sat, wf_respected. Qed.

Lemma get_wf n w s :
  wf s →
  sat (λ _ s', wf s') s (get getter traverse (exec cfg getter cb traverse n) w s).
Proof.
  intros Hwf. apply sat_wf; [done|].
  apply get_sat with (cfg := cfg); [apply wf_respected|].
  apply exec_sat, wf_respected.
Qed.

End Invariant.

(** *** The stack of consumers *)

Lemma teardown_frame w s :
  Dep_target (teardown w s) = Dep_target s ∧
  targetStack (teardown w s) = targetStack s ∧
  uid (teardown w s) = uid s ∧
  log (teardown w s) = log s ++ [EvTeardown w].
Proof.
  unfold teardown. simpl.
  destruct (watchers s !! w) as [r|] eqn:Hw; simpl; [|done].
  destruct (active r); [|done].
  match goal with |- context [set_watcher w ?f ?s0] =>
    destruct (set_watcher_frame w f s0) as (_ & _ & -> & -> & -> & ->) end.
  match goal with |- context [unsub_loop w ?f ?ds ?s0] =>
    destruct (unsub_loop_frame w f ds s0) as (_ & _ & -> & -> & -> & ->) end.
  by destruct (_isBeingDestroyed _).
Qed.

Lemma alloc_Watcher_frame cfg v fn opts isR s :
  Dep_target (alloc_Watcher cfg v fn opts isR s) = Dep_target s ∧
  targetStack (alloc_Watcher cfg v fn opts isR s) = targetStack s ∧
  subs (alloc_Watcher cfg v fn opts isR s) = subs s ∧
  uid (alloc_Watcher cfg v fn opts isR s) = S (uid s) ∧
  ∃ tr, log (alloc_Watcher cfg v fn opts isR s) = log s ++ tr ∧
        ∀ e, e ∈ tr → e = EvWarn (S (uid s)).
Proof.
  unfold alloc_Watcher.
  destruct (opt_flags opts) as [[[deep_ user_] lazy_] sync_].
  destruct (negb fn && negb (production cfg)); simpl; repeat split; try done.
  - exists [EvWarn (S (uid s))]. split; [done|].
    by intros e ->%list_elem_of_singleton.
  - exists []. rewrite app_nil_r. split; [done|]. by intros e ?%elem_of_nil.
Qed.

Lemma depend_frame d s :
  Dep_target (depend d s) = Dep_target s ∧
  targetStack (depend d s) = targetStack s ∧
  vms (depend d s) = vms s ∧ uid (depend d s) = uid s.
Proof.
  unfold depend. destruct (Dep_target s) eqn:E; try done.
  destruct (addDep_frame w d (emit (EvDepend d w) s)) as (-> & -> & -> & -> & _).
  done.
Qed.

(** The top of [targetStack]; [undefined] when the stack is empty. *)
Definition top (st : list target) : target := List.last st TUndefined.

(** [targetStack] is as it was, and [Dep.target] is as it was or has
    been reset to the top of the stack by a [popTarget]. *)
Definition balanced (s s' : state) : Prop :=
  targetStack s' = targetStack s ∧
  (Dep_target s' = Dep_target s ∨ Dep_target s' = top (targetStack s)).

Lemma removelast_snoc {A} (l : list A) x : removelast (l ++ [x]) = l.
Proof. by rewrite removelast_last. Qed.

Lemma balanced_respected cfg : respects cfg balanced.
Proof.
  split; unfold balanced.
  - auto.
  - intros s1 s2 s3 [E1 H1] [E2 H2]. rewrite E2, E1. split; [done|].
    rewrite E1 in H2. destruct H2 as [H2|H2]; [|auto].
    rewrite H2. destruct H1 as [H1|H1]; auto.
  - intros d s. destruct (depend_frame d s) as (-> & -> & _). auto.
  - auto.
  - auto.
  - auto.
  - intros w v s.
    destruct (set_watcher_frame w (with_value v) s) as (_ & _ & -> & -> & _). auto.
  - intros w b s.
    destruct (set_watcher_frame w (with_dirty b) s) as (_ & _ & -> & -> & _). auto.
  - intros w s. destruct (teardown_frame w s) as (-> & -> & _). auto.
  - intros v fn opts isR s.
    destruct (alloc_Watcher_frame cfg v fn opts isR s) as (-> & -> & _). auto.
  - intros w s s2 _ [E _].
    destruct (cleanupDeps_frame w (popTarget s2)) as (_ & -> & -> & _).
    simpl in *. rewrite E, removelast_snoc. auto.
  - intros w r s s1 v old _ _ [E H]. simpl.
    destruct (set_watcher_frame w (with_value v) s1) as (_ & _ & -> & -> & _). auto.
Qed.

(** *** Relations that hold between well-formed states *)

Record respects_wf (cfg : config) (P : state → state → Prop) : Prop := {
  rw_refl : ∀ s, wf s → P s s;
  rw_trans : ∀ s1 s2 s3, wf s1 → wf s2 → wf s3 → P s1 s2 → P s2 s3 → P s1 s3;
  rw_depend : ∀ d s, wf s → P s (depend d s);
  rw_emit : ∀ e s, wf s →
    match e with
    | EvUpdate _ | EvQueue _ | EvHandleError _ _ _ _ => P s (emit e s)
    | _ => True
    end;
  rw_set : ∀ w f s, wf s → (∃ v, f = with_value v) ∨ (∃ b, f = with_dirty b) →
    P s (set_watcher w f s);
  rw_teardown : ∀ w s, wf s → P s (teardown w s);
  rw_alloc : ∀ v fn opts isR s, wf s → P s (alloc_Watcher cfg v fn opts isR s);
  rw_get : ∀ w s s2, wf s → wf s2 → is_Some (watchers s !! w) →
    P (pushTarget (TWatcher w) (emit (EvGet w) s)) s2 →
    P s (cleanupDeps w (popTarget s2));
  rw_cb : ∀ w r s s1 v old, wf s → wf s1 →
    watchers s !! w = Some r → active r = true → P s s1 →
    P s (emit (EvCb w v old) (set_watcher w (with_value v) s1))
}.

Definition under_wf (P : state → state → Prop) (s s' : state) : Prop :=
  wf s → wf s' ∧ P s s'.

Lemma respects_under_wf cfg P : respects_wf cfg P → respects cfg (under_wf P).
Proof.
  intros [R1 R2 R3 R4 R5 R6 R7 R8 R9].
  pose proof (wf_respected cfg) as [W1 W2 W3 W4 W5 W6 W7 W8 W9 W10 W11 W12].
  split; unfold under_wf.
  - auto.
  - intros s1 s2 s3 H12 H23 Hs1. destruct (H12 Hs1) as [Hs2 P12].
    destruct (H23 Hs2) as [Hs3 P23]. eauto.
  - auto.
  - intros w s Hs. split; [auto|]. apply (R4 (EvUpdate w) s Hs).
  - intros w s Hs. split; [by apply W5|]. apply (R4 (EvQueue w) s Hs).
  - intros e v w b s Hs. split; [by apply W6|].
    apply (R4 (EvHandleError e v w b) s Hs).
  - intros w v s Hs. split; [auto|]. apply R5; eauto.
  - intros w b s Hs. split; [auto|]. apply R5; eauto.
  - auto.
  - auto.
  - intros w s s2 Hw H Hs.
    assert (wf (pushTarget (TWatcher w) (emit (EvGet w) s))) as Hs1
      by by apply wf_pushTarget, wf_emit.
    destruct (H Hs1) as [Hs2 HP]. split; [|by apply R8].
    by apply wf_cleanupDeps, wf_popTarget.
  - intros w r s s1 v old Hw Ha H Hs. destruct (H Hs) as [Hs1 HP].
    split; [|by eapply R9]. by apply wf_emit, wf_set_watcher.
Qed.

(** What the primitives do to the log and to one watcher. *)

Lemma depend_log d s :
  log (depend d s) =
    log s ++ match Dep_target s with TWatcher w => [EvDepend d w] | _ => [] end.
Proof.
  unfold depend. destruct (Dep_target s) eqn:E; rewrite ?app_nil_r; try done.
  by destruct (addDep_frame w d (emit (EvDepend d w) s)) as (_ & _ & _ & _ & ->).
Qed.

Lemma depend_watcher d s w r :
  watchers s !! w = Some r →
  ∃ r', watchers (depend d s) !! w = Some r' ∧
        deps r' = deps r ∧ depIds r' = depIds r ∧ active r' = active r ∧
        newDepIds r' =
          newDepIds r ∪ (if decide (Dep_target s = TWatcher w) then {[d]} else ∅).
Proof.
  intros Hw. unfold depend. destruct (Dep_target s) as [| |w0] eqn:E.
  1,2: exists r; rewrite decide_False by done; repeat split; try done; set_solver.
  destruct (decide (w0 = w)) as [->|Hne].
  - rewrite decide_True by done.
    destruct (decide (d ∈ newDepIds r)) as [Hin|Hin].
    + exists r. unfold addDep. simpl. rewrite Hw, decide_True by done.
      repeat split; try done. set_solver.
    + rewrite (addDep_lookup w d _ r) by done. rewrite decide_True by done.
      eexists; split; [done|]. simpl. repeat split; try done. set_solver.
  - rewrite decide_False by congruence. exists r.
    split; [|repeat split; try done; set_solver].
    unfold addDep. simpl.
    destruct (watchers s !! w0) as [r0|] eqn:E0; [|done].
    case_decide; [done|].
    case_decide; simpl; by rewrite lookup_insert_ne.
Qed.

Lemma cleanupDeps_other w0 s w :
  w0 ≠ w → watchers (cleanupDeps w0 s) !! w = watchers s !! w.
Proof.
  intros Hne. destruct (watchers s !! w0) as [r0|] eqn:E.
  - rewrite (cleanupDeps_lookup w0 s r0) by done. by rewrite decide_False.
  - unfold cleanupDeps. by rewrite E.
Qed.

Lemma teardown_other w0 s w :
  w0 ≠ w → watchers (teardown w0 s) !! w = watchers s !! w.
Proof.
  intros Hne. destruct (watchers s !! w0) as [r0|] eqn:E.
  - destruct (active r0) eqn:Ha.
    + rewrite (teardown_active w0 s r0) by done.
      rewrite set_watcher_lookup, decide_False by done.
      match goal with |- context [unsub_loop w0 ?f ?ds ?s0] =>
        destruct (unsub_loop_frame w0 f ds s0) as (-> & _) end.
      unfold leave_vm. by destruct (_isBeingDestroyed _).
    + by rewrite (teardown_inactive w0 s r0).
  - unfold teardown. simpl. by rewrite E.
Qed.

Lemma alloc_Watcher_other cfg v fn opts isR s w :
  w ≤ uid s →
  watchers (alloc_Watcher cfg v fn opts isR s) !! w = watchers s !! w.
Proof.
  intros Hle. unfold alloc_Watcher.
  destruct (opt_flags opts) as [[[deep_ user_] lazy_] sync_].
  destruct (negb fn && negb (production cfg)); simpl;
    rewrite lookup_insert_ne; (done || lia).
Qed.

(** [this.active] of watcher [w], if it exists. *)
Definition act (s : state) (w : nat) : option bool :=
  active <$> watchers s !! w.

Lemma act_depend d s w : act (depend d s) w = act s w.
Proof.
  unfold act. destruct (watchers s !! w) as [r|] eqn:Hw.
  - destruct (depend_watcher d s w r Hw) as (r' & -> & _ & _ & Ha & _).
    simpl. by rewrite Ha.
  - unfold depend. destruct (Dep_target s) as [| |w0]; rewrite ?Hw; try done.
    unfold addDep. simpl. destruct (watchers s !! w0) as [r0|] eqn:E0;
      [|by simpl; rewrite Hw].
    assert (w0 ≠ w) by congruence.
    repeat case_decide; simpl; rewrite ?lookup_insert_ne, ?Hw; done.
Qed.

Lemma act_set_watcher w0 f s w :
  (∀ r, active (f r) = active r) → act (set_watcher w0 f s) w = act s w.
Proof.
  intros Hf. unfold act. rewrite set_watcher_lookup. case_decide; [|done].
  destruct (watchers s !! w); simpl; [|done]. by rewrite Hf.
Qed.

Lemma act_cleanupDeps w0 s w : act (cleanupDeps w0 s) w = act s w.
Proof.
  unfold act. destruct (watchers s !! w0) as [r0|] eqn:E.
  - rewrite (cleanupDeps_lookup w0 s r0) by done. case_decide; subst; [|done].
    by rewrite E.
  - unfold cleanupDeps. by rewrite E.
Qed.

Lemma act_alloc_Watcher cfg v fn opts isR s w :
  wf s → is_Some (act s w) → act (alloc_Watcher cfg v fn opts isR s) w = act s w.
Proof.
  intros Hwf [b Hb]. unfold act in *. rewrite alloc_Watcher_other; [done|].
  destruct (watchers s !! w) as [r|] eqn:E; [|done]. by eapply wf_uid.
Qed.

Lemma act_teardown w0 s w :
  act s w = Some false → act (teardown w0 s) w = Some false.
Proof.
  unfold act. intros Hw. destruct (decide (w0 = w)) as [->|Hne].
  - destruct (watchers s !! w) as [r|] eqn:E; [|done].
    simpl in Hw. rewrite (teardown_inactive w s r); [|done|congruence].
    simpl. by rewrite E.
  - by rewrite teardown_other.
Qed.

(** The callback of [w] is not among the events [tr]. *)
Definition no_cb (w : nat) (tr : list event) : Prop :=
  ∀ v o, EvCb w v o ∉ tr.

(** Once inactive, a watcher stays inactive and its callback is not
    called. *)
Definition stays_inactive (w : nat) (s s' : state) : Prop :=
  act s w = Some false →
  act s' w = Some false ∧ ∃ tr, log s' = log s ++ tr ∧ no_cb w tr.

Lemma no_cb_nil w : no_cb w [].
Proof. intros v o. apply not_elem_of_nil. Qed.

Lemma no_cb_app w tr1 tr2 : no_cb w tr1 → no_cb w tr2 → no_cb w (tr1 ++ tr2).
Proof.
  intros H1 H2 v o [?|?]%elem_of_app; [by eapply H1|by eapply H2].
Qed.

Lemma no_cb_one w e :
  (∀ v o, e ≠ EvCb w v o) → no_cb w [e].
Proof. intros H v o ?%list_elem_of_singleton. by eapply H. Qed.

Lemma stays_inactive_respected cfg w : respects_wf cfg (stays_inactive w).
Proof.
  split; unfold stays_inactive.
  - intros s _ Hw. split; [done|]. exists []. rewrite app_nil_r.
    split; [done|apply no_cb_nil].
  - intros s1 s2 s3 _ _ _ H12 H23 Hw.
    destruct (H12 Hw) as (Hw2 & tr1 & E1 & N1).
    destruct (H23 Hw2) as (Hw3 & tr2 & E2 & N2).
    split; [done|]. exists (tr1 ++ tr2). rewrite E2, E1, (assoc_L _).
    split; [done|by apply no_cb_app].
  - intros d s _ Hw. rewrite act_depend. split; [done|].
    rewrite depend_log. eexists; split; [done|].
    destruct (Dep_target s); try apply no_cb_nil. by apply no_cb_one.
  - intros e s _. destruct e; try done; intros Hw; (split; [done|]);
      (eexists; split; [done|]); by apply no_cb_one.
  - intros w0 f s _ Hf Hw. rewrite act_set_watcher
      by (by destruct Hf as [[v ->]|[b ->]]).
    split; [done|]. destruct (set_watcher_frame w0 f s) as (_ & _ & _ & _ & _ & ->).
    exists []. rewrite app_nil_r. split; [done|apply no_cb_nil].
  - intros w0 s _ Hw. split; [by apply act_teardown|].
    destruct (teardown_frame w0 s) as (_ & _ & _ & ->).
    eexists; split; [done|]. by apply no_cb_one.
  - intros v fn opts isR s Hwf Hw.
    rewrite act_alloc_Watcher by (done || by rewrite Hw).
    split; [done|].
    destruct (alloc_Watcher_frame cfg v fn opts isR s) as (_ & _ & _ & _ & tr & -> & Htr).
    exists tr. split; [done|]. intros v' o Hin. by apply Htr in Hin.
  - intros w0 s s2 _ _ _ H Hw.
    destruct (H Hw) as (Hw2 & tr & E & N).
    rewrite act_cleanupDeps. split; [done|].
    destruct (cleanupDeps_frame w0 (popTarget s2)) as (_ & _ & _ & _ & ->).
    simpl in *. rewrite E, <- (assoc_L _). eexists; split; [done|].
    apply no_cb_app; [by apply no_cb_one|done].
  - intros w0 r s s1 v old _ _ Hw0 Ha H Hw.
    destruct (H Hw) as (Hw1 & tr & E & N).
    assert (w0 ≠ w) as Hne.
    { intros ->. unfold act in Hw. rewrite Hw0 in Hw. simpl in Hw. congruence. }
    split.
    + by rewrite <- Hw1, <- (act_set_watcher w0 (with_value v) s1 w).
    + simpl. destruct (set_watcher_frame w0 (with_value v) s1) as (_ & _ & _ & _ & _ & ->).
      rewrite E, <- (assoc_L _). eexists; split; [done|].
      apply no_cb_app; [done|]. apply no_cb_one. congruence.
Qed.

(** *** What an evaluation that is not re-entered does to its watcher *)

(** The Deps whose [depend()] reached [w.addDep] among the events [tr]. *)
Definition read_of (w : nat) (e : event) : option nat :=
  match e with
  | EvDepend d w' => if decide (w' = w) then Some d else None
  | _ => None
  end.

Definition reads (w : nat) (tr : list event) : gset nat :=
  list_to_set (omap (read_of w) tr).

Lemma elem_of_reads w tr d : d ∈ reads w tr ↔ EvDepend d w ∈ tr.
Proof.
  unfold reads. rewrite elem_of_list_to_set, list_elem_of_omap. split.
  - intros (e & He & Hr). destruct e; simpl in Hr; try done.
    case_decide; [|done]. by simplify_eq.
  - intros He. exists (EvDepend d w). split; [done|]. simpl.
    by rewrite decide_True.
Qed.

Lemma reads_app w tr1 tr2 : reads w (tr1 ++ tr2) = reads w tr1 ∪ reads w tr2.
Proof. unfold reads. by rewrite omap_app, list_to_set_app_L. Qed.

Lemma reads_nil w : reads w [] = ∅.
Proof. done. Qed.

Lemma reads_one_other w e :
  (∀ d, e ≠ EvDepend d w) → reads w [e] = ∅.
Proof.
  intros He. apply set_eq. intros d. rewrite elem_of_reads, list_elem_of_singleton.
  split; [|set_solver]. intros Hd. by destruct (He d).
Qed.

(** Neither [w.get()] nor [w.teardown()] is entered among [tr]. *)
Definition quiet (w : nat) (tr : list event) : Prop :=
  (EvGet w ∉ tr) ∧ (EvTeardown w ∉ tr).

Lemma quiet_app w tr1 tr2 : quiet w (tr1 ++ tr2) ↔ quiet w tr1 ∧ quiet w tr2.
Proof. unfold quiet. rewrite !elem_of_app. tauto. Qed.

Lemma quiet_nil w : quiet w [].
Proof. split; apply not_elem_of_nil. Qed.

(** [w] keeps its previous generation and its [active] flag, and its new
    generation grows by the Deps it read. *)
Definition keeps (w : nat) (tr : list event) (s s' : state) : Prop :=
  ∀ r, watchers s !! w = Some r →
    ∃ r', watchers s' !! w = Some r' ∧
          deps r' = deps r ∧ depIds r' = depIds r ∧ active r' = active r ∧
          newDepIds r' = newDepIds r ∪ reads w tr.

Definition undisturbed (w : nat) (s s' : state) : Prop :=
  ∃ tr, log s' = log s ++ tr ∧ (quiet w tr → keeps w tr s s').

Lemma keeps_same w s s' :
  watchers s' !! w = watchers s !! w → keeps w [] s s'.
Proof.
  intros E r Hr. exists r. rewrite E. repeat split; try done.
  rewrite reads_nil. set_solver.
Qed.

Lemma keeps_trans w tr1 tr2 s1 s2 s3 :
  keeps w tr1 s1 s2 → keeps w tr2 s2 s3 → keeps w (tr1 ++ tr2) s1 s3.
Proof.
  intros H12 H23 r Hr.
  destruct (H12 r Hr) as (r2 & Hr2 & E1 & E2 & E3 & E4).
  destruct (H23 r2 Hr2) as (r3 & Hr3 & F1 & F2 & F3 & F4).
  exists r3. rewrite F1, F2, F3, F4, E1, E2, E3, E4, reads_app.
  repeat split; try done. set_solver.
Qed.

Lemma keeps_reads_eq w tr tr' s s' :
  reads w tr = reads w tr' → keeps w tr s s' → keeps w tr' s s'.
Proof. intros E H r Hr. rewrite <- E. by apply H. Qed.

Lemma undisturbed_respected cfg w : respects_wf cfg (undisturbed w).
Proof.
  split; unfold undisturbed.
  - intros s _. exists []. rewrite app_nil_r. split; [done|].
    intros _. by apply keeps_same.
  - intros s1 s2 s3 _ _ _ (tr1 & E1 & H1) (tr2 & E2 & H2).
    exists (tr1 ++ tr2). rewrite E2, E1, (assoc_L _). split; [done|].
    intros [Q1 Q2]%quiet_app. eapply keeps_trans; eauto.
  - intros d s _. rewrite depend_log. eexists; split; [done|].
    intros _ r Hr. destruct (depend_watcher d s w r Hr) as (r' & Hr' & E1 & E2 & E3 & E4).
    exists r'. repeat split; try done. rewrite E4. f_equal.
    destruct (Dep_target s) as [| |w0]; try done.
    case_decide as Hc.
    + simplify_eq. apply set_eq. intros d'.
      rewrite elem_of_reads, list_elem_of_singleton, elem_of_singleton.
      naive_solver.
    + rewrite reads_one_other; [done|]. congruence.
  - intros e s _. destruct e; try done; (eexists; split; [done|]);
      intros _; (eapply keeps_reads_eq; [|by apply keeps_same]);
      by rewrite reads_one_other.
  - intros w0 f s _ Hf.
    destruct (set_watcher_frame w0 f s) as (_ & _ & _ & _ & _ & ->).
    exists []. rewrite app_nil_r. split; [done|]. intros _ r Hr.
    rewrite set_watcher_lookup. case_decide; subst.
    + rewrite Hr. simpl. eexists; split; [done|].
      rewrite reads_nil. destruct Hf as [[v ->]|[b ->]]; simpl;
        repeat split; try done; set_solver.
    + exists r. rewrite reads_nil. repeat split; try done. set_solver.
  - intros w0 s _. destruct (teardown_frame w0 s) as (_ & _ & _ & ->).
    eexists; split; [done|]. intros [_ Hq].
    assert (w0 ≠ w) as Hne
      by (intros ->; apply Hq; by apply list_elem_of_singleton).
    eapply keeps_reads_eq; [|by apply keeps_same, teardown_other].
    by rewrite reads_one_other.
  - intros v fn opts isR s Hwf.
    destruct (alloc_Watcher_frame cfg v fn opts isR s) as (_ & _ & _ & _ & tr & -> & Htr).
    exists tr. split; [done|]. intros _ r Hr.
    exists r. rewrite alloc_Watcher_other by (by eapply wf_uid).
    repeat split; try done.
    assert (reads w tr = ∅) as ->; [|set_solver].
    apply set_eq. intros d. rewrite elem_of_reads. split; [|set_solver].
    intros Hin. by apply Htr in Hin.
  - intros w0 s s2 _ _ _ (tr & E & H).
    destruct (cleanupDeps_frame w0 (popTarget s2)) as (_ & _ & _ & _ & ->).
    simpl in *. rewrite E, <- (assoc_L _). eexists; split; [done|].
    intros [Q1 Q2]%quiet_app.
    assert (w0 ≠ w) as Hne
      by (intros ->; destruct Q1 as [Q1 _]; apply Q1; by apply list_elem_of_singleton).
    intros r Hr. destruct (H Q2 r Hr) as (r' & Hr' & E1 & E2 & E3 & E4).
    exists r'. rewrite cleanupDeps_other by done. simpl.
    repeat split; try done.
  - intros w0 r0 s s1 v old _ _ Hw0 Ha (tr & E & H).
    exists (tr ++ [EvCb w0 v old]). split.
    { simpl. destruct (set_watcher_frame w0 (with_value v) s1) as (_ & _ & _ & _ & _ & ->).
      by rewrite E, <- (assoc_L _). }
    intros [Q1 Q2]%quiet_app. intros r Hr.
    destruct (H Q1 r Hr) as (r' & Hr' & E1 & E2 & E3 & E4).
    change (watchers (emit (EvCb w0 v old) (set_watcher w0 (with_value v) s1)))
      with (watchers (set_watcher w0 (with_value v) s1)).
    rewrite set_watcher_lookup, reads_app, reads_one_other by done.
    case_decide; subst.
    + rewrite Hr'. simpl. eexists; split; [done|]. simpl.
      repeat split; try done. set_solver.
    + exists r'. repeat split; try done. set_solver.
Qed.

(** *** Properties of the subscription graph *)

Section Properties.

Context (cfg : config) (getter : nat → state → script)
        (cb : nat → val → val → state → list op)
        (traverse : val → state → list nat).

#[local] Abbreviation exec' := (exec cfg getter cb traverse).
#[local] Abbreviation get' := (get getter traverse).

Lemma elem_of_snapshot s d w : w ∈ snapshot cfg s d ↔ w ∈ subs_of s d.
Proof.
  unfold snapshot. destruct (sorted_mode cfg); [|done].
  by rewrite merge_sort_Permutation.
Qed.

(** C1 (as amended): after a call of [w.get()] that returned or threw, on
    an active watcher that was not being evaluated, and during which
    neither [w.get()] nor [w.teardown()] was entered again, [deps] holds
    exactly the Deps whose [depend()] reached [w.addDep] during the call,
    [w] is a subscriber of exactly those Deps (so every Dep of the previous
    generation that was not read has lost it), and [notify()] of any other
    Dep does not call [w.update()]. *)
Theorem get_subscribes_exactly n w s r s' tr :
  wf s → watchers s !! w = Some r → active r = true → newDeps r = [] →
  res_state (get' (exec' n) w s) = Some s' →
  log s' = log s ++ EvGet w :: tr → quiet w tr →
  ∃ r', watchers s' !! w = Some r' ∧
        (∀ d, d ∈ deps r' ↔ EvDepend d w ∈ tr) ∧
        depIds r' = list_to_set (deps r') ∧
        newDeps r' = [] ∧
        (∀ d, w ∈ subs_of s' d ↔ EvDepend d w ∈ tr) ∧
        (∀ d, d ∈ deps r → EvDepend d w ∉ tr → w ∉ subs_of s' d) ∧
        (∀ d, EvDepend d w ∉ tr → w ∉ snapshot cfg s' d).
Proof.
  intros Hwf Hw Hact Hnew Hres Hlog Hq.
  pose proof (respects_under_wf cfg _ (undisturbed_respected cfg w)) as HR.
  pose proof (get_inv cfg getter traverse _ HR (exec' n) w s r
                (exec_sat cfg getter cb traverse _ HR n) Hw) as H.
  assert (∃ s2, under_wf (undisturbed w)
                  (pushTarget (TWatcher w) (emit (EvGet w) s)) s2 ∧
                s' = cleanupDeps w (popTarget s2)) as (s2 & H2 & ->).
  { destruct (get' (exec' n) w s); simpl in Hres; by simplify_eq. }
  clear H Hres.
  destruct H2 as (Hwf2 & tr2 & E2 & K); [by apply wf_pushTarget, wf_emit|].
  destruct (cleanupDeps_frame w (popTarget s2)) as (_ & _ & _ & _ & El).
  rewrite El in Hlog. simpl in Hlog, E2. rewrite E2, <- (assoc_L _) in Hlog.
  apply app_inv_head in Hlog. simpl in Hlog. simplify_eq.
  destruct (K Hq r Hw) as (r2 & Hr2 & E1 & E3 & E4 & E5).
  destruct (wf_ids s Hwf w r Hw) as [_ Hn]. rewrite Hnew in Hn. simpl in Hn.
  destruct (wf_ids s2 Hwf2 w r2 Hr2) as [_ Hn2].
  assert (wf (cleanupDeps w (popTarget s2))) as Hwf'
    by by apply wf_cleanupDeps, wf_popTarget.
  assert (Hr' : watchers (cleanupDeps w (popTarget s2)) !! w =
                Some (with_deps (newDeps r2) [] (newDepIds r2) ∅ r2)).
  { rewrite (cleanupDeps_lookup w (popTarget s2) r2) by done.
    by rewrite decide_True. }
  assert (Hd : ∀ d, d ∈ newDeps r2 ↔ EvDepend d w ∈ tr).
  { intros d. rewrite <- elem_of_reads.
    rewrite <- (elem_of_list_to_set (C := gset nat)), <- Hn2, E5, Hn. set_solver. }
  assert (Hs : ∀ d, w ∈ subs_of (cleanupDeps w (popTarget s2)) d ↔ EvDepend d w ∈ tr).
  { intros d. rewrite <- Hd. split.
    - intros Hin. destruct (wf_subs _ Hwf' d w Hin) as (r'' & Hr'' & Hc).
      rewrite Hr' in Hr''. simplify_eq. simpl in Hc.
      destruct Hc as [Hc|Hc]; [|set_solver].
      rewrite Hn2 in Hc. by apply elem_of_list_to_set in Hc.
    - intros Hin. eapply (wf_active _ Hwf' w); [exact Hr'|simpl; congruence|].
      left. simpl. rewrite Hn2. by apply elem_of_list_to_set. }
  eexists; split; [exact Hr'|]. simpl. repeat split; try done.
  - by apply Hd.
  - by apply Hd.
  - by apply Hs.
  - by apply Hs.
  - intros d _ Hnr. by rewrite Hs.
  - intros d Hnr. by rewrite elem_of_snapshot, Hs.
Qed.

(** Reads by a watcher that already holds the Deps it reads. *)

Lemma exec_depends n ds s :
  exec' (S n) (map ODepend ds) s = Ok tt (depend_all ds s).
Proof.
  unfold depend_all. revert s. induction ds as [|d ds IH]; intros s; [done|].
  unfold exec in *. simpl. apply IH.
Qed.

(** [w] is the current consumer and every Dep it reads from now on is one
    of [ids], its previous generation. *)
Definition rereading (w : nat) (ids : gset nat) (r0 : Watcher) (s : state)
    : Prop :=
  Dep_target s = TWatcher w ∧
  ∃ r, watchers s !! w = Some r ∧ depIds r = ids ∧ deps r = deps r0 ∧
       newDepIds r = list_to_set (newDeps r) ∧
       noop r = noop r0 ∧ deep r = deep r0 ∧ user r = user r0 ∧
       active r = active r0 ∧ vm r = vm r0.

Lemma depends_rereading w ids r0 ds s :
  rereading w ids r0 s → (∀ d, d ∈ ds → d ∈ ids) →
  rereading w ids r0 (depend_all ds s) ∧
  subs (depend_all ds s) = subs s ∧
  targetStack (depend_all ds s) = targetStack s ∧
  ∀ r r', watchers s !! w = Some r →
          watchers (depend_all ds s) !! w = Some r' →
          newDepIds r' = newDepIds r ∪ list_to_set ds.
Proof.
  unfold depend_all.
  revert s. induction ds as [|d ds IH]; intros s Hs Hds; simpl.
  { split; [done|]. split; [done|]. split; [done|].
    intros r r' Hr Hr'. simplify_eq. set_solver. }
  destruct Hs as (Ht & r & Hr & E1 & E2 & E3 & E4 & E5 & E6 & E7 & E8).
  assert (rereading w ids r0 (depend d s) ∧ subs (depend d s) = subs s ∧
          targetStack (depend d s) = targetStack s ∧
          ∀ r', watchers (depend d s) !! w = Some r' →
                newDepIds r' = newDepIds r ∪ {[d]}) as (H1 & H2 & H3 & H4).
  { unfold depend. rewrite Ht. unfold addDep. simpl. rewrite Hr.
    destruct (decide (d ∈ newDepIds r)) as [Hin|Hin].
    - split; [|split; [done|split; [done|]]].
      + split; [done|]. exists r. by repeat split.
      + intros r'. simpl. rewrite Hr. intros [= <-]. set_solver.
    - rewrite decide_True by (rewrite E1; apply Hds; set_solver).
      split; [|split; [done|split; [done|]]].
      + split; [done|]. eexists. simpl. rewrite lookup_insert_eq.
        split; [done|]. simpl.
        repeat split; try done. rewrite list_to_set_app_L, E3. set_solver.
      + intros r'. simpl. rewrite lookup_insert_eq. intros [= <-]. simpl.
        set_solver. }
  destruct (IH (depend d s) H1) as (I1 & I2 & I3 & I4); [set_solver|].
  split; [done|]. split; [congruence|]. split; [congruence|].
  intros r1 r' Hr1 Hr'. simplify_eq.
  destruct H1 as (_ & r2 & Hr2 & _).
  rewrite (I4 r2 r' Hr2 Hr'), (H4 r2 Hr2). set_solver.
Qed.

(** The watcher is between two evaluations and holds the Deps [ids]. *)
Definition settled (w : nat) (ids : gset nat) (r0 : Watcher) (s : state)
    : Prop :=
  ∃ r, watchers s !! w = Some r ∧ depIds r = ids ∧
       depIds r = list_to_set (deps r) ∧ newDeps r = [] ∧ newDepIds r = ∅ ∧
       noop r = noop r0 ∧ deep r = deep r0 ∧ user r = user r0 ∧
       active r = active r0 ∧ vm r = vm r0.

Lemma get_rereads n w s r0 ds v :
  settled w (list_to_set ds) r0 s → noop r0 = false →
  (∀ s0, getter w s0 = {| body := map ODepend ds; ret := v |}) →
  (∀ s0 d, d ∈ traverse v s0 → d ∈ ds) →
  ∃ s', get' (exec' (S n)) w s = Ok v s' ∧
        settled w (list_to_set ds) r0 s' ∧
        (∀ d, subs_of s' d = subs_of s d) ∧
        targetStack s' = targetStack s.
Proof.
  intros (r & Hr & E1 & E2 & E3 & E4 & E5 & E6 & E7 & E8 & E9) Hnoop Hg Htr.
  unfold get. rewrite Hr, E5, Hnoop, Hg. simpl body.
  rewrite exec_depends. simpl ret.
  set (s1 := pushTarget (TWatcher w) (emit (EvGet w) s)).
  assert (rereading w (list_to_set ds) r s1) as H1.
  { split; [done|]. exists r. repeat split; try done.
    by rewrite E3, E4. }
  destruct (depends_rereading w _ r ds s1 H1) as (H2 & S2 & T2 & N2);
    [set_solver|].
  set (s2 := depend_all ds s1) in *.
  set (s3 := if deep r then depend_all (traverse v s2) s2 else s2).
  assert (rereading w (list_to_set ds) r s3 ∧ subs s3 = subs s2 ∧
          targetStack s3 = targetStack s2 ∧
          ∀ r2 r3, watchers s2 !! w = Some r2 → watchers s3 !! w = Some r3 →
                   newDepIds r3 = newDepIds r2 ∪
                     list_to_set (if deep r then traverse v s2 else []))
    as (H3 & S3 & T3 & N3).
  { unfold s3. destruct (deep r).
    - apply depends_rereading; [done|]. intros d Hd%Htr. set_solver.
    - split; [done|]. split; [done|]. split; [done|].
      intros r2 r3 ? ?. simplify_eq. set_solver. }
  eexists. split; [done|]. unfold get_finally. fold s3.
  destruct H3 as (Ht3 & r3 & Hr3 & F1 & F2 & F3 & F4 & F5 & F6 & F7 & F8).
  destruct H2 as (_ & r2 & Hr2 & _).
  assert (newDepIds r3 = list_to_set ds) as Hnew.
  { rewrite (N3 r2 r3 Hr2 Hr3), (N2 r r2) by done. rewrite E4.
    apply set_eq. intros d. rewrite !elem_of_union, !elem_of_list_to_set.
    split; [|tauto]. intros [[Hd|Hd]|Hd].
    - by apply not_elem_of_empty in Hd.
    - done.
    - destruct (deep r); [by eapply Htr|by apply elem_of_nil in Hd]. }
  assert (watchers (popTarget s3) !! w = Some r3) as Hr3' by done.
  split; [|split].
  - eexists. rewrite (cleanupDeps_lookup w _ r3 w Hr3'), decide_True by done.
    split; [done|]. simpl. rewrite Hnew, <- F3, Hnew.
    repeat split; try done; congruence.
  - intros d. rewrite (cleanupDeps_subs w _ r3) by done.
    rewrite unsub_loop_kept.
    + unfold subs_of. simpl. by rewrite S3, S2.
    + intros Hd. rewrite elem_of_reverse in Hd.
      apply bool_decide_eq_false. intros Hn.
      apply Hn. rewrite Hnew, <- E1, E2. apply elem_of_list_to_set.
      by rewrite <- F2.
  - destruct (cleanupDeps_frame w (popTarget s3)) as (_ & _ & -> & _).
    simpl. rewrite T3, T2. simpl. by rewrite removelast_snoc.
Qed.

Lemma exec_cons n o ops s :
  exec' n (o :: ops) s =
    match exec_op cfg getter cb traverse n o s with
    | Ok _ s' => exec' n ops s'
    | r => r
    end.
Proof. done. Qed.

Lemma exec_op_get n w s :
  exec_op cfg getter cb traverse (S n) (OGet w) s = void (get' (exec' n) w s).
Proof. done. Qed.

Lemma exec_gets n w k s r0 ds v :
  settled w (list_to_set ds) r0 s → noop r0 = false →
  (∀ s0, getter w s0 = {| body := map ODepend ds; ret := v |}) →
  (∀ s0 d, d ∈ traverse v s0 → d ∈ ds) →
  ∃ s', exec' (S (S n)) (replicate k (OGet w)) s = Ok tt s' ∧
        settled w (list_to_set ds) r0 s' ∧
        (∀ d, subs_of s' d = subs_of s d) ∧
        targetStack s' = targetStack s.
Proof.
  intros Hs Hnoop Hg Htr. revert s Hs.
  induction k as [|k IH]; intros s Hs; simpl.
  { by exists s. }
  destruct (get_rereads n w s r0 ds v Hs Hnoop Hg Htr) as (s1 & G & Hs1 & S1 & T1).
  destruct (IH s1 Hs1) as (s2 & G2 & Hs2 & S2 & T2).
  exists s2. split; [|split; [done|split; [|congruence]]].
  - by rewrite exec_cons, exec_op_get, G.
  - intros d. by rewrite S2, S1.
Qed.

(** C2: in every state the program can reach, no Dep lists a watcher
    twice; [addDep] leaves every subscriber list as it is when the Dep's
    id is in [newDepIds] or in [depIds]; and evaluating a watcher again,
    any number of times, with a getter that reads the Deps it already
    holds leaves every subscriber list unchanged. *)
Theorem subs_has_no_duplicates n ops s :
  res_state (exec' n ops init) = Some s →
  (∀ d, NoDup (subs_of s d)) ∧
  (∀ w r d d', watchers s !! w = Some r →
     d ∈ newDepIds r ∨ d ∈ depIds r →
     subs_of (addDep w d s) d' = subs_of s d') ∧
  (∀ w r ds v, watchers s !! w = Some r →
     newDeps r = [] → noop r = false → depIds r = list_to_set ds →
     (∀ s0, getter w s0 = {| body := map ODepend ds; ret := v |}) →
     (∀ s0 d, d ∈ traverse v s0 → d ∈ ds) →
     ∀ k m, ∃ s', exec' (S (S m)) (replicate k (OGet w)) s = Ok tt s' ∧
                  ∀ d, subs_of s' d = subs_of s d).
Proof.
  intros Hres.
  assert (wf s) as Hwf.
  { pose proof (exec_wf cfg getter cb traverse n ops init wf_init) as H.
    destruct (exec' n ops init); simpl in *; by simplify_eq. }
  split; [apply Hwf|]. split.
  - intros w r d d' Hr Hd.
    destruct (decide (d ∈ newDepIds r)) as [Hn|Hn].
    + unfold addDep. by rewrite Hr, decide_True.
    + rewrite (addDep_subs w d s r) by done.
      rewrite decide_False; [done|]. intros [? _]. tauto.
  - intros w r ds v Hr Hnew Hnoop Hids Hg Htr k m.
    destruct (wf_ids s Hwf w r Hr) as [E1 E2].
    destruct (exec_gets m w k s r ds v) as (s' & G & _ & S & _); try done.
    + exists r. rewrite Hnew in E2. by repeat split.
    + by exists s'.
Qed.

(** [f] on each element of [xs] in order, each call from the state the
    previous one left; an exception ends the walk. *)
Fixpoint each (f : nat → state → res unit) (xs : list nat) (s : state)
    : res unit :=
  match xs with
  | [] => Ok tt s
  | x :: xs' =>
    match f x s with
    | Ok _ s' => each f xs' s'
    | r => r
    end
  end.

Lemma for_each_drop f xs n i s :
  n = length xs - i → for_each f xs i n s = each f (drop i xs) s.
Proof.
  revert i s. induction n as [|n IH]; intros i s Hn; simpl.
  - rewrite drop_ge by lia. done.
  - destruct (xs !! i) as [x|] eqn:Hx.
    + rewrite (drop_S _ _ _ Hx). simpl.
      destruct (f x s) as [[] s'| |]; try done. apply IH. lia.
    + apply lookup_ge_None in Hx. lia.
Qed.

Lemma for_each_each f xs s : for_each f xs 0 (length xs) s = each f xs s.
Proof. rewrite (for_each_drop f xs (length xs) 0) by lia. by rewrite drop_0. Qed.

(** The events of [update()] on watchers that are neither lazy nor
    synchronous. *)
Definition deferred_events (xs : list nat) : list event :=
  xs ≫= λ x, [EvUpdate x; EvQueue x].

Definition deferred (s : state) (x : nat) : Prop :=
  ∃ r, watchers s !! x = Some r ∧ lazy r = false ∧ sync r = false.

Lemma each_update_deferred ex xs s :
  Forall (deferred s) xs →
  ∃ s', each (update getter cb traverse ex) xs s = Ok tt s' ∧
        log s' = log s ++ deferred_events xs ∧
        subs s' = subs s ∧ watchers s' = watchers s ∧
        Dep_target s' = Dep_target s ∧ targetStack s' = targetStack s.
Proof.
  revert s. induction xs as [|x xs IH]; intros s Hxs; simpl.
  { exists s. by rewrite app_nil_r. }
  apply Forall_cons in Hxs as [(r & Hr & Hl & Hs) Hxs].
  unfold update at 1. simpl. rewrite Hr, Hl, Hs.
  destruct (IH (queueWatcher x (emit (EvUpdate x) s))) as (s' & E & L & S' & W & T & K).
  { eapply Forall_impl; [exact Hxs|]. intros y Hy. exact Hy. }
  exists s'. split; [done|]. rewrite L. simpl.
  repeat split; try done. unfold deferred_events. simpl.
  by rewrite <- !(assoc_L _).
Qed.


(** The state in which [get] leaves the [finally] block entered in [h]. *)
Definition after_finally (w : nat) (r : Watcher) (h : state) : state :=
  cleanupDeps w
    (popTarget (if deep r then depend_all (traverse VUndef h) h else h)).

Lemma exec_balanced n ops s : sat balanced s (exec' n ops s).
Proof. apply exec_sat, balanced_respected. Qed.

Lemma depend_all_frame ds s :
  Dep_target (depend_all ds s) = Dep_target s ∧
  targetStack (depend_all ds s) = targetStack s.
Proof.
  unfold depend_all. revert s. induction ds as [|d ds IH]; intros s; simpl; [done|].
  destruct (IH (depend d s)) as [-> ->].
  by destruct (depend_frame d s) as (-> & -> & _).
Qed.


(** C8 (as amended): on every exit of [get()], by return or by exception
    and however its getter nests further calls, [targetStack] is what it
    was on entry and [Dep.target] is the top of that stack ([undefined]
    for the empty stack); so [Dep.target] has its value of before the call
    whenever that value was the top of the stack, and in every state the
    program reaches the current consumer is the same as before. *)
Theorem get_restores_target n w s :
  sat (λ s s',
         targetStack s' = targetStack s ∧
         (is_Some (watchers s !! w) → Dep_target s' = top (targetStack s)) ∧
         (Dep_target s = top (targetStack s) → Dep_target s' = Dep_target s) ∧
         (targetStack s = [] → Dep_target s = TNull →
            consumer (Dep_target s') = consumer (Dep_target s)))
      s (get' (exec' n) w s).
Proof.
  destruct (watchers s !! w) as [r|] eqn:Hw.
  - pose proof (get_inv cfg getter traverse _ (balanced_respected cfg) (exec' n)
                  w s r (exec_sat cfg getter cb traverse _ (balanced_respected cfg) n)
                  Hw) as H.
    assert (∀ s2, balanced (pushTarget (TWatcher w) (emit (EvGet w) s)) s2 →
              targetStack (cleanupDeps w (popTarget s2)) = targetStack s ∧
              Dep_target (cleanupDeps w (popTarget s2)) = top (targetStack s)) as Hk.
    { intros s2 [E _].
      destruct (cleanupDeps_frame w (popTarget s2)) as (_ & -> & -> & _).
      simpl in *. by rewrite E, removelast_snoc. }
    destruct (get' (exec' n) w s) as [v s'|e s'|]; simpl; [| |done];
      destruct H as (s2 & H2 & ->); destruct (Hk s2 H2) as [E1 E2];
      (split; [done|]); (split; [done|]); (split; [congruence|]);
      intros Hnil Hnull; by rewrite E2, Hnil, Hnull.
  - unfold get. rewrite Hw. simpl. split; [done|]. split; [|done].
    rewrite Hw. by intros [? ?].
Qed.


End Properties.

(** *** Concrete runs *)

Definition state_of {A} (r : res A) : state :=
  match r with Ok _ s | Exn _ s => s | Fuel => init end.

Lemma sat_state_of {A} (Q : state → state → Prop) s (r : res A) :
  sat Q s r → is_Some (res_state r) → Q s (state_of r).
Proof.
  destruct r; simpl; [done|done|]. intros _ [x Hx]. discriminate Hx.
Qed.

(** Development build, updates not batched. *)
Definition dev : config := {| production := false; async := false |}.

Definition no_cb_script (w : nat) (v old : val) (s : state) : list op := [].
Definition no_traverse (v : val) (s : state) : list nat := [].

(** A getter with a branch: the first evaluation reads the properties
    guarded by Deps 0 and 1, the later ones those of Deps 1 and 2. *)
Definition branch_getter (w : nat) (s : state) : script :=
  match deps <$> watchers s !! w with
  | Some [] => {| body := [ODepend 0; ODepend 1]; ret := VNum 1 |}
  | _ => {| body := [ODepend 1; ODepend 2]; ret := VNum 2 |}
  end.

(** After [new Watcher(vm0, fn, cb)] with that getter. *)
Definition branch_state : state :=
  state_of (exec dev branch_getter no_cb_script no_traverse 2
              [ONew 0 true None false] init).

Lemma branch_state_wf : wf branch_state.
Proof.
  apply (sat_state_of (λ _ s', wf s') init).
  - apply exec_wf, wf_init.
  - vm_compute. by eexists.
Qed.

Lemma get_subscribes_exactly_witness :
  let r := {| vm := 0; noop := false; deep := false; user := false;
              lazy := false; sync := false; dirty := false; active := true;
              deps := [0; 1]; newDeps := []; depIds := list_to_set [0; 1];
              newDepIds := ∅; value := VNum 1 |} in
  let s' := state_of (get branch_getter no_traverse
                        (exec dev branch_getter no_cb_script no_traverse 1)
                        1 branch_state) in
  ∃ r', watchers s' !! 1 = Some r' ∧
        (∀ d, d ∈ deps r' ↔ EvDepend d 1 ∈ [EvDepend 1 1; EvDepend 2 1]) ∧
        depIds r' = list_to_set (deps r') ∧
        newDeps r' = [] ∧
        (∀ d, 1 ∈ subs_of s' d ↔ EvDepend d 1 ∈ [EvDepend 1 1; EvDepend 2 1]) ∧
        (∀ d, d ∈ deps r → EvDepend d 1 ∉ [EvDepend 1 1; EvDepend 2 1] →
              1 ∉ subs_of s' d) ∧
        (∀ d, EvDepend d 1 ∉ [EvDepend 1 1; EvDepend 2 1] →
              1 ∉ snapshot dev s' d).
Proof.
  intros r s'.
  apply (get_subscribes_exactly dev branch_getter no_cb_script no_traverse
           1 1 branch_state r s' [EvDepend 1 1; EvDepend 2 1]).
  - exact branch_state_wf.
  - vm_compute; reflexivity.
  - reflexivity.
  - reflexivity.
  - vm_compute; reflexivity.
  - vm_compute; reflexivity.
  - split; compute_done.
Defined.

(** A synchronous user watcher whose getter reads the properties of Deps 0
    and 1 and then assigns the second one: the assignment changes the
    value the first time (the watcher is re-run from inside its own
    getter) and not the second time. *)
Definition writing_getter (w : nat) (s : state) : script :=
  if decide (length (targetStack s) = 1)
  then {| body := [ODepend 0; ODepend 1; ONotify 1]; ret := VNum 1 |}
  else {| body := [ODepend 0; ODepend 1]; ret := VNum 1 |}.

(** The constructor of that watcher, before its first evaluation. *)
Definition writing_state : state :=
  alloc_Watcher dev 0 true (Some (false, true, false, true)) false init.

Definition writing_done : state :=
  state_of (get writing_getter no_traverse
              (exec dev writing_getter no_cb_script no_traverse 3)
              1 writing_state).

(** C1, counterexample: [get()] of a watcher that is re-entered from its
    own getter completes with [deps] empty and the watcher subscribed to
    nothing, although [depend()] of Deps 0 and 1 fired during the call. *)
Lemma get_reentered_loses_reads :
  get writing_getter no_traverse
    (exec dev writing_getter no_cb_script no_traverse 3) 1 writing_state
  = Ok (VNum 1) writing_done ∧
  log writing_done =
    [EvGet 1; EvDepend 0 1; EvDepend 1 1; EvUpdate 1; EvGet 1;
     EvDepend 0 1; EvDepend 1 1; EvCb 1 (VNum 1) VUndef] ∧
  (deps <$> watchers writing_done !! 1) = Some [] ∧
  subs_of writing_done 0 = [] ∧ subs_of writing_done 1 = [].
Proof. repeat apply conj; vm_compute; reflexivity. Qed.

(** A getter that reads the properties of Deps 0 and 1 every time. *)
Definition reader (w : nat) (s : state) : script :=
  {| body := [ODepend 0; ODepend 1]; ret := VNum 7 |}.

Definition reader_state : state :=
  state_of (exec dev reader no_cb_script no_traverse 2
              [ONew 0 true None false] init).

Definition reader_watcher : Watcher :=
  {| vm := 0; noop := false; deep := false; user := false; lazy := false;
     sync := false; dirty := false; active := true; deps := [0; 1];
     newDeps := []; depIds := list_to_set [0; 1]; newDepIds := ∅;
     value := VNum 7 |}.

Lemma subs_has_no_duplicates_witness :
  NoDup (subs_of reader_state 0) ∧
  subs_of (addDep 1 0 reader_state) 0 = subs_of reader_state 0 ∧
  ∃ s', exec dev reader no_cb_script no_traverse 2
          (replicate 3 (OGet 1)) reader_state = Ok tt s' ∧
        ∀ d, subs_of s' d = subs_of reader_state d.
Proof.
  destruct (subs_has_no_duplicates dev reader no_cb_script no_traverse 2
              [ONew 0 true None false] reader_state) as (H1 & H2 & H3).
  { vm_compute; reflexivity. }
  assert (Hr : watchers reader_state !! 1 = Some reader_watcher)
    by (vm_compute; reflexivity).
  split; [apply H1|]. split.
  - apply (H2 1 reader_watcher 0 0 Hr). right.
    apply (bool_decide_unpack _). vm_compute. exact I.
  - apply (H3 1 reader_watcher [0; 1] (VNum 7) Hr); try reflexivity.
    intros s0 d Hd. by apply elem_of_nil in Hd.
Defined.

(** How many times [w.get()] has been entered. *)
Definition evaluations (w : nat) (s : state) : nat :=
  length (filter (λ e, e = EvGet w) (log s)).

(** A getter that reads nothing the first time and the property of Dep 0
    the second time; from the third time on watcher 1 reads nothing again
    and tears watcher 3 down. *)
Definition late_reader (w : nat) (s : state) : script :=
  if decide (evaluations w s ≤ 1) then {| body := []; ret := VNum 0 |}
  else if decide (evaluations w s = 2) then {| body := [ODepend 0]; ret := VNum 1 |}
  else if decide (w = 1) then {| body := [OTeardown 3]; ret := VNum 2 |}
  else {| body := [ODepend 0]; ret := VNum 2 |}.

(** Three synchronous user watchers, created in the order 1, 2, 3, that
    subscribed to Dep 0 in the order 3, 1, 2. *)
Definition three_watchers : state :=
  state_of (exec dev late_reader no_cb_script no_traverse 2
              [ONew 0 true (Some (false, true, false, true)) false;
               ONew 0 true (Some (false, true, false, true)) false;
               ONew 0 true (Some (false, true, false, true)) false;
               OGet 3; OGet 1; OGet 2] init).

Lemma three_watchers_subs : subs_of three_watchers 0 = [3; 1; 2].
Proof. vm_compute; reflexivity. Qed.

(** The round calls 1, 2 and 3 in that order although the first call
    unsubscribes watcher 1 and tears watcher 3 down. *)
Definition three_notified : state :=
  state_of (notify dev late_reader no_cb_script no_traverse
              (exec dev late_reader no_cb_script no_traverse 3)
              0 three_watchers).

Lemma three_watchers_notified :
  notify dev late_reader no_cb_script no_traverse
    (exec dev late_reader no_cb_script no_traverse 3) 0 three_watchers
  = Ok tt three_notified ∧
  drop (length (log three_watchers)) (log three_notified) =
    [EvUpdate 1; EvGet 1; EvTeardown 3; EvCb 1 (VNum 2) (VNum 0);
     EvUpdate 2; EvGet 2; EvDepend 0 2; EvCb 2 (VNum 2) (VNum 0);
     EvUpdate 3] ∧
  subs_of three_notified 0 = [2].
Proof. repeat apply conj; vm_compute; reflexivity. Qed.

Lemma three_watchers_sorted :
  merge_sort (≤) (subs_of three_watchers 0) = [1; 2; 3].
Proof. vm_compute; reflexivity. Qed.


(** A getter that reads the property of Dep 0 and throws. *)
Definition thrower (w : nat) (s : state) : script :=
  {| body := [ODepend 0; OThrow (UserError 1)]; ret := VNum 0 |}.

(** A lazy user watcher (1) and a lazy watcher that is not a user
    watcher (2), not yet evaluated. *)
Definition lazy_pair : state :=
  state_of (exec dev thrower no_cb_script no_traverse 1
              [ONew 0 true (Some (false, true, true, false)) false;
               ONew 0 true (Some (false, false, true, false)) false] init).

Definition lazy_watcher (user_ : bool) : Watcher :=
  {| vm := 0; noop := false; deep := false; user := user_; lazy := true;
     sync := false; dirty := true; active := true; deps := []; newDeps := [];
     depIds := ∅; newDepIds := ∅; value := VUndef |}.

Definition thrown_in (w : nat) : state :=
  state_of (exec dev thrower no_cb_script no_traverse 1
              (body (thrower w lazy_pair))
              (pushTarget (TWatcher w) (emit (EvGet w) lazy_pair))).


Definition first_get : state :=
  state_of (get reader no_traverse
              (exec dev reader no_cb_script no_traverse 1) 1 lazy_pair).

(** C8, counterexample: the first [get()] of the program is entered with
    [Dep.target === null] and left with [Dep.target === undefined]. *)
Lemma get_turns_null_into_undefined :
  Dep_target lazy_pair = TNull ∧
  get reader no_traverse (exec dev reader no_cb_script no_traverse 1)
    1 lazy_pair = Ok (VNum 7) first_get ∧
  Dep_target first_get = TUndefined ∧
  Dep_target first_get ≠ Dep_target lazy_pair.
Proof.
  split; [vm_compute; reflexivity|]. split; [vm_compute; reflexivity|].
  split; [vm_compute; reflexivity|]. vm_compute. discriminate.
Qed.


(** *** Further properties of dep.js and watcher.js *)

(** X1: [popTarget] undoes [pushTarget]: the stack is restored, [Dep.target]
    becomes the top of the restored stack, and nothing else changes; so the
    state is exactly the one before whenever [Dep.target] was the top of
    the stack.  On the empty stack [popTarget] leaves the stack empty and
    sets [Dep.target] to [undefined]. *)
Theorem popTarget_pushTarget t s :
  Dep_target (pushTarget t s) = t ∧
  top (targetStack (pushTarget t s)) = t ∧
  targetStack (popTarget (pushTarget t s)) = targetStack s ∧
  Dep_target (popTarget (pushTarget t s)) = top (targetStack s) ∧
  (Dep_target s = top (targetStack s) → popTarget (pushTarget t s) = s) ∧
  (targetStack s = [] →
     targetStack (popTarget s) = [] ∧ Dep_target (popTarget s) = TUndefined).
Proof.
  split; [done|]. split.
  { unfold top. simpl. by rewrite last_last. }
  split; [simpl; by rewrite removelast_snoc|].
  split; [simpl; by rewrite removelast_snoc|].
  split.
  - intros Ht. unfold popTarget, pushTarget, set_target. simpl.
    rewrite removelast_snoc. destruct s; simpl in *. unfold top in Ht.
    by rewrite <- Ht.
  - intros Hnil. unfold popTarget. simpl. by rewrite Hnil.
Qed.

(** X2: Recording a Dep twice in one evaluation is recording it once:
    [addDep] is idempotent, and without a current consumer [depend]
    changes nothing. *)
Theorem addDep_idempotent w d s :
  addDep w d (addDep w d s) = addDep w d s ∧
  (consumer (Dep_target s) = None → depend d s = s).
Proof.
  split.
  - destruct (watchers s !! w) as [r|] eqn:Hw.
    + destruct (decide (d ∈ newDepIds r)) as [Hin|Hin].
      * unfold addDep. rewrite Hw, decide_True by done.
        by rewrite Hw, decide_True.
      * pose proof (addDep_lookup w d s r w Hw Hin) as Hl.
        rewrite decide_True in Hl by done.
        unfold addDep at 1. rewrite Hl. simpl.
        rewrite decide_True; [done|]. set_solver.
    + unfold addDep. rewrite Hw. by rewrite Hw.
  - unfold depend. by destruct (Dep_target s).
Qed.

(** X3: [removeSub] takes out one occurrence of the subscriber and nothing
    else; on a Dep that does not list the subscriber it changes no list;
    after [addSub] of a new subscriber it gives the list back. *)
Theorem removeSub_one d w s :
  (w ∉ subs_of s d → ∀ d', subs_of (removeSub d w s) d' = subs_of s d') ∧
  (w ∈ subs_of s d →
     S (length (subs_of (removeSub d w s) d)) = length (subs_of s d)) ∧
  (∀ x, x ≠ w → x ∈ subs_of (removeSub d w s) d ↔ x ∈ subs_of s d) ∧
  (∀ d', d' ≠ d → subs_of (removeSub d w s) d' = subs_of s d') ∧
  (w ∉ subs_of s d →
     subs_of (removeSub d w (addSub d w s)) d = subs_of s d).
Proof.
  assert (Hlen : ∀ l, w ∈ l → S (length (remove w l)) = length l).
  { induction l as [|y l IH]; simpl; [by intros ?%elem_of_nil|].
    case_decide; [done|]. intros [?|Hin]%elem_of_cons; [congruence|].
    simpl. by rewrite IH. }
  assert (Happ : ∀ l, w ∉ l → remove w (l ++ [w]) = l).
  { induction l as [|y l IH]; simpl; [by rewrite decide_True|].
    intros [? ?]%not_elem_of_cons. rewrite decide_False by done.
    by rewrite IH. }
  split; [|split; [|split; [|split]]].
  - intros Hn d'. rewrite subs_of_removeSub. case_decide; subst; [|done].
    by apply remove_notin.
  - intros Hin. rewrite subs_of_removeSub, decide_True by done. by apply Hlen.
  - intros x Hx. rewrite subs_of_removeSub, decide_True by done.
    by apply elem_of_remove_ne.
  - intros d' Hd. by rewrite subs_of_removeSub, decide_False.
  - intros Hn. rewrite subs_of_removeSub, decide_True by done.
    rewrite subs_of_addSub, decide_True by done. by apply Happ.
Qed.

(** *** What no call changes *)

(** What a watcher is built with. *)
Definition options (r : Watcher) : nat * bool * bool * bool * bool * bool :=
  (vm r, noop r, deep r, user r, lazy r, sync r).

(** Every watcher of [s] is a watcher of [s'], built with the same
    options, and [uid] has not decreased. *)
Definition persists (s s' : state) : Prop :=
  uid s ≤ uid s' ∧
  ∀ w r, watchers s !! w = Some r →
    ∃ r', watchers s' !! w = Some r' ∧ options r' = options r.

Lemma persists_refl s : persists s s.
Proof. split; [done|]. intros w r Hw. by exists r. Qed.

Lemma persists_trans s1 s2 s3 : persists s1 s2 → persists s2 s3 → persists s1 s3.
Proof.
  intros [U1 H1] [U2 H2]. split; [lia|]. intros w r Hw.
  destruct (H1 w r Hw) as (r2 & Hr2 & E2).
  destruct (H2 w r2 Hr2) as (r3 & Hr3 & E3).
  exists r3. split; [done|congruence].
Qed.

Lemma persists_same s s' :
  uid s ≤ uid s' → (∀ w, watchers s' !! w = watchers s !! w) → persists s s'.
Proof. intros U H. split; [done|]. intros w r Hw. exists r. by rewrite H. Qed.

Lemma persists_set_watcher w f s :
  (∀ r, options (f r) = options r) → persists s (set_watcher w f s).
Proof.
  intros Hf. split.
  { by destruct (set_watcher_frame w f s) as (_ & _ & _ & _ & -> & _). }
  intros w' r Hw. rewrite set_watcher_lookup. case_decide; subst.
  - rewrite Hw. simpl. eexists; split; [done|apply Hf].
  - by exists r.
Qed.

Lemma persists_addDep w d s : persists s (addDep w d s).
Proof.
  split. { by destruct (addDep_frame w d s) as (_ & _ & _ & -> & _). }
  intros w' r' Hw'. destruct (watchers s !! w) as [r|] eqn:Hw.
  - destruct (decide (d ∈ newDepIds r)) as [Hin|Hin].
    + exists r'. unfold addDep. by rewrite Hw, decide_True.
    + rewrite (addDep_lookup w d s r) by done. case_decide; subst.
      * eexists; split; [done|]. by simplify_eq.
      * by exists r'.
  - exists r'. unfold addDep. by rewrite Hw.
Qed.

Lemma persists_depend d s : persists s (depend d s).
Proof.
  unfold depend. destruct (Dep_target s); try apply persists_refl.
  apply (persists_trans _ (emit (EvDepend d w) s)); [|apply persists_addDep].
  by apply persists_same.
Qed.

Lemma persists_cleanupDeps w s : persists s (cleanupDeps w s).
Proof.
  split. { by destruct (cleanupDeps_frame w s) as (_ & _ & _ & -> & _). }
  intros w' r' Hw'. destruct (watchers s !! w) as [r|] eqn:Hw.
  - rewrite (cleanupDeps_lookup w s r) by done. case_decide; subst.
    + eexists; split; [done|]. by simplify_eq.
    + by exists r'.
  - exists r'. unfold cleanupDeps. by rewrite Hw.
Qed.

Lemma persists_teardown w s : persists s (teardown w s).
Proof.
  split. { by destruct (teardown_frame w s) as (_ & _ & -> & _). }
  intros w' r' Hw'. destruct (decide (w = w')) as [<-|Hne].
  - destruct (active r') eqn:Ha.
    + rewrite (teardown_active w s r') by done.
      rewrite set_watcher_lookup, decide_True by done.
      match goal with |- context [unsub_loop w ?f ?ds ?s0] =>
        destruct (unsub_loop_frame w f ds s0) as (-> & _) end.
      assert (watchers (leave_vm w r' (emit (EvTeardown w) s)) = watchers s) as ->.
      { unfold leave_vm. by destruct (_isBeingDestroyed _). }
      rewrite Hw'. by eexists.
    + rewrite (teardown_inactive w s r') by done. by exists r'.
  - exists r'. by rewrite teardown_other.
Qed.

Lemma persists_respected cfg : respects_wf cfg persists.
Proof.
  split.
  - intros s _. apply persists_refl.
  - intros s1 s2 s3 _ _ _. apply persists_trans.
  - intros d s _. apply persists_depend.
  - intros e s _. destruct e; try done; by apply persists_same.
  - intros w f s _ [[v ->]|[b ->]]; by apply persists_set_watcher.
  - intros w s _. apply persists_teardown.
  - intros v fn opts isR s Hwf. split.
    { destruct (alloc_Watcher_frame cfg v fn opts isR s) as (_ & _ & _ & -> & _).
      lia. }
    intros w r Hw. exists r. split; [|done].
    rewrite alloc_Watcher_other; [done|]. by eapply wf_uid.
  - intros w s s2 _ _ _ H.
    apply (persists_trans _ (pushTarget (TWatcher w) (emit (EvGet w) s)));
      [by apply persists_same|].
    apply (persists_trans _ s2); [done|].
    apply (persists_trans _ (popTarget s2)); [by apply persists_same|].
    apply persists_cleanupDeps.
  - intros w r s s1 v old _ _ _ _ H.
    apply (persists_trans _ s1); [done|].
    apply (persists_trans _ (set_watcher w (with_value v) s1));
      [by apply persists_set_watcher|by apply persists_same].
Qed.

(** No watcher lists a Dep twice in a generation. *)
Definition deps_nodup (s : state) : Prop :=
  ∀ w r, watchers s !! w = Some r → NoDup (deps r) ∧ NoDup (newDeps r).

Lemma deps_nodup_ext s s' :
  (∀ w, watchers s' !! w = watchers s !! w) → deps_nodup s → deps_nodup s'.
Proof. intros E H w r Hw. rewrite E in Hw. by apply (H w r). Qed.

Lemma deps_nodup_set_watcher w f s :
  (∀ r, deps (f r) = deps r ∧ newDeps (f r) = newDeps r) →
  deps_nodup s → deps_nodup (set_watcher w f s).
Proof.
  intros Hf H w' r'. rewrite set_watcher_lookup. case_decide; subst.
  - destruct (watchers s !! w') as [r|] eqn:Hw; [|done]. simpl.
    intros [= <-]. destruct (Hf r) as [-> ->]. by apply (H w' r).
  - apply H.
Qed.

Lemma deps_nodup_depend d s : wf s → deps_nodup s → deps_nodup (depend d s).
Proof.
  intros Hwf H. unfold depend. destruct (Dep_target s) as [| |w]; try done.
  assert (deps_nodup (emit (EvDepend d w) s)) as H' by done.
  destruct (watchers s !! w) as [r|] eqn:Hw.
  - destruct (decide (d ∈ newDepIds r)) as [Hin|Hin].
    + unfold addDep. simpl. by rewrite Hw, decide_True.
    + intros w' r'. rewrite (addDep_lookup w d _ r) by done.
      case_decide; subst; [|apply H].
      intros [= <-]. simpl. destruct (H w' r Hw) as [N1 N2].
      split; [done|]. apply NoDup_app. split; [done|].
      split; [|apply NoDup_singleton].
      intros x Hx ->%list_elem_of_singleton. apply Hin.
      destruct (wf_ids s Hwf w' r Hw) as [_ ->]. by apply elem_of_list_to_set.
  - unfold addDep. simpl. by rewrite Hw.
Qed.

Lemma deps_nodup_respected cfg :
  respects_wf cfg (λ s s', deps_nodup s → deps_nodup s').
Proof.
  split.
  - done.
  - intros s1 s2 s3 _ _ _ H12 H23 H. auto.
  - intros d s Hwf. by apply deps_nodup_depend.
  - intros e s _. destruct e; done.
  - intros w f s _ [[v ->]|[b ->]]; by apply deps_nodup_set_watcher.
  - intros w s _ H w' r'. destruct (decide (w = w')) as [<-|Hne].
    + destruct (watchers s !! w) as [r|] eqn:Hw.
      * destruct (active r) eqn:Ha.
        -- rewrite (teardown_active w s r) by done.
           rewrite set_watcher_lookup, decide_True by done.
           match goal with |- context [unsub_loop w ?f ?ds ?s0] =>
             destruct (unsub_loop_frame w f ds s0) as (-> & _) end.
           assert (watchers (leave_vm w r (emit (EvTeardown w) s)) = watchers s) as ->.
           { unfold leave_vm. by destruct (_isBeingDestroyed _). }
           rewrite Hw. simpl. intros [= <-]. by apply (H w r).
        -- rewrite (teardown_inactive w s r) by done. apply H.
      * unfold teardown. simpl. rewrite Hw. apply H.
    + rewrite teardown_other by done. apply H.
  - intros v fn opts isR s Hwf H w r.
    destruct (decide (w ≤ uid s)) as [Hle|Hgt].
    + rewrite alloc_Watcher_other by done. apply H.
    + unfold alloc_Watcher.
      destruct (opt_flags opts) as [[[deep_ user_] lazy_] sync_].
      destruct (negb fn && negb (production cfg)); simpl;
        (destruct (decide (w = S (uid s))) as [->|Hne];
         [rewrite lookup_insert_eq; intros [= <-]; simpl; split; apply NoDup_nil_2
         |rewrite lookup_insert_ne by done; apply H]).
  - intros w s s2 _ _ _ H12 H.
    assert (deps_nodup s2) as H2 by (apply H12; done).
    intros w' r'. destruct (watchers s2 !! w) as [r|] eqn:Hw.
    + rewrite (cleanupDeps_lookup w _ r) by done. case_decide; subst.
      * intros [= <-]. simpl. split; [by apply (H2 w' r)|apply NoDup_nil_2].
      * apply H2.
    + unfold cleanupDeps. simpl. rewrite Hw. apply H2.
  - intros w r s s1 v old _ _ _ _ H1 H.
    assert (deps_nodup (set_watcher w (with_value v) s1)) as H2
      by (apply deps_nodup_set_watcher; auto).
    done.
Qed.

(** *** [depend()] of a watcher *)

Lemma depend_subs_other d s d' : d' ≠ d → subs_of (depend d s) d' = subs_of s d'.
Proof.
  intros Hne. unfold depend. destruct (Dep_target s) as [| |w]; try done.
  destruct (watchers s !! w) as [r|] eqn:Hw.
  - destruct (decide (d ∈ newDepIds r)) as [Hin|Hin].
    + unfold addDep. simpl. by rewrite Hw, decide_True.
    + rewrite (addDep_subs w d _ r) by done.
      rewrite decide_False; [done|]. intros [_ ->]. done.
  - unfold addDep. simpl. by rewrite Hw.
Qed.

Lemma depend_other d s c x :
  Dep_target s = TWatcher c → x ≠ c →
  watchers (depend d s) !! x = watchers s !! x.
Proof.
  intros Ht Hne. unfold depend. rewrite Ht.
  destruct (watchers s !! c) as [r|] eqn:Hw.
  - destruct (decide (d ∈ newDepIds r)) as [Hin|Hin].
    + unfold addDep. simpl. by rewrite Hw, decide_True.
    + rewrite (addDep_lookup c d _ r) by done. by rewrite decide_False.
  - unfold addDep. simpl. by rewrite Hw.
Qed.

Lemma depend_all_idle ds s :
  consumer (Dep_target s) = None → depend_all ds s = s.
Proof.
  intros Hc. unfold depend_all. induction ds as [|d ds IH]; simpl; [done|].
  assert (depend d s = s) as ->; [|done].
  unfold depend. by destruct (Dep_target s).
Qed.

Lemma depend_all_consumer ds c s rc :
  wf s → Dep_target s = TWatcher c → watchers s !! c = Some rc →
  wf (depend_all ds s) ∧
  log (depend_all ds s) = log s ++ map (λ d, EvDepend d c) ds ∧
  (∃ rc', watchers (depend_all ds s) !! c = Some rc' ∧
          deps rc' = deps rc ∧ depIds rc' = depIds rc ∧
          active rc' = active rc ∧
          newDepIds rc' = newDepIds rc ∪ list_to_set ds) ∧
  (∀ x, x ≠ c → watchers (depend_all ds s) !! x = watchers s !! x) ∧
  (∀ d, d ∉ ds → subs_of (depend_all ds s) d = subs_of s d).
Proof.
  unfold depend_all. revert s rc.
  induction ds as [|d ds IH]; intros s rc Hwf Ht Hc; simpl.
  { rewrite app_nil_r. split; [done|]. split; [done|].
    split; [|done]. exists rc. repeat split; try done. set_solver. }
  destruct (depend_watcher d s c rc Hc) as (r1 & Hr1 & D1 & I1 & A1 & N1).
  rewrite decide_True in N1 by done.
  assert (Dep_target (depend d s) = TWatcher c) as Ht1.
  { by destruct (depend_frame d s) as (-> & _). }
  destruct (IH (depend d s) r1 (wf_depend d s Hwf) Ht1 Hr1)
    as (W & L & (r2 & Hr2 & D2 & I2 & A2 & N2) & O & S).
  split; [done|]. split.
  { rewrite L, depend_log, Ht. by rewrite <- (assoc_L _). }
  split.
  { exists r2. split; [done|]. rewrite D2, I2, A2, N2, D1, I1, A1, N1.
    repeat split; try done. set_solver. }
  split.
  - intros x Hx. rewrite O by done. by apply (depend_other d s c).
  - intros d' [Hne Hd']%not_elem_of_cons. rewrite S by done.
    by apply depend_subs_other.
Qed.

(** [targetStack] is as it was; [Dep.target] is as it was or has been
    reset to the top of the stack, so it is as it was whenever it was the
    top of the stack. *)
Definition stack_kept (s s' : state) : Prop :=
  targetStack s' = targetStack s ∧
  (Dep_target s' = Dep_target s ∨ Dep_target s' = top (targetStack s)) ∧
  (Dep_target s = top (targetStack s) → Dep_target s' = Dep_target s).

Section More.

Context (cfg : config) (getter : nat → state → script)
        (cb : nat → val → val → state → list op)
        (traverse : val → state → list nat).

#[local] Abbreviation exec' := (exec cfg getter cb traverse).
#[local] Abbreviation get' := (get getter traverse).
#[local] Abbreviation run' := (run getter cb traverse).
#[local] Abbreviation update' := (update getter cb traverse).
#[local] Abbreviation notify' := (notify cfg getter cb traverse).

(** A subscriber whose [update()] runs no user code: it is lazy, or it is
    not synchronous. *)
Definition passive (s : state) (x : nat) : Prop :=
  ∃ r, watchers s !! x = Some r ∧ (lazy r = true ∨ sync r = false).

(** The events of [update()] on such a subscriber. *)
Definition passive_events (s : state) (xs : list nat) : list event :=
  xs ≫= λ x, EvUpdate x ::
    match lazy <$> watchers s !! x with
    | Some false => [EvQueue x]
    | _ => []
    end.

Definition flags (s : state) (x : nat) : option (bool * bool) :=
  (λ r, (lazy r, sync r)) <$> watchers s !! x.

Lemma each_update_passive ex xs s0 s :
  (∀ x, flags s x = flags s0 x) → Forall (passive s0) xs →
  ∃ s', each (update' ex) xs s = Ok tt s' ∧
        log s' = log s ++ passive_events s0 xs ∧
        subs s' = subs s ∧ vms s' = vms s ∧ uid s' = uid s ∧
        Dep_target s' = Dep_target s ∧ targetStack s' = targetStack s ∧
        (∀ x, flags s' x = flags s0 x) ∧
        (∀ x r, x ∈ xs → watchers s0 !! x = Some r → lazy r = true →
                dirty <$> watchers s' !! x = Some true) ∧
        (∀ x, dirty <$> watchers s !! x = Some true →
              dirty <$> watchers s' !! x = Some true) ∧
        (∀ x, x ∉ xs → watchers s' !! x = watchers s !! x).
Proof.
  revert s. induction xs as [|x xs IH]; intros s Hfl Hxs.
  { exists s. simpl. rewrite app_nil_r. repeat split; try done.
    intros x r Hx. by apply elem_of_nil in Hx. }
  cbn [each].
  apply Forall_cons in Hxs as [(r0 & Hr0 & Hp) Hxs].
  assert (∃ r, watchers s !! x = Some r ∧ lazy r = lazy r0 ∧ sync r = sync r0)
    as (r & Hr & Hl & Hs).
  { specialize (Hfl x). unfold flags in Hfl. rewrite Hr0 in Hfl.
    destruct (watchers s !! x) as [r|]; simpl in Hfl; [|done].
    exists r. by simplify_eq. }
  assert (Hev : passive_events s0 (x :: xs) =
                (if lazy r then [EvUpdate x] else [EvUpdate x; EvQueue x]) ++
                passive_events s0 xs).
  { unfold passive_events. simpl. rewrite Hr0. simpl. rewrite <- Hl.
    by destruct (lazy r). }
  rewrite Hev. clear Hev.
  unfold update at 1. simpl. rewrite Hr.
  destruct (lazy r) eqn:Hlazy.
  - set (s1 := set_watcher x (with_dirty true) (emit (EvUpdate x) s)).
    assert (Hlk : ∀ y, watchers s1 !! y =
              if decide (x = y) then Some (with_dirty true r)
              else watchers s !! y).
    { intros y. unfold s1. rewrite set_watcher_lookup. simpl.
      case_decide; subst; [by rewrite Hr|done]. }
    destruct (set_watcher_frame x (with_dirty true) (emit (EvUpdate x) s))
      as (E1 & E2 & E3 & E4 & E5 & E6). fold s1 in E1, E2, E3, E4, E5, E6.
    destruct (IH s1) as (s' & G & L & S' & V & U & T & K & F & D1 & D2 & O);
      [|done|].
    { intros y. rewrite <- Hfl. unfold flags. rewrite Hlk.
      case_decide; subst; [by rewrite Hr|done]. }
    exists s'. split; [done|]. rewrite L, S', V, U, T, K, E1, E2, E3, E4, E5, E6.
    simpl. rewrite <- (assoc_L _). simpl.
    split; [done|]. split; [done|]. split; [done|]. split; [done|].
    split; [done|]. split; [done|]. split; [done|].
    split; [|split].
    + intros y ry [->|Hy]%elem_of_cons Hry Hly; [|by eapply D1].
      apply D2. by rewrite Hlk, decide_True.
    + intros y Hy. apply D2. rewrite Hlk. case_decide; subst; [done|done].
    + intros y [Hne Hy]%not_elem_of_cons. rewrite (O y Hy), Hlk.
      by rewrite decide_False.
  - assert (sync r = false) as Hsync.
    { destruct Hp as [Hp|Hp]; [congruence|congruence]. }
    rewrite Hsync.
    destruct (IH (queueWatcher x (emit (EvUpdate x) s)))
      as (s' & G & L & S' & V & U & T & K & F & D1 & D2 & O); [done|done|].
    exists s'. split; [done|]. rewrite L, S', V, U, T, K.
    simpl. rewrite <- !(assoc_L _). simpl.
    split; [done|]. split; [done|]. split; [done|]. split; [done|].
    split; [done|]. split; [done|]. split; [done|].
    split; [|split].
    + intros y ry [->|Hy]%elem_of_cons Hry Hly; [congruence|by eapply D1].
    + intros y Hy. by apply D2.
    + intros y [Hne Hy]%not_elem_of_cons. by rewrite (O y Hy).
Qed.

(** X4: [notify()] on a Dep whose subscribers are lazy or deferred watchers
    returns, walks them in the order of the snapshot, marks every lazy one
    dirty and hands every other one to the scheduler; it evaluates no
    getter, calls no callback, and leaves every [subs] list, every other
    watcher and the target stack as they were. *)
Theorem notify_passive ex d s :
  Forall (passive s) (subs_of s d) →
  ∃ s', notify' ex d s = Ok tt s' ∧
        log s' = log s ++ passive_events s (snapshot cfg s d) ∧
        subs s' = subs s ∧
        Dep_target s' = Dep_target s ∧ targetStack s' = targetStack s ∧
        (∀ x r, x ∈ subs_of s d → watchers s !! x = Some r → lazy r = true →
                dirty <$> watchers s' !! x = Some true) ∧
        (∀ x, x ∉ subs_of s d → watchers s' !! x = watchers s !! x).
Proof.
  intros Hp. unfold notify. rewrite for_each_each.
  destruct (each_update_passive ex (snapshot cfg s d) s s)
    as (s' & G & L & S' & V & U & T & K & F & D1 & D2 & O); [done| |].
  { apply Forall_forall. intros x Hx%elem_of_snapshot.
    by eapply Forall_forall in Hp. }
  exists s'. repeat split; try done.
  - intros x r Hx. eapply D1. by apply elem_of_snapshot.
  - intros x Hx. apply O. by rewrite elem_of_snapshot.
Qed.

(** [a === b] holds exactly for equal values other than [NaN]. *)
Lemma strict_eq_spec a b : strict_eq a b = true ↔ a = b ∧ a ≠ VNaN.
Proof.
  unfold strict_eq. destruct a, b; simpl;
    rewrite ?bool_decide_eq_true; naive_solver.
Qed.

(** X5: When [get()] returned [v], [run()] of an active watcher calls the
    callback exactly when [v] differs from the cached value, is [NaN], is
    an object, or the watcher is deep; it passes the new and the old
    value and has stored the new one before.  An exception of the
    callback goes to the error handler for a user watcher and to the
    caller otherwise.  When none of the four holds [run()] changes
    nothing after [get()]. *)
Theorem run_calls_back ex w s r v s1 r1 :
  watchers s !! w = Some r → active r = true →
  get' ex w s = Ok v s1 → watchers s1 !! w = Some r1 →
  (v = value r1 ∧ v ≠ VNaN ∧ isObject v = false ∧ deep r1 = false →
     run' ex w s = Ok tt s1) ∧
  (v ≠ value r1 ∨ v = VNaN ∨ isObject v = true ∨ deep r1 = true →
     watchers (emit (EvCb w v (value r1)) (set_watcher w (with_value v) s1)) !! w
       = Some (with_value v r1) ∧
     run' ex w s =
       match ex (cb w v (value r1)
                   (emit (EvCb w v (value r1)) (set_watcher w (with_value v) s1)))
                (emit (EvCb w v (value r1)) (set_watcher w (with_value v) s1)) with
       | Ok _ s3 => Ok tt s3
       | Exn e s3 =>
         if user r1 then Ok tt (handleError e (vm r1) w false s3) else Exn e s3
       | Fuel => Fuel
       end).
Proof.
  intros Hw Ha Hg Hw1.
  assert (Hc : negb (strict_eq v (value r1)) || isObject v || deep r1 = false ↔
               v = value r1 ∧ v ≠ VNaN ∧ isObject v = false ∧ deep r1 = false).
  { rewrite !orb_false_iff, negb_false_iff, strict_eq_spec. tauto. }
  split.
  - intros H. apply Hc in H. unfold run. by rewrite Hw, Ha, Hg, Hw1, H.
  - intros H.
    assert (negb (strict_eq v (value r1)) || isObject v || deep r1 = true) as Ht.
    { apply not_false_iff_true. intros E. apply Hc in E.
      destruct E as (E1 & E2 & E3 & E4).
      destruct H as [H|[H|[H|H]]]; congruence. }
    split.
    + change (watchers (emit ?e ?s0)) with (watchers s0).
      by rewrite set_watcher_lookup, decide_True, Hw1.
    + unfold run. rewrite Hw, Ha, Hg, Hw1, Ht.
      by destruct (ex _ _) as [[] ?| |].
Qed.

(** X6: However the getters and callbacks nest, [notify()], [update()],
    [run()], [evaluate()], [new Watcher(..)] and any block of user code
    leave [targetStack] as they found it, on return and on exception, and
    [Dep.target] as they found it or reset to the top of that stack; so
    [Dep.target] is unchanged whenever it was the top of the stack. *)
Theorem calls_keep_target_stack n s :
  (∀ d, sat stack_kept s (notify' (exec' n) d s)) ∧
  (∀ w, sat stack_kept s (update' (exec' n) w s)) ∧
  (∀ w, sat stack_kept s (run' (exec' n) w s)) ∧
  (∀ w, sat stack_kept s (evaluate getter traverse (exec' n) w s)) ∧
  (∀ v fn opts isR,
     sat stack_kept s (new_Watcher cfg getter traverse (exec' n) v fn opts isR s)) ∧
  (∀ ops, sat stack_kept s (exec' n ops s)).
Proof.
  assert (Hok : ∀ A (r : res A), sat balanced s r → sat stack_kept s r).
  { intros A [a s'|e s'|]; simpl; [| |done];
      intros [E H]; (split; [done|]); (split; [done|]);
      intros Ht; destruct H as [H|H]; congruence. }
  pose proof (balanced_respected cfg) as HB.
  pose proof (exec_sat cfg getter cb traverse _ HB n) as Hex.
  split; [|split; [|split; [|split; [|split]]]]; intros; apply Hok.
  - by apply notify_sat.
  - by apply update_sat with (cfg := cfg).
  - by apply run_sat with (cfg := cfg).
  - by apply evaluate_sat with (cfg := cfg).
  - by apply new_Watcher_sat.
  - apply Hex.
Qed.

Lemma sat_under_wf {A} (P : state → state → Prop) s (r : res A) :
  wf s → sat (under_wf P) s r → sat (λ s s', wf s' ∧ P s s') s r.
Proof. intros Hwf. destruct r; simpl; auto. Qed.

Lemma sat_and {A} (P Q : state → state → Prop) s (r : res A) :
  sat P s r → sat Q s r → sat (λ s s', P s s' ∧ Q s s') s r.
Proof. destruct r; simpl; auto. Qed.

Lemma sat_impl {A} (P Q : state → state → Prop) s (r : res A) :
  (∀ s', P s s' → Q s s') → sat P s r → sat Q s r.
Proof. destruct r; simpl; auto. Qed.

(** X7: In every state the program reaches, by return or by exception: the
    id sets of a watcher hold the ids of its two arrays of Deps, neither
    array lists a Dep twice, and watcher ids are at most [uid]; every
    subscriber of a Dep is a watcher that has the Dep in [deps] or
    [newDeps]; an active watcher is subscribed to every Dep of its two
    arrays; and [vm._watchers] lists no watcher twice. *)
Theorem reachable_graph_consistent n ops :
  sat (λ _ s,
         (∀ w r, watchers s !! w = Some r →
            depIds r = list_to_set (deps r) ∧
            newDepIds r = list_to_set (newDeps r) ∧
            NoDup (deps r) ∧ NoDup (newDeps r) ∧ w ≤ uid s) ∧
         (∀ d w, w ∈ subs_of s d →
            ∃ r, watchers s !! w = Some r ∧ (d ∈ deps r ∨ d ∈ newDeps r)) ∧
         (∀ w r d, watchers s !! w = Some r → active r = true →
            d ∈ deps r ∨ d ∈ newDeps r → w ∈ subs_of s d) ∧
         (∀ v, NoDup (_watchers (vm_of s v))))
      init (exec' n ops init).
Proof.
  pose proof (exec_sat cfg getter cb traverse _
                (respects_under_wf cfg _ (deps_nodup_respected cfg)) n ops init) as H.
  apply (sat_under_wf (λ s s', deps_nodup s → deps_nodup s') _ _ wf_init) in H.
  revert H. apply sat_impl. intros s [Hwf Hnd].
  assert (deps_nodup s) as Hn.
  { apply Hnd. intros w r Hw. simpl in Hw. by rewrite lookup_empty in Hw. }
  split; [|split; [|split]].
  - intros w r Hw. destruct (wf_ids s Hwf w r Hw) as [E1 E2].
    destruct (Hn w r Hw) as [N1 N2].
    repeat split; try done. by eapply wf_uid.
  - intros d w Hin. destruct (wf_subs s Hwf d w Hin) as (r & Hw & Hd).
    exists r. split; [done|]. destruct (wf_ids s Hwf w r Hw) as [E1 E2].
    rewrite E1, E2 in Hd. by rewrite !elem_of_list_to_set in Hd.
  - intros w r d Hw Ha Hd. apply (wf_active s Hwf w r d Hw Ha).
    destruct (wf_ids s Hwf w r Hw) as [-> ->].
    by rewrite !elem_of_list_to_set.
  - apply Hwf.
Qed.

(** X8: No call removes a watcher or changes what it was built with, and
    [uid] never decreases: after any block of user code, on return or on
    exception, every watcher of before is still there with its [vm] and
    its options.  The constructor registers the new watcher under the id
    [uid + 1], which no watcher had, with the options it was given, and
    the watcher is still registered when the constructor is left. *)
Theorem watchers_persist n s :
  wf s →
  (∀ ops, sat persists s (exec' n ops s)) ∧
  (∀ d, sat persists s (notify' (exec' n) d s)) ∧
  (∀ v fn opts isR,
     watchers s !! S (uid s) = None ∧
     sat (λ s s', persists s s' ∧ S (uid s) ≤ uid s' ∧
                  ∃ r', watchers s' !! S (uid s) = Some r' ∧
                        options r' =
                          (v, negb fn, (opt_flags opts).1.1.1,
                           (opt_flags opts).1.1.2, (opt_flags opts).1.2,
                           (opt_flags opts).2))
         s (new_Watcher cfg getter traverse (exec' n) v fn opts isR s)).
Proof.
  intros Hwf.
  pose proof (respects_under_wf cfg _ (persists_respected cfg)) as HR.
  pose proof (exec_sat cfg getter cb traverse _ HR n) as Hex.
  split; [|split].
  - intros ops.
    apply (sat_impl (λ s s', wf s' ∧ persists s s')); [by intros s' [_ ?]|].
    apply (sat_under_wf persists _ _ Hwf), Hex.
  - intros d.
    apply (sat_impl (λ s s', wf s' ∧ persists s s')); [by intros s' [_ ?]|].
    apply (sat_under_wf persists _ _ Hwf).
    apply (notify_sat cfg getter cb traverse _ HR), Hex.
  - intros v fn opts isR.
    assert (watchers s !! S (uid s) = None) as Hnew.
    { destruct (watchers s !! S (uid s)) as [r|] eqn:E; [|done].
      pose proof (wf_uid s Hwf _ _ E). lia. }
    split; [done|].
    set (s2 := alloc_Watcher cfg v fn opts isR s).
    assert (wf s2) as Hwf2 by by apply wf_alloc_Watcher.
    assert (persists s s2) as P2 by by apply (rw_alloc cfg _ (persists_respected cfg)).
    assert (uid s2 = S (uid s)) as U2.
    { unfold s2. by destruct (alloc_Watcher_frame cfg v fn opts isR s) as (_ & _ & _ & -> & _). }
    assert (∃ r2, watchers s2 !! S (uid s) = Some r2 ∧
                  options r2 = (v, negb fn, (opt_flags opts).1.1.1,
                                (opt_flags opts).1.1.2, (opt_flags opts).1.2,
                                (opt_flags opts).2)) as (r2 & Hr2 & O2).
    { unfold s2, alloc_Watcher.
      destruct (opt_flags opts) as [[[deep_ user_] lazy_] sync_].
      destruct (negb fn && negb (production cfg)); simpl;
        rewrite lookup_insert_eq; by eexists. }
    assert (Hfin : ∀ s3, persists s2 s3 →
              persists s s3 ∧ S (uid s) ≤ uid s3 ∧
              ∃ r', watchers s3 !! S (uid s) = Some r' ∧
                    options r' = (v, negb fn, (opt_flags opts).1.1.1,
                                  (opt_flags opts).1.1.2, (opt_flags opts).1.2,
                                  (opt_flags opts).2)).
    { intros s3 P3. split; [by eapply persists_trans|].
      split; [destruct P3 as [U3 _]; lia|].
      destruct P3 as [_ P3]. destruct (P3 _ _ Hr2) as (r3 & Hr3 & O3).
      exists r3. split; [done|congruence]. }
    unfold new_Watcher. fold s2.
    destruct ((opt_flags opts).1.2); [apply Hfin, persists_refl|].
    pose proof (get_sat cfg getter traverse _ HR (exec' n) (S (uid s)) s2 Hex) as Hg.
    apply (sat_under_wf persists _ _ Hwf2) in Hg.
    destruct (get' (exec' n) (S (uid s)) s2) as [val s3|e s3|];
      [|apply Hfin; by destruct Hg|done].
    apply Hfin. apply (persists_trans _ s3); [by destruct Hg|].
    by apply persists_set_watcher.
Qed.

(** The watcher [alloc_Watcher] registers. *)
Definition fresh_Watcher (v : nat) (fn deep_ user_ lazy_ sync_ : bool)
    : Watcher :=
  {| vm := v; noop := negb fn; deep := deep_; user := user_; lazy := lazy_;
     sync := sync_; dirty := lazy_; active := true; deps := []; newDeps := [];
     depIds := ∅; newDepIds := ∅; value := VUndef |}.

(** What the constructor has done in [s'] when it was entered in [s] and
    ran no user code: the watcher [r] is registered under the next id and
    appended to [vm._watchers], the events [tr] were logged, and no other
    watcher, no [subs] list and no stack entry changed. *)
Definition registered (s : state) (v : nat) (isR : bool) (s' : state)
    (r : Watcher) (tr : list event) : Prop :=
  uid s' = S (uid s) ∧ watchers s' !! S (uid s) = Some r ∧
  (∀ w, w ≠ S (uid s) → watchers s' !! w = watchers s !! w) ∧
  _watchers (vm_of s' v) = _watchers (vm_of s v) ++ [S (uid s)] ∧
  _watcher (vm_of s' v) =
    (if isR then Some (S (uid s)) else _watcher (vm_of s v)) ∧
  subs s' = subs s ∧ targetStack s' = targetStack s ∧
  log s' = log s ++ tr.

(** X9: [new Watcher(..)] runs no user code and does not throw when the
    watcher is lazy, and when the path did not parse (and the watcher is
    not deep): the watcher is registered under the next id with no value
    and no Deps, and appended to [vm._watchers]; no [subs] list and no
    other watcher changes.  The lazy watcher is dirty and is not
    evaluated; for the path that did not parse [get()] is entered and
    leaves [Dep.target] at the top of the stack, and the development
    build warns. *)
Theorem new_Watcher_without_getter n v isR s :
  (∀ fn deep_ user_ sync_,
     ∃ s', new_Watcher cfg getter traverse (exec' n) v fn
             (Some (deep_, user_, true, sync_)) isR s = Ok tt s' ∧
           registered s v isR s' (fresh_Watcher v fn deep_ user_ true sync_)
             (if negb fn && negb (production cfg) then [EvWarn (S (uid s))]
              else []) ∧
           Dep_target s' = Dep_target s) ∧
  (∀ user_ sync_,
     ∃ s', new_Watcher cfg getter traverse (exec' n) v false
             (Some (false, user_, false, sync_)) isR s = Ok tt s' ∧
           registered s v isR s' (fresh_Watcher v false false user_ false sync_)
             ((if production cfg then [] else [EvWarn (S (uid s))]) ++
              [EvGet (S (uid s))]) ∧
           Dep_target s' = top (targetStack s)).
Proof.
  split.
  - intros fn deep_ user_ sync_.
    unfold new_Watcher. simpl. eexists. split; [done|].
    unfold registered, alloc_Watcher, fresh_Watcher. simpl.
    destruct (negb fn && negb (production cfg)); simpl; rewrite ?app_nil_r.
    all: unfold vm_of; simpl; rewrite !lookup_insert_eq; simpl.
    all: repeat split; try done.
    all: intros w Hw; by rewrite lookup_insert_ne.
  - intros user_ sync_.
    set (s2 := alloc_Watcher cfg v false (Some (false, user_, false, sync_)) isR s).
    assert (H2 : watchers s2 !! (S (uid s)) =
                 Some (fresh_Watcher v false false user_ false sync_)).
    { unfold s2, alloc_Watcher. simpl.
      destruct (production cfg); simpl; by rewrite lookup_insert_eq. }
    assert (F2 : uid s2 = (S (uid s)) ∧
                 (∀ w, w ≠ (S (uid s)) → watchers s2 !! w = watchers s !! w) ∧
                 _watchers (vm_of s2 v) = _watchers (vm_of s v) ++ [(S (uid s))] ∧
                 _watcher (vm_of s2 v) =
                   (if isR then Some (S (uid s)) else _watcher (vm_of s v)) ∧
                 subs s2 = subs s ∧ targetStack s2 = targetStack s ∧
                 log s2 = log s ++ (if production cfg then [] else [EvWarn (S (uid s))])).
    { unfold s2, alloc_Watcher. simpl.
      destruct (production cfg); simpl; rewrite ?app_nil_r.
      all: unfold vm_of; simpl; rewrite !lookup_insert_eq; simpl.
      all: repeat split; try done.
      all: intros w Hw; by rewrite lookup_insert_ne. }
    destruct F2 as (U2 & O2 & V2 & R2 & S2 & T2 & L2).
    unfold new_Watcher. fold s2.
    change ((opt_flags (Some (false, user_, false, sync_))).1.2) with false.
    cbv iota.
    unfold get. rewrite H2. simpl.
    set (s3 := cleanupDeps (S (uid s))
                 (popTarget (pushTarget (TWatcher (S (uid s))) (emit (EvGet (S (uid s))) s2)))).
    assert (H3 : watchers s3 !! (S (uid s)) =
                 Some (fresh_Watcher v false false user_ false sync_)).
    { unfold s3. erewrite cleanupDeps_lookup by (simpl; exact H2).
      by rewrite decide_True. }
    assert (O3 : ∀ w, w ≠ (S (uid s)) → watchers s3 !! w = watchers s2 !! w).
    { intros w Hw. unfold s3. by rewrite cleanupDeps_other. }
    assert (F3 : vms s3 = vms s2 ∧ uid s3 = uid s2 ∧ subs s3 = subs s2 ∧
                 targetStack s3 = targetStack s2 ∧
                 Dep_target s3 = top (targetStack s2) ∧
                 log s3 = log s2 ++ [EvGet (S (uid s))]).
    { unfold s3, cleanupDeps.
      change (watchers (popTarget ?x)) with (watchers x).
      change (watchers (pushTarget ?t ?x)) with (watchers x).
      change (watchers (emit ?e ?x)) with (watchers x).
      rewrite H2. simpl. rewrite removelast_snoc. done. }
    destruct F3 as (V3 & U3 & S3 & T3 & D3 & L3).
    exists (set_watcher (S (uid s)) (with_value VUndef) s3). split; [done|].
    destruct (set_watcher_frame (S (uid s)) (with_value VUndef) s3)
      as (E1 & E2 & E3 & E4 & E5 & E6).
    split; [|by rewrite E3, D3, T2].
    unfold registered.
    split; [by rewrite E5, U3|].
    split. { rewrite set_watcher_lookup, decide_True, H3 by done. done. }
    split. { intros w Hw. rewrite set_watcher_lookup, decide_False by done.
             rewrite O3 by done. by apply O2. }
    assert (Hvm : vm_of (set_watcher (S (uid s)) (with_value VUndef) s3) v = vm_of s2 v).
    { unfold vm_of. by rewrite E2, V3. }
    rewrite Hvm.
    split; [done|]. split; [done|].
    split; [by rewrite E1, S3|]. split; [by rewrite E4, T3|].
    by rewrite E6, L3, L2, (assoc_L _).
Qed.

(** X10: [w.depend()] hands the Deps of [w] to the current consumer in the
    order of the loop, last Dep first: the consumer records every Dep of
    [w.deps] in its new generation and, when active, is a subscriber of
    each of them afterwards; its [deps], every other watcher and the
    [subs] of every other Dep stay as they are.  Without a current
    consumer [w.depend()] changes nothing. *)
Theorem watcher_depend_exposes w s r :
  watchers s !! w = Some r →
  (consumer (Dep_target s) = None → watcher_depend w s = s) ∧
  (∀ c rc, wf s → Dep_target s = TWatcher c → watchers s !! c = Some rc →
     log (watcher_depend w s) =
       log s ++ map (λ d, EvDepend d c) (reverse (deps r)) ∧
     (∃ rc', watchers (watcher_depend w s) !! c = Some rc' ∧
             deps rc' = deps rc ∧
             newDepIds rc' = newDepIds rc ∪ list_to_set (deps r)) ∧
     (active rc = true →
        ∀ d, d ∈ deps r → c ∈ subs_of (watcher_depend w s) d) ∧
     (∀ d, d ∉ deps r → subs_of (watcher_depend w s) d = subs_of s d) ∧
     (∀ x, x ≠ c → watchers (watcher_depend w s) !! x = watchers s !! x)).
Proof.
  intros Hw. unfold watcher_depend. rewrite Hw. split.
  - apply depend_all_idle.
  - intros c rc Hwf Ht Hc.
    destruct (depend_all_consumer (reverse (deps r)) c s rc Hwf Ht Hc)
      as (W & L & (rc' & Hrc' & D & I & A & N) & O & S).
    assert (EN : newDepIds rc' = newDepIds rc ∪ list_to_set (deps r)).
    { rewrite N. f_equal. apply set_eq. intros d.
      by rewrite !elem_of_list_to_set, elem_of_reverse. }
    split; [done|]. split; [by exists rc'|]. split; [|split; [|done]].
    + intros Ha d Hd. apply (wf_active _ W c rc' d Hrc'); [congruence|].
      right. rewrite EN. apply elem_of_union_r. by apply elem_of_list_to_set.
    + intros d Hd. apply S. by rewrite elem_of_reverse.
Qed.

(** X11: The life of a lazy watcher: [update()] only marks it dirty, without
    entering [get()]; [evaluate()] then enters [get()] once and, when
    [get()] returns [v], caches [v] and clears [dirty], changing nothing
    else after [get()]; when [get()] throws, [evaluate()] throws the same
    exception and neither [value] nor [dirty] is written. *)
Theorem evaluate_after_update n w s r :
  wf s → watchers s !! w = Some r → lazy r = true →
  ∃ s1, update' (exec' n) w s = Ok tt s1 ∧
        log s1 = log s ++ [EvUpdate w] ∧
        watchers s1 !! w = Some (with_dirty true r) ∧
        (∀ v s2, get' (exec' n) w s1 = Ok v s2 →
           ∃ r2 s3, watchers s2 !! w = Some r2 ∧
             evaluate getter traverse (exec' n) w s1 = Ok tt s3 ∧
             watchers s3 !! w = Some (with_dirty false (with_value v r2)) ∧
             (∀ x, x ≠ w → watchers s3 !! x = watchers s2 !! x) ∧
             subs s3 = subs s2 ∧ log s3 = log s2) ∧
        (∀ e s2, get' (exec' n) w s1 = Exn e s2 →
           evaluate getter traverse (exec' n) w s1 = Exn e s2).
Proof.
  intros Hwf Hw Hl.
  exists (set_watcher w (with_dirty true) (emit (EvUpdate w) s)).
  set (s1 := set_watcher w (with_dirty true) (emit (EvUpdate w) s)).
  assert (wf s1) as Hwf1.
  { apply wf_set_watcher; [apply keeps_deps_dirty|by apply wf_emit]. }
  assert (watchers s1 !! w = Some (with_dirty true r)) as Hw1.
  { unfold s1. rewrite set_watcher_lookup, decide_True by done.
    change (watchers (emit ?e ?x)) with (watchers x). by rewrite Hw. }
  split. { unfold update. simpl. by rewrite Hw, Hl. }
  split. { unfold s1.
           by destruct (set_watcher_frame w (with_dirty true) (emit (EvUpdate w) s))
             as (_ & _ & _ & _ & _ & ->). }
  split; [done|]. split.
  - intros v s2 Hg.
    pose proof (respects_under_wf cfg _ (persists_respected cfg)) as HR.
    pose proof (get_sat cfg getter traverse _ HR (exec' n) w s1
                  (exec_sat cfg getter cb traverse _ HR n)) as Hs.
    rewrite Hg in Hs. simpl in Hs. destruct (Hs Hwf1) as [_ [_ P]].
    destruct (P w _ Hw1) as (r2 & Hr2 & _).
    exists r2. eexists. split; [done|].
    split. { unfold evaluate. by rewrite Hg. }
    split. { rewrite !set_watcher_lookup, !decide_True by done.
             by rewrite Hr2. }
    split. { intros x Hx. by rewrite !set_watcher_lookup, !decide_False. }
    destruct (set_watcher_frame w (with_dirty false)
                (set_watcher w (with_value v) s2)) as (-> & _ & _ & _ & _ & ->).
    by destruct (set_watcher_frame w (with_value v) s2)
      as (-> & _ & _ & _ & _ & ->).
  - intros e s2 Hg. unfold evaluate. by rewrite Hg.
Qed.

End More.

(** *** Concrete runs *)

(** A lazy watcher (1) and a deferred watcher (2) with the getter
    [reader], both evaluated: Deps 0 and 1 list 2 and then 1. *)
Definition lazy_and_deferred : state :=
  state_of (exec dev reader no_cb_script no_traverse 2
              [ONew 0 true (Some (false, false, true, false)) false;
               ONew 0 true None false;
               OEvaluate 1] init).

Definition evaluated (lazy_ : bool) : Watcher :=
  {| vm := 0; noop := false; deep := false; user := false; lazy := lazy_;
     sync := false; dirty := false; active := true; deps := [0; 1];
     newDeps := []; depIds := list_to_set [0; 1]; newDepIds := ∅;
     value := VNum 7 |}.

Lemma lazy_and_deferred_wf : wf lazy_and_deferred.
Proof.
  apply (sat_state_of (λ _ s', wf s') init).
  - apply exec_wf, wf_init.
  - vm_compute. by eexists.
Qed.

Lemma lazy_and_deferred_watchers :
  watchers lazy_and_deferred !! 1 = Some (evaluated true) ∧
  watchers lazy_and_deferred !! 2 = Some (evaluated false) ∧
  subs_of lazy_and_deferred 0 = [2; 1].
Proof. repeat apply conj; vm_compute; reflexivity. Qed.

Lemma notify_passive_witness :
  ∃ s', notify dev reader no_cb_script no_traverse
          (exec dev reader no_cb_script no_traverse 1) 0 lazy_and_deferred
        = Ok tt s' ∧
        log s' = log lazy_and_deferred ++ [EvUpdate 1; EvUpdate 2; EvQueue 2] ∧
        subs s' = subs lazy_and_deferred.
Proof.
  destruct lazy_and_deferred_watchers as (H1 & H2 & H3).
  destruct (notify_passive dev reader no_cb_script no_traverse
              (exec dev reader no_cb_script no_traverse 1) 0 lazy_and_deferred)
    as (s' & E & L & S & _).
  { rewrite H3. repeat apply Forall_cons_2; [| |apply Forall_nil_2].
    - exists (evaluated false). split; [exact H2|by right].
    - exists (evaluated true). split; [exact H1|by left]. }
  exists s'. split; [exact E|]. split; [|exact S].
  rewrite L. vm_compute; reflexivity.
Defined.

(** The state after the second evaluation of the watcher of
    [branch_state], which returns 2. *)
Definition branch_again : state :=
  state_of (get branch_getter no_traverse
              (exec dev branch_getter no_cb_script no_traverse 1)
              1 branch_state).

Lemma run_calls_back_witness :
  run branch_getter no_cb_script no_traverse
    (exec dev branch_getter no_cb_script no_traverse 1) 1 branch_state
  = Ok tt (emit (EvCb 1 (VNum 2) (VNum 1))
             (set_watcher 1 (with_value (VNum 2)) branch_again)).
Proof.
  destruct (run_calls_back branch_getter no_cb_script no_traverse
              (exec dev branch_getter no_cb_script no_traverse 1) 1 branch_state
              {| vm := 0; noop := false; deep := false; user := false;
                 lazy := false; sync := false; dirty := false; active := true;
                 deps := [0; 1]; newDeps := []; depIds := list_to_set [0; 1];
                 newDepIds := ∅; value := VNum 1 |}
              (VNum 2) branch_again
              {| vm := 0; noop := false; deep := false; user := false;
                 lazy := false; sync := false; dirty := false; active := true;
                 deps := [1; 2]; newDeps := []; depIds := list_to_set [1; 2];
                 newDepIds := ∅; value := VNum 1 |})
    as [_ H].
  - vm_compute; reflexivity.
  - reflexivity.
  - vm_compute; reflexivity.
  - vm_compute; reflexivity.
  - destruct H as [_ H]; [left; discriminate|]. exact H.
Defined.

Lemma watchers_persist_witness :
  sat persists branch_state
    (exec dev branch_getter no_cb_script no_traverse 2
       [OTeardown 1; ONotify 1; OGet 1] branch_state).
Proof.
  exact (proj1 (watchers_persist dev branch_getter no_cb_script no_traverse 2
                  branch_state branch_state_wf)
               [OTeardown 1; ONotify 1; OGet 1]).
Defined.

(** The same state while watcher 2 is being evaluated. *)
Definition consuming : state := pushTarget (TWatcher 2) lazy_and_deferred.

Lemma consuming_wf : wf consuming.
Proof. unfold consuming. apply wf_pushTarget, lazy_and_deferred_wf. Qed.

Lemma consuming_watchers :
  watchers consuming !! 1 = Some (evaluated true) ∧
  watchers consuming !! 2 = Some (evaluated false) ∧
  Dep_target consuming = TWatcher 2.
Proof. repeat apply conj; vm_compute; reflexivity. Qed.

Lemma watcher_depend_exposes_witness :
  log (watcher_depend 1 consuming) =
    log consuming ++ [EvDepend 1 2; EvDepend 0 2] ∧
  ∀ d, d ∈ [0; 1] → 2 ∈ subs_of (watcher_depend 1 consuming) d.
Proof.
  destruct consuming_watchers as (H1 & H2 & H3).
  destruct (watcher_depend_exposes 1 consuming (evaluated true) H1) as [_ H].
  destruct (H 2 (evaluated false) consuming_wf H3 H2) as (L & _ & S & _).
  split; [exact L|]. intros d Hd. apply S; [reflexivity|exact Hd].
Defined.

Lemma evaluate_after_update_witness :
  ∃ s1, update reader no_cb_script no_traverse
          (exec dev reader no_cb_script no_traverse 1) 1 lazy_and_deferred
        = Ok tt s1 ∧
        log s1 = log lazy_and_deferred ++ [EvUpdate 1] ∧
        watchers s1 !! 1 = Some (with_dirty true (evaluated true)).
Proof.
  destruct lazy_and_deferred_watchers as (H1 & _).
  destruct (evaluate_after_update dev reader no_cb_script no_traverse 1 1
              lazy_and_deferred (evaluated true) lazy_and_deferred_wf H1 eq_refl)
    as (s1 & U & L & W & _).
  exists s1. split; [exact U|]. split; [exact L|exact W].
Defined.

End Reactivity.

(** ** The Observer: reactive properties, [set] and [del] *)

Module Observer.

(** A property key.  [KIndex n] is a key for which [isValidArrayIndex]
    holds (the number [n] or the string that prints it); [KName] is any
    other key. *)
Inductive key :=
| KName (s : string)
| KIndex (n : nat).

#[global] Instance key_eq_dec : EqDecision key.
Proof. solve_decision. Defined.

(** util [isValidArrayIndex] *)
Definition isValidArrayIndex (k : key) : bool :=
  match k with KIndex _ => true | KName _ => false end.

(** The getter and setter that [defineReactive] found on the property and
    delegates to: none (a data property), functions of the user, or the
    [reactiveGetter] and [reactiveSetter] of an earlier [defineReactive]
    on the same key. *)
Inductive wrapped :=
| WData
| WUser (g s : option nat)
| WCell (c : nat).

(** The closure of one [defineReactive] call: the variables [dep], [val],
    [childOb], [getter], [setter], [customSetter] and [shallow] shared by
    its [reactiveGetter] and [reactiveSetter]. *)
Record cell := mkCell {
  c_dep : nat;
  c_val : val;
  c_childOb : option nat;
  c_shallow : bool;
  c_customSetter : bool;
  c_wrapped : wrapped
}.

(** An own property: a data property, an accessor property with functions
    of the user, or the accessor property that [defineReactive] installs
    (enumerable and configurable) with the closure it belongs to. *)
Inductive prop :=
| PData (v : val) (writable enumerable configurable : bool)
| PUser (g s : option nat) (enumerable configurable : bool)
| PReactive (c : nat).

Inductive kind := Plain | Array | VNode | Other.

#[global] Instance kind_eq_dec : EqDecision kind.
Proof. solve_decision. Defined.

(** An object: its named own properties in creation order, its elements
    when it is an array, the Observer behind its hidden [__ob__], and the
    flags [observe] and [set] look at.  Its prototype chain carries
    nothing but [Object.prototype]. *)
Record obj := mkObj {
  o_kind : kind;
  o_props : list (key * prop);
  o_elems : list val;
  o_ob : option nat;
  o_isVue : bool;
  o_extensible : bool
}.

Definition empty_obj : obj :=
  {| o_kind := Plain; o_props := []; o_elems := []; o_ob := None;
     o_isVue := false; o_extensible := true |}.

(** class [Observer]: [value], [dep], [vmCount]. *)
Record Obs := mkObs {
  ob_value : nat;
  ob_dep : nat;
  ob_vmCount : nat
}.

Inductive warning :=
| WarnSetPrimitive          (* Cannot set reactive property on undefined, null, or primitive value *)
| WarnDelPrimitive          (* Cannot delete reactive property on undefined, null, or primitive value *)
| WarnSetRoot               (* Avoid adding reactive properties to a Vue instance or its root $data *)
| WarnDelRoot.              (* Avoid deleting properties on a Vue instance or its root $data *)

(** The calls that leave this file, in program order. *)
Inductive event :=
| EvDepend (d : nat)                (* dep.depend() *)
| EvNotify (d : nat)                (* dep.notify() *)
| EvWarn (w : warning)              (* warn(..) *)
| EvCustomSetter (c : nat)          (* customSetter() *)
| EvGetter (g : nat)                (* getter.call(obj), a function of the user *)
| EvSetter (f : nat) (v : val).     (* setter.call(obj, newVal), a function of the user *)

#[global] Instance warning_eq_dec : EqDecision warning.
Proof. solve_decision. Defined.

#[global] Instance event_eq_dec : EqDecision event.
Proof. solve_decision. Defined.

Record state := mkState {
  heap : gmap nat obj;              (* address ↦ object *)
  cells : gmap nat cell;            (* the closures of defineReactive *)
  observers : gmap nat Obs;
  next_cell : nat;
  next_ob : nat;
  dep_uid : nat;                    (* dep.js: let uid = 0 *)
  user : gmap nat val;              (* what the user's accessors close over *)
  tracking : bool;                  (* Dep.target is a watcher *)
  shouldObserve : bool;
  trace : list event
}.

(** Build and environment: [process.env.NODE_ENV === 'production'] and
    [isServerRendering()]. *)
Record config := mkConfig { production : bool; serverRendering : bool }.

Inductive res (A : Type) :=
| Ok (a : A) (s : state)
| Exn (e : err) (s : state)
| Fuel.
Arguments Ok {A} a s.
Arguments Exn {A} e s.
Arguments Fuel {A}.

(** Computations over the state that may throw. *)
Definition M (A : Type) : Type := state → res A.

Definition ret {A} (a : A) : M A := λ s, Ok a s.

Definition bind {A B} (m : M A) (k : A → M B) : M B :=
  λ s, match m s with
       | Ok a s' => k a s'
       | Exn e s' => Exn e s'
       | Fuel => Fuel
       end.

Definition throw {A} (e : err) : M A := λ s, Exn e s.

Definition modify (f : state → state) : M unit := λ s, Ok tt (f s).

Definition gets {A} (f : state → A) : M A := λ s, Ok (f s) s.

Notation "'let!' x := m 'in' k" := (bind m (λ x, k))
  (at level 10, x name, m at level 100, k at level 200).
Notation "m >> k" := (bind m (λ _, k))
  (at level 100, k at level 200, right associativity).

(** [for] loops over a list. *)
Fixpoint for_list {A} (f : A → M unit) (xs : list A) : M unit :=
  match xs with
  | [] => ret tt
  | x :: xs' => f x >> for_list f xs'
  end.

(** *** State updates *)

Definition set_heap (h : gmap nat obj) (s : state) : state :=
  {| heap := h; cells := cells s; observers := observers s;
     next_cell := next_cell s; next_ob := next_ob s; dep_uid := dep_uid s;
     user := user s; tracking := tracking s;
     shouldObserve := shouldObserve s; trace := trace s |}.

Definition set_cells (c : gmap nat cell) (n : nat) (s : state) : state :=
  {| heap := heap s; cells := c; observers := observers s;
     next_cell := n; next_ob := next_ob s; dep_uid := dep_uid s;
     user := user s; tracking := tracking s;
     shouldObserve := shouldObserve s; trace := trace s |}.

Definition set_observers (o : gmap nat Obs) (n : nat) (s : state) : state :=
  {| heap := heap s; cells := cells s; observers := o;
     next_cell := next_cell s; next_ob := n; dep_uid := dep_uid s;
     user := user s; tracking := tracking s;
     shouldObserve := shouldObserve s; trace := trace s |}.

Definition set_dep_uid (n : nat) (s : state) : state :=
  {| heap := heap s; cells := cells s; observers := observers s;
     next_cell := next_cell s; next_ob := next_ob s; dep_uid := n;
     user := user s; tracking := tracking s;
     shouldObserve := shouldObserve s; trace := trace s |}.

Definition set_user (u : gmap nat val) (s : state) : state :=
  {| heap := heap s; cells := cells s; observers := observers s;
     next_cell := next_cell s; next_ob := next_ob s; dep_uid := dep_uid s;
     user := u; tracking := tracking s;
     shouldObserve := shouldObserve s; trace := trace s |}.

Definition emit (e : event) (s : state) : state :=
  {| heap := heap s; cells := cells s; observers := observers s;
     next_cell := next_cell s; next_ob := next_ob s; dep_uid := dep_uid s;
     user := user s; tracking := tracking s;
     shouldObserve := shouldObserve s; trace := trace s ++ [e] |}.

Definition with_props (ps : list (key * prop)) (o : obj) : obj :=
  {| o_kind := o_kind o; o_props := ps; o_elems := o_elems o;
     o_ob := o_ob o; o_isVue := o_isVue o; o_extensible := o_extensible o |}.

Definition with_elems (es : list val) (o : obj) : obj :=
  {| o_kind := o_kind o; o_props := o_props o; o_elems := es;
     o_ob := o_ob o; o_isVue := o_isVue o; o_extensible := o_extensible o |}.

Definition with_ob (b : option nat) (o : obj) : obj :=
  {| o_kind := o_kind o; o_props := o_props o; o_elems := o_elems o;
     o_ob := b; o_isVue := o_isVue o; o_extensible := o_extensible o |}.

Definition with_val (v : val) (c : cell) : cell :=
  {| c_dep := c_dep c; c_val := v; c_childOb := c_childOb c;
     c_shallow := c_shallow c; c_customSetter := c_customSetter c;
     c_wrapped := c_wrapped c |}.

Definition with_childOb (b : option nat) (c : cell) : cell :=
  {| c_dep := c_dep c; c_val := c_val c; c_childOb := b;
     c_shallow := c_shallow c; c_customSetter := c_customSetter c;
     c_wrapped := c_wrapped c |}.

(** The object at an address. *)
Definition obj_of (s : state) (a : nat) : obj :=
  default empty_obj (heap s !! a).

Definition set_obj (a : nat) (o : obj) (s : state) : state :=
  set_heap (<[a := o]> (heap s)) s.

(** *** Own properties *)

Fixpoint lookup_prop (k : key) (ps : list (key * prop)) : option prop :=
  match ps with
  | [] => None
  | (k', p) :: ps' => if decide (k = k') then Some p else lookup_prop k ps'
  end.

(** [Object.defineProperty]: an existing key keeps its place, a new one
    goes last. *)
Fixpoint define_prop (k : key) (p : prop) (ps : list (key * prop))
    : list (key * prop) :=
  match ps with
  | [] => [(k, p)]
  | (k', p') :: ps' =>
    if decide (k = k') then (k, p) :: ps' else (k', p') :: define_prop k p ps'
  end.

Fixpoint delete_prop (k : key) (ps : list (key * prop)) : list (key * prop) :=
  match ps with
  | [] => []
  | (k', p') :: ps' =>
    if decide (k = k') then ps' else (k', p') :: delete_prop k ps'
  end.

Definition enumerable (p : prop) : bool :=
  match p with
  | PData _ _ e _ => e
  | PUser _ _ e _ => e
  | PReactive _ => true
  end.

Definition configurable (p : prop) : bool :=
  match p with
  | PData _ _ _ c => c
  | PUser _ _ _ c => c
  | PReactive _ => true
  end.

(** [Object.keys(obj)] *)
Definition keys (o : obj) : list key :=
  (filter (λ kp, enumerable kp.2 = true) (o_props o)).*1.

(** util [hasOwn]; an array owns its indices. *)
Definition hasOwn (o : obj) (k : key) : bool :=
  match o_kind o, k with
  | Array, KIndex i => bool_decide (i < length (o_elems o))
  | _, _ => bool_decide (is_Some (lookup_prop k (o_props o)))
  end.

(** [key in Object.prototype] *)
Definition in_Object_prototype (k : key) : bool :=
  match k with
  | KName n =>
    bool_decide (n ∈ ["constructor"; "__defineGetter__"; "__defineSetter__";
                      "hasOwnProperty"; "__lookupGetter__"; "__lookupSetter__";
                      "isPrototypeOf"; "propertyIsEnumerable"; "toString";
                      "valueOf"; "__proto__"; "toLocaleString"]%string)
  | KIndex _ => false
  end.

(** [key in target] for an object. *)
Definition has_key (o : obj) (k : key) : bool :=
  hasOwn o k || in_Object_prototype k.

(** *** index.js *)

(** What the functions of this file call each other through: the
    [reactiveGetter] and [reactiveSetter] of a closure, [observe] and
    [dependArray].  The interpreter ties the knot with fuel. *)
Record hooks := mkHooks {
  h_get : nat → M val;
  h_set : nat → val → M unit;
  h_observe : val → bool → M (option nat);
  h_dependArray : nat → M unit
}.

Definition dummy_cell : cell :=
  {| c_dep := 0; c_val := VUndef; c_childOb := None; c_shallow := false;
     c_customSetter := false; c_wrapped := WData |}.

Definition cell_of (s : state) (c : nat) : cell :=
  default dummy_cell (cells s !! c).

Definition set_cell (c : nat) (f : cell → cell) (s : state) : state :=
  set_cells (<[c := f (cell_of s c)]> (cells s)) (next_cell s) s.

Definition obs_of (s : state) (b : nat) : Obs :=
  default {| ob_value := 0; ob_dep := 0; ob_vmCount := 0 |} (observers s !! b).

Definition isArray (s : state) (v : val) : bool :=
  match v with
  | VObj a => bool_decide (o_kind (obj_of s a) = Array)
  | _ => false
  end.

Definition has_getter (w : wrapped) : bool :=
  match w with
  | WData => false
  | WUser g _ => bool_decide (is_Some g)
  | WCell _ => true
  end.

Definition has_setter (w : wrapped) : bool :=
  match w with
  | WData => false
  | WUser _ f => bool_decide (is_Some f)
  | WCell _ => true
  end.

(** [newVal === value || (newVal !== newVal && value !== value)] *)
Definition same_value (newVal value : val) : bool :=
  strict_eq newVal value ||
  (negb (strict_eq newVal newVal) && negb (strict_eq value value)).

Section Functions.

Context (cfg : config).
(** The functions of the user that objects carry as getters and setters:
    what getter [g] returns and what setter [f] does to the variables
    they close over. *)
Context (user_get : nat → gmap nat val → val).
Context (user_set : nat → val → gmap nat val → gmap nat val).

(** [new Dep()]: [this.id = uid++] *)
Definition new_Dep : M nat :=
  λ s, Ok (dep_uid s) (set_dep_uid (S (dep_uid s)) s).

(** [dep.depend()]: [if (Dep.target) Dep.target.addDep(this)] *)
Definition depend (d : nat) : M unit :=
  let! t := gets tracking in
  if t then modify (emit (EvDepend d)) else ret tt.

(** [dep.notify()] *)
Definition notify (d : nat) : M unit := modify (emit (EvNotify d)).

(** [warn(..)], in development builds only. *)
Definition warn (w : warning) : M unit :=
  if production cfg then ret tt else modify (emit (EvWarn w)).

(** [getter.call(obj)] *)
Definition call_getter (R : hooks) (w : wrapped) : M val :=
  match w with
  | WUser (Some g) _ =>
    modify (emit (EvGetter g)) >> gets (λ s, user_get g (user s))
  | WCell c => h_get R c
  | _ => ret VUndef
  end.

(** [setter.call(obj, newVal)] *)
Definition call_setter (R : hooks) (w : wrapped) (v : val) : M unit :=
  match w with
  | WUser _ (Some f) =>
    modify (λ s, set_user (user_set f v (user s)) (emit (EvSetter f v) s))
  | WCell c => h_set R c v
  | _ => ret tt
  end.

(** [const value = getter ? getter.call(obj) : val] *)
Definition current_value (R : hooks) (c : nat) : M val :=
  let! w := gets (λ s, c_wrapped (cell_of s c)) in
  if has_getter w then call_getter R w
  else gets (λ s, c_val (cell_of s c)).

(** [dependArray (value)] *)
Definition dependArray (R : hooks) (a : nat) : M unit :=
  let! es := gets (λ s, o_elems (obj_of s a)) in
  for_list (λ e,
    (match e with
     | VObj b =>
       let! ob := gets (λ s, o_ob (obj_of s b)) in
       match ob with
       | Some o => let! d := gets (λ s, ob_dep (obs_of s o)) in depend d
       | None => ret tt
       end
     | _ => ret tt
     end) >>
    (let! arr := gets (λ s, isArray s e) in
     match e with
     | VObj b => if arr then h_dependArray R b else ret tt
     | _ => ret tt
     end)) es.

(** [get: function reactiveGetter ()] of closure [c] *)
Definition reactiveGetter (R : hooks) (c : nat) : M val :=
  let! value := current_value R c in
  let! t := gets tracking in
  (if t then
     (let! d := gets (λ s, c_dep (cell_of s c)) in depend d) >>
     (let! childOb := gets (λ s, c_childOb (cell_of s c)) in
      match childOb with
      | Some o =>
        (let! d := gets (λ s, ob_dep (obs_of s o)) in depend d) >>
        (let! arr := gets (λ s, isArray s value) in
         match value with
         | VObj a => if arr then dependArray R a else ret tt
         | _ => ret tt
         end)
      | None => ret tt
      end)
   else ret tt) >>
  ret value.

(** [set: function reactiveSetter (newVal)] of closure [c] *)
Definition reactiveSetter (R : hooks) (c : nat) (newVal : val) : M unit :=
  let! value := current_value R c in
  if same_value newVal value then ret tt
  else
    (let! cs := gets (λ s, c_customSetter (cell_of s c)) in
     if negb (production cfg) && cs then modify (emit (EvCustomSetter c))
     else ret tt) >>
    (let! w := gets (λ s, c_wrapped (cell_of s c)) in
     if has_getter w && negb (has_setter w) then ret tt
     else
       (if has_setter w then call_setter R w newVal
        else modify (set_cell c (with_val newVal))) >>
       (let! shallow := gets (λ s, c_shallow (cell_of s c)) in
        let! childOb := (if shallow then ret None else h_observe R newVal false) in
        modify (set_cell c (with_childOb childOb))) >>
       (let! d := gets (λ s, c_dep (cell_of s c)) in notify d)).

(** [obj[key]] for an own key. *)
Definition get_prop (R : hooks) (a : nat) (k : key) : M val :=
  let! o := gets (λ s, obj_of s a) in
  match o_kind o, k with
  | Array, KIndex i => ret (default VUndef (o_elems o !! i))
  | _, _ =>
    match lookup_prop k (o_props o) with
    | Some (PData v _ _ _) => ret v
    | Some (PUser (Some g) _ _ _) =>
      modify (emit (EvGetter g)) >> gets (λ s, user_get g (user s))
    | Some (PUser None _ _ _) => ret VUndef
    | Some (PReactive c) => h_get R c
    | None => ret VUndef
    end
  end.

(** [target[key] = val] on an object, in strict mode: writing a read-only
    property or an accessor without setter, or adding a property to an
    object that is not extensible, is a TypeError. *)
Definition put (R : hooks) (a : nat) (k : key) (v : val) : M unit :=
  let! o := gets (λ s, obj_of s a) in
  match lookup_prop k (o_props o) with
  | Some (PData _ w e c) =>
    if w then modify (set_obj a (with_props
                        (define_prop k (PData v w e c) (o_props o)) o))
    else throw (TypeError "Cannot assign to read only property")
  | Some (PUser _ (Some f) _ _) =>
    modify (λ s, set_user (user_set f v (user s)) (emit (EvSetter f v) s))
  | Some (PUser _ None _ _) =>
    throw (TypeError "Cannot set property which has only a getter")
  | Some (PReactive c) => h_set R c v
  | None =>
    if o_extensible o
    then modify (set_obj a (with_props
                   (define_prop k (PData v true true true) (o_props o)) o))
    else throw (TypeError "Cannot add property, object is not extensible")
  end.

(** [defineReactive (obj, key, val, customSetter, shallow)]; [val] is
    [None] when the call has two arguments. *)
Definition defineReactive (R : hooks) (a : nat) (k : key) (val : option val)
    (customSetter shallow : bool) : M unit :=
  let! d := new_Dep in
  let! o := gets (λ s, obj_of s a) in
  let property := lookup_prop k (o_props o) in
  if bool_decide (configurable <$> property = Some false) then ret tt
  else
    let w := match property with
             | Some (PUser g f _ _) => WUser g f
             | Some (PReactive c) => WCell c
             | _ => WData
             end in
    let! v := (match val with
         | None =>
           if negb (has_getter w) || has_setter w then get_prop R a k
           else ret VUndef
         | Some v => ret v
         end) in
    let! childOb := (if shallow then ret None else h_observe R v false) in
    let! o' := gets (λ s, obj_of s a) in
    if bool_decide (lookup_prop k (o_props o') = None) && negb (o_extensible o')
    then throw (TypeError "Cannot define property, object is not extensible")
    else
      let! c := gets next_cell in
      modify (λ s,
        set_obj a (with_props (define_prop k (PReactive c) (o_props o')) o')
          (set_cells
             (<[c := {| c_dep := d; c_val := v; c_childOb := childOb;
                        c_shallow := shallow; c_customSetter := customSetter;
                        c_wrapped := w |}]> (cells s)) (S c) s)).

(** [walk (obj)] *)
Definition walk (R : hooks) (a : nat) : M unit :=
  let! ks := gets (λ s, keys (obj_of s a)) in
  for_list (λ k, defineReactive R a k None false false) ks.

(** [observeArray (items)] *)
Definition observeArray (R : hooks) (items : list val) : M unit :=
  for_list (λ v, h_observe R v false >> ret tt) items.

(** [new Observer(value)] *)
Definition new_Observer (R : hooks) (a : nat) : M nat :=
  let! d := new_Dep in
  let! b := gets next_ob in
  modify (λ s, set_observers
                 (<[b := {| ob_value := a; ob_dep := d; ob_vmCount := 0 |}]>
                    (observers s)) (S b) s) >>
  modify (λ s, set_obj a (with_ob (Some b) (obj_of s a)) s) >>
  let! o := gets (λ s, obj_of s a) in
  (if bool_decide (o_kind o = Array) then observeArray R (o_elems o)
   else walk R a) >>
  ret b.

(** [observe (value, asRootData)] *)
Definition observe (R : hooks) (value : val) (asRootData : bool)
    : M (option nat) :=
  match value with
  | VObj a =>
    let! o := gets (λ s, obj_of s a) in
    if bool_decide (o_kind o = VNode) then ret None
    else
      let! ob := (match o_ob o with
            | Some b => ret (Some b)
            | None =>
              let! so := gets shouldObserve in
              if so && negb (serverRendering cfg) &&
                 (bool_decide (o_kind o = Array) || bool_decide (o_kind o = Plain)) &&
                 o_extensible o && negb (o_isVue o)
              then let! b := new_Observer R a in ret (Some b)
              else ret None
            end) in
      (match ob with
       | Some b =>
         if asRootData
         then modify (λ s, set_observers
                (<[b := {| ob_value := ob_value (obs_of s b);
                           ob_dep := ob_dep (obs_of s b);
                           ob_vmCount := S (ob_vmCount (obs_of s b)) |}]>
                   (observers s)) (next_ob s) s)
         else ret tt
       | None => ret tt
       end) >>
      ret ob
  | _ => ret None
  end.

(** Modelled from the spec: the [splice] of ./array, which is not under
    src/, on an observed array: "each intercepted mutator performs the
    real mutation, observes any freshly inserted elements, and notifies
    the container's own Dependency afterward"; an array without Observer
    has the plain [splice]. *)
Definition splice (R : hooks) (a : nat) (es : list val) (inserted : list val)
    : M unit :=
  modify (λ s, set_obj a (with_elems es (obj_of s a)) s) >>
  let! ob := gets (λ s, o_ob (obj_of s a)) in
  match ob with
  | Some b =>
    observeArray R inserted >>
    (let! d := gets (λ s, ob_dep (obs_of s b)) in notify d)
  | None => ret tt
  end.

(** The target as [set] and [del] see it once it is known not to be an
    array with a valid index: [key in target], [target.__ob__] and
    [target._isVue] need an object. *)
Definition isRoot (s : state) (o : obj) : bool :=
  o_isVue o ||
  match o_ob o with
  | Some b => bool_decide (0 < ob_vmCount (obs_of s b))
  | None => false
  end.

(** [set (target, key, val)] *)
Definition set (R : hooks) (target : val) (k : key) (v : val) : M val :=
  (if isUndef target || isPrimitive target then warn WarnSetPrimitive
   else ret tt) >>
  let! arr := gets (λ s, isArray s target) in
  match target with
  | VObj a =>
    if arr && isValidArrayIndex k then
      match k with
      | KIndex i =>
        let! es := gets (λ s, o_elems (obj_of s a)) in
        let es' := es ++ replicate (i - length es) VUndef in
        splice R a (take i es' ++ [v] ++ drop (S i) es') [v] >> ret v
      | KName _ => ret v
      end
    else
      let! o := gets (λ s, obj_of s a) in
      if has_key o k && negb (in_Object_prototype k) then
        put R a k v >> ret v
      else
        let! root := gets (λ s, isRoot s o) in
        if root then warn WarnSetRoot >> ret v
        else
          match o_ob o with
          | None => put R a k v >> ret v
          | Some b =>
            (let! a' := gets (λ s, ob_value (obs_of s b)) in
             defineReactive R a' k (Some v) false false) >>
            (let! d := gets (λ s, ob_dep (obs_of s b)) in notify d) >>
            ret v
          end
  | _ =>
    (* [key in target] on undefined, null or a primitive *)
    throw (TypeError "Cannot use 'in' operator")
  end.

(** [del (target, key)] *)
Definition del (R : hooks) (target : val) (k : key) : M unit :=
  (if isUndef target || isPrimitive target then warn WarnDelPrimitive
   else ret tt) >>
  let! arr := gets (λ s, isArray s target) in
  match target with
  | VObj a =>
    if arr && isValidArrayIndex k then
      match k with
      | KIndex i =>
        let! es := gets (λ s, o_elems (obj_of s a)) in
        splice R a (take i es ++ drop (S i) es) []
      | KName _ => ret tt
      end
    else
      let! o := gets (λ s, obj_of s a) in
      let! root := gets (λ s, isRoot s o) in
      if root then warn WarnDelRoot
      else if negb (hasOwn o k) then ret tt
      else
        match lookup_prop k (o_props o) with
        | Some p =>
          if configurable p then
            modify (set_obj a (with_props (delete_prop k (o_props o)) o)) >>
            match o_ob o with
            | None => ret tt
            | Some b => let! d := gets (λ s, ob_dep (obs_of s b)) in notify d
            end
          else throw (TypeError "Cannot delete property")
        | None => ret tt
        end
  | VUndef | VNull =>
    (* [target.__ob__] on undefined or null *)
    throw (TypeError "Cannot read property '__ob__'")
  | VStr str =>
    (* a string owns [length] and its indices, which cannot be deleted *)
    match k with
    | KIndex i =>
      if bool_decide (i < String.length str)
      then throw (TypeError "Cannot delete property") else ret tt
    | KName n =>
      if bool_decide (n = "length"%string)
      then throw (TypeError "Cannot delete property") else ret tt
    end
  | _ => ret tt
  end.

(** The functions with [n] levels of calls between them left. *)
Fixpoint hooks_at (n : nat) : hooks :=
  match n with
  | 0 => {| h_get := λ _ _, Fuel; h_set := λ _ _ _, Fuel;
            h_observe := λ _ _ _, Fuel; h_dependArray := λ _ _, Fuel |}
  | S n' =>
    {| h_get := reactiveGetter (hooks_at n');
       h_set := reactiveSetter (hooks_at n');
       h_observe := observe (hooks_at n');
       h_dependArray := dependArray (hooks_at n') |}
  end.

End Functions.

(** An event of another kind is not in an explicit list of events. *)
Ltac not_in_list :=
  let H := fresh "Hin" in
  intros H;
  repeat (apply elem_of_cons in H as [H|H]; [discriminate H|]);
  by apply elem_of_nil in H.

(** *** Writes through a reactive accessor *)

Section Properties.

Context (cfg : config).
Context (user_get : nat → gmap nat val → val).
Context (user_set : nat → val → gmap nat val → gmap nat val).

#[local] Abbreviation reactiveSetter' := (reactiveSetter cfg user_get user_set).
#[local] Abbreviation current_value' := (current_value user_get).

(** The state after [customSetter()], when there is one to call. *)
Definition after_customSetter (c : nat) (s : state) : state :=
  if negb (production cfg) && c_customSetter (cell_of s c)
  then emit (EvCustomSetter c) s else s.

(** The store of [reactiveSetter]: through the setter it wraps, or into
    [val]. *)
Definition store (R : hooks) (c : nat) (newVal : val) : M unit :=
  λ s, if has_setter (c_wrapped (cell_of s c))
       then call_setter user_set R (c_wrapped (cell_of s c)) newVal s
       else Ok tt (set_cell c (with_val newVal) s).

(** [!shallow && observe(newVal)] *)
Definition reobserve (R : hooks) (c : nat) (newVal : val)
    : M (option nat) :=
  λ s, if c_shallow (cell_of s c) then Ok None s
       else h_observe R newVal false s.

Lemma reactiveSetter_unfold R c newVal s :
  reactiveSetter' R c newVal s =
    match current_value' R c s with
    | Ok value s0 =>
      if same_value newVal value then Ok tt s0
      else if has_getter (c_wrapped (cell_of (after_customSetter c s0) c)) &&
              negb (has_setter (c_wrapped (cell_of (after_customSetter c s0) c)))
      then Ok tt (after_customSetter c s0)
      else
        match store R c newVal (after_customSetter c s0) with
        | Ok _ s2 =>
          match reobserve R c newVal s2 with
          | Ok ob s3 =>
            Ok tt (emit (EvNotify (c_dep (cell_of (set_cell c (with_childOb ob) s3) c)))
                     (set_cell c (with_childOb ob) s3))
          | Exn e s3 => Exn e s3
          | Fuel => Fuel
          end
        | Exn e s2 => Exn e s2
        | Fuel => Fuel
        end
    | Exn e s0 => Exn e s0
    | Fuel => Fuel
    end.
Proof.
  unfold reactiveSetter, bind at 1.
  destruct (current_value' R c s) as [value s0| |]; [|done|done].
  destruct (same_value newVal value); [done|].
  unfold bind at 1. unfold bind at 1. unfold gets at 1.
  assert (E : (if negb (production cfg) && c_customSetter (cell_of s0 c)
               then modify (emit (EvCustomSetter c)) else ret tt) s0 =
              Ok tt (after_customSetter c s0)).
  { unfold after_customSetter.
    by destruct (negb (production cfg) && c_customSetter (cell_of s0 c)). }
  rewrite E. clear E. set (s1 := after_customSetter c s0).
  unfold bind at 1. unfold gets at 1.
  destruct (has_getter (c_wrapped (cell_of s1 c)) &&
            negb (has_setter (c_wrapped (cell_of s1 c)))); [done|].
  unfold bind at 1. unfold store.
  destruct (has_setter (c_wrapped (cell_of s1 c))).
  - destruct (call_setter user_set R (c_wrapped (cell_of s1 c)) newVal s1)
      as [[] s2| |]; [|done|done].
    unfold bind at 1. unfold bind at 1. unfold gets at 1. unfold reobserve.
    unfold bind at 1.
    destruct (c_shallow (cell_of s2 c)); [done|].
    by destruct (h_observe R newVal false s2).
  - unfold modify at 1.
    unfold bind at 1. unfold bind at 1. unfold gets at 1. unfold reobserve.
    unfold bind at 1.
    destruct (c_shallow (cell_of (set_cell c (with_val newVal) s1) c)); [done|].
    by destruct (h_observe R newVal false (set_cell c (with_val newVal) s1)).
Qed.

Lemma cell_of_emit e s c : cell_of (emit e s) c = cell_of s c.
Proof. done. Qed.

Lemma cell_of_set_cell c f s : cell_of (set_cell c f s) c = f (cell_of s c).
Proof. unfold cell_of at 1, set_cell. simpl. by rewrite lookup_insert_eq. Qed.

(** C4 (as amended): a write through the accessor first computes the
    current value.  When the new value is identical to it ([NaN] counting
    as identical to [NaN]) nothing is stored and nothing notified.
    Otherwise, unless the accessor wraps a getter without setter, the new
    value is stored (by the wrapped setter when there is one, into [val]
    when not), it is observed unless the property is shallow, and
    [dep.notify()] is the last thing the setter does. *)
Theorem reactiveSetter_writes R c newVal s value s0 :
  current_value' R c s = Ok value s0 →
  (same_value newVal value = true →
     reactiveSetter' R c newVal s = Ok tt s0) ∧
  (same_value newVal value = false →
   has_getter (c_wrapped (cell_of (after_customSetter c s0) c)) &&
     negb (has_setter (c_wrapped (cell_of (after_customSetter c s0) c))) = false →
   (has_setter (c_wrapped (cell_of (after_customSetter c s0) c)) = false →
      store R c newVal (after_customSetter c s0) =
        Ok tt (set_cell c (with_val newVal) (after_customSetter c s0))) ∧
   (∀ g f, c_wrapped (cell_of (after_customSetter c s0) c) = WUser g (Some f) →
      store R c newVal (after_customSetter c s0) =
        Ok tt (set_user (user_set f newVal (user (after_customSetter c s0)))
                 (emit (EvSetter f newVal) (after_customSetter c s0)))) ∧
   ∀ s2 ob s3,
     store R c newVal (after_customSetter c s0) = Ok tt s2 →
     reobserve R c newVal s2 = Ok ob s3 →
     (c_shallow (cell_of s2 c) = true → ob = None ∧ s3 = s2) ∧
     (c_shallow (cell_of s2 c) = false →
        h_observe R newVal false s2 = Ok ob s3) ∧
     ∃ s', reactiveSetter' R c newVal s = Ok tt s' ∧
           c_childOb (cell_of s' c) = ob ∧
           c_val (cell_of s' c) = c_val (cell_of s3 c) ∧
           heap s' = heap s3 ∧ user s' = user s3 ∧
           trace s' = trace s3 ++ [EvNotify (c_dep (cell_of s3 c))]).
Proof.
  intros Hv. split.
  - intros Hsame. by rewrite reactiveSetter_unfold, Hv, Hsame.
  - intros Hsame Hw. split; [|split].
    + intros Hs. unfold store. by rewrite Hs.
    + intros g f Hwr. unfold store. by rewrite Hwr.
    + intros s2 ob s3 Hst Hob. split; [|split].
      * intros Hsh. unfold reobserve in Hob. rewrite Hsh in Hob.
        by simplify_eq.
      * intros Hsh. unfold reobserve in Hob. by rewrite Hsh in Hob.
      * eexists. rewrite reactiveSetter_unfold, Hv, Hsame, Hw, Hst, Hob.
        split; [done|]. rewrite !cell_of_emit, !cell_of_set_cell. done.
Qed.

(** C10: a write through a reactive accessor that wraps a getter and no
    setter calls the getter, and [customSetter] when the build is a
    development build, the property has one and the value differs, and
    nothing else: no object, closure, Observer or variable of the user
    changes, and no Dep is notified. *)
Theorem reactiveSetter_getter_only R c g newVal s :
  c_wrapped (cell_of s c) = WUser (Some g) None →
  ∃ s', reactiveSetter' R c newVal s = Ok tt s' ∧
        heap s' = heap s ∧ cells s' = cells s ∧ observers s' = observers s ∧
        user s' = user s ∧ dep_uid s' = dep_uid s ∧
        (trace s' = trace s ++ [EvGetter g] ∨
         trace s' = trace s ++ [EvGetter g; EvCustomSetter c]) ∧
        (∀ d, EvNotify d ∉ drop (length (trace s)) (trace s')) ∧
        (∀ f v, EvSetter f v ∉ drop (length (trace s)) (trace s')).
Proof.
  intros Hw.
  assert (Hv : current_value' R c s =
               Ok (user_get g (user s)) (emit (EvGetter g) s)).
  { unfold current_value, bind, gets. by rewrite Hw. }
  rewrite reactiveSetter_unfold, Hv.
  assert (Hc : ∀ s1, cells s1 = cells s → cell_of s1 c = cell_of s c).
  { intros s1 E. unfold cell_of. by rewrite E. }
  destruct (same_value newVal (user_get g (user s))).
  - eexists. split; [done|]. simpl.
    split; [done|]. split; [done|]. split; [done|]. split; [done|].
    split; [done|]. split; [by left|].
    split; intros *; rewrite drop_app_length; not_in_list.
  - unfold after_customSetter. rewrite (Hc (emit (EvGetter g) s)) by done.
    destruct (negb (production cfg) && c_customSetter (cell_of s c)).
    + rewrite (Hc (emit _ (emit (EvGetter g) s))), Hw by done. simpl.
      eexists. split; [done|]. simpl. rewrite <- (assoc_L _). simpl.
      split; [done|]. split; [done|]. split; [done|]. split; [done|].
      split; [done|]. split; [by right|].
      split; intros *; rewrite drop_app_length; not_in_list.
    + rewrite (Hc (emit (EvGetter g) s)), Hw by done. simpl.
      eexists. split; [done|]. simpl.
      split; [done|]. split; [done|]. split; [done|]. split; [done|].
      split; [done|]. split; [by left|].
      split; intros *; rewrite drop_app_length; not_in_list.
Qed.

(** *** [set] and [del] *)

Lemma lookup_define_prop k p ps k' :
  lookup_prop k' (define_prop k p ps) =
    if decide (k' = k) then Some p else lookup_prop k' ps.
Proof.
  induction ps as [|[k0 p0] ps IH]; simpl.
  - by case_decide.
  - destruct (decide (k = k0)) as [->|Hne]; simpl.
    + repeat case_decide; congruence.
    + rewrite IH. repeat case_decide; congruence.
Qed.

Lemma define_prop_absent k p ps :
  lookup_prop k ps = None → define_prop k p ps = ps ++ [(k, p)].
Proof.
  induction ps as [|[k0 p0] ps IH]; simpl; [done|].
  case_decide; [done|]. intros Hk. by rewrite IH.
Qed.

Lemma lookup_delete_prop k ps k' :
  k' ≠ k → lookup_prop k' (delete_prop k ps) = lookup_prop k' ps.
Proof.
  intros Hne. induction ps as [|[k0 p0] ps IH]; simpl; [done|].
  destruct (decide (k = k0)) as [->|Hk]; simpl.
  - by rewrite decide_False.
  - by rewrite IH.
Qed.

Lemma obj_of_set_obj a o s a' :
  obj_of (set_obj a o s) a' = if decide (a = a') then o else obj_of s a'.
Proof. unfold obj_of, set_obj. simpl. rewrite lookup_insert. by case_decide. Qed.

(** The state with the warning [w] logged, in a development build. *)
Definition warned (w : warning) (s : state) : state :=
  if production cfg then s else emit (EvWarn w) s.

Lemma warn_run w s : warn cfg w s = Ok tt (warned w s).
Proof. unfold warn, warned. by destruct (production cfg). Qed.

(** [set] on an object that is not an array addressed by an index. *)
Lemma set_object R a k v s :
  isArray s (VObj a) && isValidArrayIndex k = false →
  set cfg user_get user_set R (VObj a) k v s =
    if hasOwn (obj_of s a) k && negb (in_Object_prototype k)
    then (put user_set R a k v >> ret v) s
    else if isRoot s (obj_of s a) then Ok v (warned WarnSetRoot s)
    else match o_ob (obj_of s a) with
         | None => (put user_set R a k v >> ret v) s
         | Some b =>
           ((let! a' := gets (λ s, ob_value (obs_of s b)) in
             defineReactive user_get R a' k (Some v) false false) >>
            (let! d := gets (λ s, ob_dep (obs_of s b)) in notify d) >>
            ret v) s
         end.
Proof.
  intros Harr. unfold set, has_key.
  cbn [isUndef isPrimitive orb]. unfold bind, gets, ret.
  rewrite Harr.
  destruct (hasOwn (obj_of s a) k), (in_Object_prototype k); cbn [orb andb negb];
    try done.
  all: destruct (isRoot s (obj_of s a)); [by rewrite warn_run|].
  all: destruct (o_ob (obj_of s a)); done.
Qed.

(** [defineReactive] with a value for a key the object does not have. *)
Lemma defineReactive_new R a k v (cs sh : bool) s ob s2 :
  lookup_prop k (o_props (obj_of s a)) = None →
  (if sh then Ok (None : option nat) (set_dep_uid (S (dep_uid s)) s)
   else h_observe R v false (set_dep_uid (S (dep_uid s)) s)) = Ok ob s2 →
  lookup_prop k (o_props (obj_of s2 a)) = None →
  o_extensible (obj_of s2 a) = true →
  ∃ s', defineReactive user_get R a k (Some v) cs sh s = Ok tt s' ∧
        lookup_prop k (o_props (obj_of s' a)) = Some (PReactive (next_cell s2)) ∧
        cell_of s' (next_cell s2) =
          {| c_dep := dep_uid s; c_val := v; c_childOb := ob; c_shallow := sh;
             c_customSetter := cs; c_wrapped := WData |} ∧
        next_cell s' = S (next_cell s2) ∧
        (∀ c, c ≠ next_cell s2 → cells s' !! c = cells s2 !! c) ∧
        (∀ a', a' ≠ a → obj_of s' a' = obj_of s2 a') ∧
        (∀ k', k' ≠ k → lookup_prop k' (o_props (obj_of s' a)) =
                         lookup_prop k' (o_props (obj_of s2 a))) ∧
        observers s' = observers s2 ∧ user s' = user s2 ∧
        dep_uid s' = dep_uid s2 ∧ trace s' = trace s2.
Proof.
  intros Hk Hob Hk2 Hext.
  unfold defineReactive, bind, new_Dep, gets, ret, modify.
  change (obj_of (set_dep_uid (S (dep_uid s)) s) a) with (obj_of s a).
  rewrite Hk. cbn [fmap option_fmap option_map].
  rewrite bool_decide_eq_false_2 by done.
  assert (Hfin : ∀ sh', ∃ s',
    (if bool_decide (lookup_prop k (o_props (obj_of s2 a)) = None) &&
        negb (o_extensible (obj_of s2 a))
     then throw (TypeError "Cannot define property, object is not extensible")
     else λ s0 : state,
       Ok ()
         (set_obj a
            (with_props (define_prop k (PReactive (next_cell s0))
                           (o_props (obj_of s2 a))) (obj_of s2 a))
            (set_cells
               (<[next_cell s0 := {| c_dep := dep_uid s; c_val := v;
                                     c_childOb := ob; c_shallow := sh';
                                     c_customSetter := cs;
                                     c_wrapped := WData |}]> (cells s0))
               (S (next_cell s0)) s0))) s2 = Ok () s' ∧
    lookup_prop k (o_props (obj_of s' a)) = Some (PReactive (next_cell s2)) ∧
    cell_of s' (next_cell s2) =
      {| c_dep := dep_uid s; c_val := v; c_childOb := ob; c_shallow := sh';
         c_customSetter := cs; c_wrapped := WData |} ∧
    next_cell s' = S (next_cell s2) ∧
    (∀ c, c ≠ next_cell s2 → cells s' !! c = cells s2 !! c) ∧
    (∀ a', a' ≠ a → obj_of s' a' = obj_of s2 a') ∧
    (∀ k', k' ≠ k → lookup_prop k' (o_props (obj_of s' a)) =
                     lookup_prop k' (o_props (obj_of s2 a))) ∧
    observers s' = observers s2 ∧ user s' = user s2 ∧
    dep_uid s' = dep_uid s2 ∧ trace s' = trace s2).
  { intros sh'. rewrite Hk2, Hext. rewrite bool_decide_eq_true_2 by done.
    cbn [andb negb].
    eexists. split; [done|].
    split. { rewrite obj_of_set_obj, decide_True by done. simpl.
             by rewrite lookup_define_prop, decide_True. }
    split. { unfold cell_of. simpl. by rewrite lookup_insert_eq. }
    split; [done|].
    split. { intros c Hc. simpl. by rewrite lookup_insert_ne. }
    split. { intros a' Ha. by rewrite obj_of_set_obj, decide_False. }
    split; [|done].
    intros k' Hk'. rewrite obj_of_set_obj, decide_True by done. simpl.
    by rewrite lookup_define_prop, decide_False. }
  destruct sh.
  - simplify_eq. apply (Hfin true).
  - rewrite Hob. apply (Hfin false).
Qed.



End Properties.

(** *** Concrete runs *)

Definition state_of {A} (r : res A) (d : state) : state :=
  match r with Ok _ s | Exn _ s => s | Fuel => d end.

Definition dev : config := {| production := false; serverRendering := false |}.

(** Accessors of the user that read and write numbered variables. *)
Definition slot_get (g : nat) (u : gmap nat val) : val :=
  default VUndef (u !! g).
Definition slot_set (f : nat) (v : val) (u : gmap nat val) : gmap nat val :=
  <[f := v]> u.

(** One plain object at address 0: a data property [a], an accessor [g]
    with a getter only, an accessor [gs] with getter and setter. *)
Definition sample : state :=
  {| heap := {[ 0 :=
       {| o_kind := Plain;
          o_props := [(KName "a", PData (VNum 1) true true true);
                      (KName "g", PUser (Some 0) None true true);
                      (KName "gs", PUser (Some 0) (Some 0) true true)];
          o_elems := []; o_ob := None; o_isVue := false;
          o_extensible := true |} ]};
     cells := ∅; observers := ∅; next_cell := 0; next_ob := 0; dep_uid := 0;
     user := {[ 0 := VNum 10 ]}; tracking := false; shouldObserve := true;
     trace := [] |}.

(** After [observe(obj)] and after [observe(obj, true)]. *)
Definition observed : state :=
  state_of (observe dev slot_get (hooks_at dev slot_get slot_set 3)
              (VObj 0) false sample) sample.
Definition rooted : state :=
  state_of (observe dev slot_get (hooks_at dev slot_get slot_set 3)
              (VObj 0) true sample) sample.

Lemma observed_props :
  o_props (obj_of observed 0) =
    [(KName "a", PReactive 0); (KName "g", PReactive 1);
     (KName "gs", PReactive 2)] ∧
  o_ob (obj_of observed 0) = Some 0 ∧
  c_dep <$> cells observed !! 0 = Some 1 ∧
  c_wrapped <$> cells observed !! 1 = Some (WUser (Some 0) None).
Proof. repeat apply conj; vm_compute; reflexivity. Qed.

Lemma reactiveSetter_writes_witness :
  ∃ s', reactiveSetter dev slot_get slot_set
          (hooks_at dev slot_get slot_set 2) 0 (VNum 2) observed = Ok tt s' ∧
        c_childOb (cell_of s' 0) = None ∧
        c_val (cell_of s' 0) = VNum 2 ∧
        trace s' = trace observed ++ [EvNotify 1].
Proof.
  destruct (reactiveSetter_writes dev slot_get slot_set
              (hooks_at dev slot_get slot_set 2) 0 (VNum 2)
              observed (VNum 1) observed) as [_ H].
  { vm_compute; reflexivity. }
  destruct H as (_ & _ & H); [reflexivity|vm_compute; reflexivity|].
  destruct (H (set_cell 0 (with_val (VNum 2)) observed) None
              (set_cell 0 (with_val (VNum 2)) observed))
    as (_ & _ & s' & E & Hc & Hv & _ & _ & Ht).
  { vm_compute; reflexivity. }
  { vm_compute; reflexivity. }
  exists s'. split; [exact E|]. split; [exact Hc|].
  split; [rewrite Hv; vm_compute; reflexivity|].
  rewrite Ht. vm_compute; reflexivity.
Defined.

(** C4, counterexample: the accessor [g] wraps a getter and no setter; a
    write of a value that differs from the current one stores nothing and
    notifies nothing. *)
Lemma reactiveSetter_getter_only_drops_write :
  current_value slot_get (hooks_at dev slot_get slot_set 2) 1 observed
    = Ok (VNum 10) (emit (EvGetter 0) observed) ∧
  same_value (VNum 5) (VNum 10) = false ∧
  reactiveSetter dev slot_get slot_set (hooks_at dev slot_get slot_set 2)
    1 (VNum 5) observed = Ok tt (emit (EvGetter 0) observed).
Proof. repeat apply conj; vm_compute; reflexivity. Qed.

Lemma reactiveSetter_getter_only_witness :
  ∃ s', reactiveSetter dev slot_get slot_set
          (hooks_at dev slot_get slot_set 2) 1 (VNum 5) observed = Ok tt s' ∧
        heap s' = heap observed ∧ cells s' = cells observed ∧
        user s' = user observed ∧
        ∀ d, EvNotify d ∉ drop (length (trace observed)) (trace s').
Proof.
  destruct (reactiveSetter_getter_only dev slot_get slot_set
              (hooks_at dev slot_get slot_set 2) 1 0 (VNum 5) observed)
    as (s' & E & H1 & H2 & _ & H4 & _ & _ & H7 & _).
  { vm_compute; reflexivity. }
  by exists s'.
Defined.




(** *** Further properties of index.js *)

Definition set_shouldObserve (b : bool) (s : state) : state :=
  {| heap := heap s; cells := cells s; observers := observers s;
     next_cell := next_cell s; next_ob := next_ob s; dep_uid := dep_uid s;
     user := user s; tracking := tracking s;
     shouldObserve := b; trace := trace s |}.

(** [toggleObserving (value)] *)
Definition toggleObserving (value : bool) : M unit :=
  modify (set_shouldObserve value).

(** *** What a run has done when it ends

    [ends Q s r]: the run from [s] that produced [r] ended, normally or
    by an exception, in a state related to [s] by [Q]; [always Q m]: so
    does every run of [m]. *)
Definition ends {A} (Q : state → state → Prop) (s : state) (r : res A)
    : Prop :=
  match r with Ok _ s' | Exn _ s' => Q s s' | Fuel => True end.

Definition always {A} (Q : state → state → Prop) (m : M A) : Prop :=
  ∀ s, ends Q s (m s).

Section Always.

Variable Q : state → state → Prop.
Hypothesis Q_refl : ∀ s, Q s s.
Hypothesis Q_trans : ∀ s1 s2 s3, Q s1 s2 → Q s2 s3 → Q s1 s3.

Lemma always_ret {A} (a : A) : always Q (ret a).
Proof. intros s. apply Q_refl. Qed.

Lemma always_gets {A} (f : state → A) : always Q (gets f).
Proof. intros s. apply Q_refl. Qed.

Lemma always_throw {A} e : always Q (throw e : M A).
Proof. intros s. apply Q_refl. Qed.

Lemma always_modify f : (∀ s, Q s (f s)) → always Q (modify f).
Proof. intros H s. apply H. Qed.

Lemma ends_bind {A B} (m : M A) (k : A → M B) s :
  ends Q s (m s) → (∀ a s', m s = Ok a s' → ends Q s' (k a s')) →
  ends Q s (bind m k s).
Proof.
  unfold bind. intros Hm Hk. destruct (m s) as [a s'|e s'|] eqn:E; [|done|done].
  specialize (Hk a s' eq_refl). simpl in Hm.
  destruct (k a s') as [b s''|e s''|]; simpl in *; eauto.
Qed.

Lemma always_bind {A B} (m : M A) (k : A → M B) :
  always Q m → (∀ a, always Q (k a)) → always Q (bind m k).
Proof. intros Hm Hk s. apply ends_bind; [apply Hm|]. intros a s' _. apply Hk. Qed.

(** A continuation that depends on what it read from the state. *)
Lemma always_gets_bind {A B} (f : state → A) (k : A → M B) :
  (∀ s, ends Q s (k (f s) s)) → always Q (bind (gets f) k).
Proof. intros H s. apply H. Qed.

Lemma always_for_list {A} (f : A → M unit) xs :
  (∀ x, always Q (f x)) → always Q (for_list f xs).
Proof.
  intros Hf. induction xs as [|x xs IH]; simpl; [apply always_ret|].
  apply always_bind; [apply Hf|]. intros _. apply IH.
Qed.

End Always.

Lemma ends_impl {A} (P Q : state → state → Prop) s (r : res A) :
  (∀ s', P s s' → Q s s') → ends P s r → ends Q s r.
Proof. destruct r; simpl; auto. Qed.

(** *** Reads *)

(** The events of a read: a Dep is told of the consumer, a getter of the
    user is called. *)
Definition reading (e : event) : Prop :=
  match e with EvDepend _ | EvGetter _ => True | _ => False end.

(** [s] with the events [tr] logged after the others. *)
Definition logged (tr : list event) (s : state) : state :=
  {| heap := heap s; cells := cells s; observers := observers s;
     next_cell := next_cell s; next_ob := next_ob s; dep_uid := dep_uid s;
     user := user s; tracking := tracking s;
     shouldObserve := shouldObserve s; trace := trace s ++ tr |}.

(** Nothing but the log has changed; the new events are those of a
    read, and no Dep was told anything when there is no consumer. *)
Definition reads_only (s s' : state) : Prop :=
  ∃ tr, s' = logged tr s ∧ Forall reading tr ∧
        (tracking s = false → ∀ d, EvDepend d ∉ tr).

Lemma logged_nil s : logged [] s = s.
Proof. destruct s. unfold logged. simpl. by rewrite app_nil_r. Qed.

Lemma logged_app tr1 tr2 s : logged tr2 (logged tr1 s) = logged (tr1 ++ tr2) s.
Proof. unfold logged. simpl. by rewrite (assoc_L _). Qed.

Lemma reads_only_refl s : reads_only s s.
Proof.
  exists []. rewrite logged_nil. split; [done|]. split; [done|].
  intros _ d. apply not_elem_of_nil.
Qed.

Lemma reads_only_trans s1 s2 s3 :
  reads_only s1 s2 → reads_only s2 s3 → reads_only s1 s3.
Proof.
  intros (tr1 & -> & F1 & N1) (tr2 & -> & F2 & N2).
  exists (tr1 ++ tr2). rewrite logged_app. split; [done|].
  split; [by apply Forall_app|].
  intros Ht d [?|?]%elem_of_app; [by eapply N1|by eapply N2].
Qed.

Lemma reads_only_emit e s :
  reading e → (tracking s = false → ∀ d, e ≠ EvDepend d) →
  reads_only s (emit e s).
Proof.
  intros He Hd. exists [e]. split; [done|]. split; [by apply Forall_singleton|].
  intros Ht d Hin%list_elem_of_singleton. exact (Hd Ht d (eq_sym Hin)).
Qed.

(** *** What [observe] leaves alone *)

(** From [s] to [s'] ids were only consumed; the closures and Observers
    of [s] are as they were; nothing was logged but reads; every object
    has its kind, elements, flags and Observer of before; and an object
    that had an Observer in [s], other than [ex], is as it was. *)
Record grows (ex : option nat) (s s' : state) : Prop := mkGrows {
  g_next_cell : next_cell s ≤ next_cell s';
  g_next_ob : next_ob s ≤ next_ob s';
  g_dep_uid : dep_uid s ≤ dep_uid s';
  g_cells : ∀ c, c < next_cell s → cells s' !! c = cells s !! c;
  g_observers : ∀ b, b < next_ob s → observers s' !! b = observers s !! b;
  g_user : user s' = user s;
  g_tracking : tracking s' = tracking s;
  g_shouldObserve : shouldObserve s' = shouldObserve s;
  g_trace : ∃ tr, trace s' = trace s ++ tr ∧ Forall reading tr;
  g_shape : ∀ a,
    o_kind (obj_of s' a) = o_kind (obj_of s a) ∧
    o_elems (obj_of s' a) = o_elems (obj_of s a) ∧
    o_isVue (obj_of s' a) = o_isVue (obj_of s a) ∧
    o_extensible (obj_of s' a) = o_extensible (obj_of s a) ∧
    (∀ b, o_ob (obj_of s a) = Some b → o_ob (obj_of s' a) = Some b);
  g_heap : ∀ a, Some a ≠ ex → is_Some (o_ob (obj_of s a)) →
    obj_of s' a = obj_of s a
}.

Lemma grows_refl ex s : grows ex s s.
Proof.
  split; try done. exists []. by rewrite app_nil_r.
Qed.

Lemma grows_trans ex s1 s2 s3 : grows ex s1 s2 → grows ex s2 s3 → grows ex s1 s3.
Proof.
  intros [A1 A2 A3 A4 A5 A6 A7 A8 (tr1 & A9 & F1) A10 A11]
         [B1 B2 B3 B4 B5 B6 B7 B8 (tr2 & B9 & F2) B10 B11].
  split; try lia; try congruence.
  - intros c Hc. rewrite B4 by lia. by apply A4.
  - intros b Hb. rewrite B5 by lia. by apply A5.
  - exists (tr1 ++ tr2). rewrite B9, A9, (assoc_L _). split; [done|].
    by apply Forall_app.
  - intros a. destruct (A10 a) as (E1 & E2 & E3 & E4 & E5).
    destruct (B10 a) as (G1 & G2 & G3 & G4 & G5).
    rewrite G1, G2, G3, G4. repeat split; try done. auto.
  - intros a Ha Hob. rewrite B11; [by apply A11|done|].
    by rewrite A11.
Qed.

Lemma grows_weaken ex s s' : grows None s s' → grows ex s s'.
Proof. intros []. split; try done. intros a _. by apply g_heap0. Qed.

Lemma grows_unobserved a s s' :
  grows (Some a) s s' → o_ob (obj_of s a) = None → grows None s s'.
Proof.
  intros [] Hob. split; try done. intros a' _ Ha'.
  apply g_heap0; [|done]. intros [= ->]. rewrite Hob in Ha'.
  by destruct Ha'.
Qed.

Lemma reads_only_grows ex s s' : reads_only s s' → grows ex s s'.
Proof.
  intros (tr & -> & F & _). split; try done. by exists tr.
Qed.

(** *** Own properties as a list *)

Lemma lookup_prop_elem_of k p ps : lookup_prop k ps = Some p → (k, p) ∈ ps.
Proof.
  induction ps as [|[k0 p0] ps IH]; simpl; [done|].
  case_decide; subst.
  - intros [= ->]. apply list_elem_of_here.
  - intros Hl. apply list_elem_of_further. by apply IH.
Qed.

Lemma lookup_prop_is_Some k ps : k ∈ ps.*1 → is_Some (lookup_prop k ps).
Proof.
  induction ps as [|[k0 p0] ps IH]; simpl; [by intros ?%elem_of_nil|].
  case_decide; [by eexists|].
  intros [?|?]%elem_of_cons; [done|]. by apply IH.
Qed.

Lemma lookup_prop_unique k p ps :
  NoDup ps.*1 → (k, p) ∈ ps → lookup_prop k ps = Some p.
Proof.
  induction ps as [|[k0 p0] ps IH]; simpl; [by intros _ ?%elem_of_nil|].
  intros [Hk Hnd]%NoDup_cons [Heq|Hin]%elem_of_cons.
  - simplify_eq. by rewrite decide_True.
  - rewrite decide_False; [by apply IH|]. intros ->. apply Hk.
    by apply (list_elem_of_fmap_2 fst _ (k0, p)).
Qed.

Lemma elem_of_keys k o :
  k ∈ keys o ↔ ∃ p, (k, p) ∈ o_props o ∧ enumerable p = true.
Proof.
  unfold keys. rewrite list_elem_of_fmap. split.
  - intros ([k0 p] & -> & [He Hin]%list_elem_of_filter). by exists p.
  - intros (p & Hin & He). exists (k, p). split; [done|].
    by apply list_elem_of_filter.
Qed.

Lemma keys_NoDup o : NoDup (o_props o).*1 → NoDup (keys o).
Proof.
  unfold keys. induction (o_props o) as [|[k p] ps IH]; simpl; [done|].
  intros [Hk Hnd]%NoDup_cons. rewrite filter_cons. case_decide; simpl; [|auto].
  apply NoDup_cons. split; [|auto].
  intros ([k0 p0] & Hk0 & [_ Hin]%list_elem_of_filter)%list_elem_of_fmap.
  simpl in Hk0. subst k0.
  apply Hk. by apply (list_elem_of_fmap_2 fst _ (k, p0)).
Qed.

Lemma lookup_delete_prop_eq k ps :
  NoDup ps.*1 → lookup_prop k (delete_prop k ps) = None.
Proof.
  induction ps as [|[k0 p0] ps IH]; simpl; [done|].
  intros [Hk Hnd]%NoDup_cons. destruct (decide (k = k0)) as [->|Hne].
  - destruct (lookup_prop k0 ps) as [p|] eqn:E; [|done].
    destruct Hk. apply lookup_prop_elem_of in E.
    by apply (list_elem_of_fmap_2 fst _ (k0, p)).
  - simpl. rewrite decide_False by done. by apply IH.
Qed.

Section Further.

Context (cfg : config).
Context (user_get : nat → gmap nat val → val).
Context (user_set : nat → val → gmap nat val → gmap nat val).

#[local] Abbreviation observe' := (observe cfg user_get).
#[local] Abbreviation reactiveSetter' := (reactiveSetter cfg user_get user_set).
#[local] Abbreviation reactiveGetter' := (reactiveGetter user_get).
#[local] Abbreviation set' := (set cfg user_get user_set).
#[local] Abbreviation del' := (del cfg).

(** X12: [observe] returns nothing and changes nothing for a value that is not
    an object, for a VNode, and for an object without Observer when
    observation is switched off ([toggleObserving(false)]), on the
    server, or when the object is neither an array nor a plain object, is
    not extensible, or is a Vue instance. *)
Theorem observe_skips R v asRoot s :
  (isObject v = false → observe' R v asRoot s = Ok None s) ∧
  (∀ a, v = VObj a →
     (o_kind (obj_of s a) = VNode → observe' R v asRoot s = Ok None s) ∧
     (o_ob (obj_of s a) = None →
      shouldObserve s = false ∨ serverRendering cfg = true ∨
      o_kind (obj_of s a) = Other ∨ o_extensible (obj_of s a) = false ∨
      o_isVue (obj_of s a) = true →
        observe' R v asRoot s = Ok None s) ∧
     (o_ob (obj_of s a) = None →
        (toggleObserving false >> observe' R v asRoot) s =
          Ok None (set_shouldObserve false s))).
Proof.
  split; [by destruct v|]. intros a ->.
  assert (Hskip : ∀ s0, o_ob (obj_of s0 a) = None →
            shouldObserve s0 = false ∨ serverRendering cfg = true ∨
            o_kind (obj_of s0 a) = Other ∨ o_extensible (obj_of s0 a) = false ∨
            o_isVue (obj_of s0 a) = true →
            observe' R (VObj a) asRoot s0 = Ok None s0).
  { intros s0 Hob Hc. unfold observe, bind, gets, ret. rewrite Hob.
    case_bool_decide; [done|].
    assert (shouldObserve s0 && negb (serverRendering cfg) &&
            (bool_decide (o_kind (obj_of s0 a) = Array)
             || bool_decide (o_kind (obj_of s0 a) = Plain)) &&
            o_extensible (obj_of s0 a) && negb (o_isVue (obj_of s0 a)) = false)
      as ->; [|done].
    destruct Hc as [-> | [-> | [-> | [-> | ->]]]]; try done.
    - by rewrite andb_false_r.
    - rewrite !bool_decide_eq_false_2 by done. by rewrite !andb_false_r.
    - by rewrite andb_false_r.
    - by rewrite !andb_false_r. }
  split; [|split].
  - intros Hk. unfold observe, bind, gets, ret.
    by rewrite bool_decide_eq_true_2.
  - apply Hskip.
  - intros Hob. unfold bind at 1. unfold toggleObserving, modify.
    apply Hskip; [done|by left].
Qed.

(** X13: [observe] of an object that has an Observer returns that Observer
    and creates nothing; with [asRootData] it adds one to the Observer's
    [vmCount] and changes nothing else, without it it changes nothing. *)
Theorem observe_existing R a b s :
  o_kind (obj_of s a) ≠ VNode → o_ob (obj_of s a) = Some b →
  observe' R (VObj a) false s = Ok (Some b) s ∧
  ∃ s', observe' R (VObj a) true s = Ok (Some b) s' ∧
        ob_vmCount (obs_of s' b) = S (ob_vmCount (obs_of s b)) ∧
        ob_value (obs_of s' b) = ob_value (obs_of s b) ∧
        ob_dep (obs_of s' b) = ob_dep (obs_of s b) ∧
        (∀ b', b' ≠ b → observers s' !! b' = observers s !! b') ∧
        heap s' = heap s ∧ cells s' = cells s ∧ next_ob s' = next_ob s ∧
        next_cell s' = next_cell s ∧ dep_uid s' = dep_uid s ∧
        trace s' = trace s.
Proof.
  intros Hk Hob. split.
  - unfold observe, bind, gets, ret. rewrite Hob.
    by rewrite bool_decide_eq_false_2.
  - set (o' := {| ob_value := ob_value (obs_of s b); ob_dep := ob_dep (obs_of s b);
                  ob_vmCount := S (ob_vmCount (obs_of s b)) |}).
    exists (set_observers (<[b := o']> (observers s)) (next_ob s) s).
    assert (obs_of (set_observers (<[b := o']> (observers s)) (next_ob s) s) b = o')
      as Hb.
    { unfold obs_of at 1. simpl. by rewrite lookup_insert_eq. }
    split.
    { unfold observe, bind, gets, ret, modify. rewrite Hob.
      by rewrite bool_decide_eq_false_2. }
    rewrite Hb. split; [done|]. split; [done|]. split; [done|].
    split; [|done]. intros b' Hne. simpl. by rewrite lookup_insert_ne.
Qed.

(** The hooks read only. *)
Definition hooks_read (R : hooks) : Prop :=
  (∀ c, always reads_only (h_get R c)) ∧
  (∀ a, always reads_only (h_dependArray R a)).

Lemma depend_reads d : always reads_only (depend d).
Proof.
  unfold depend. apply always_gets_bind. intros s.
  destruct (tracking s) eqn:Ht; [|apply reads_only_refl].
  apply reads_only_emit; [done|]. congruence.
Qed.

Lemma call_getter_reads R w :
  hooks_read R → always reads_only (call_getter user_get R w).
Proof.
  intros [Hg _]. destruct w as [|[g|] f|c]; simpl.
  - apply always_ret, reads_only_refl.
  - apply always_bind; [apply reads_only_trans| |].
    + apply always_modify. intros s. by apply reads_only_emit.
    + intros _. apply always_gets, reads_only_refl.
  - apply always_ret, reads_only_refl.
  - apply Hg.
Qed.

Lemma current_value_reads R c :
  hooks_read R → always reads_only (current_value user_get R c).
Proof.
  intros HR. unfold current_value.
  apply always_bind; [apply reads_only_trans|apply always_gets, reads_only_refl|].
  intros w. destruct (has_getter w).
  - by apply call_getter_reads.
  - apply always_gets, reads_only_refl.
Qed.

Lemma depend_of_reads {A} (f : state → A) (g : A → nat) :
  always reads_only (let! x := gets f in depend (g x)).
Proof.
  apply always_bind; [apply reads_only_trans|apply always_gets, reads_only_refl|].
  intros x. apply depend_reads.
Qed.

Lemma dependArray_reads R a :
  hooks_read R → always reads_only (dependArray R a).
Proof.
  intros [_ Hd]. unfold dependArray.
  apply always_bind; [apply reads_only_trans|apply always_gets, reads_only_refl|].
  intros es. apply always_for_list; [apply reads_only_refl|apply reads_only_trans|].
  intros e. apply always_bind; [apply reads_only_trans| |].
  - destruct e; try apply always_ret, reads_only_refl.
    apply always_bind; [apply reads_only_trans|apply always_gets, reads_only_refl|].
    intros [o|]; [|apply always_ret, reads_only_refl].
    apply always_bind; [apply reads_only_trans|apply always_gets, reads_only_refl|].
    intros d. apply depend_reads.
  - intros _.
    apply always_bind; [apply reads_only_trans|apply always_gets, reads_only_refl|].
    intros arr. destruct e; try apply always_ret, reads_only_refl.
    destruct arr; [apply Hd|apply always_ret, reads_only_refl].
Qed.

Lemma reactiveGetter_reads R c :
  hooks_read R → always reads_only (reactiveGetter' R c).
Proof.
  intros HR. unfold reactiveGetter.
  apply always_bind; [apply reads_only_trans|by apply current_value_reads|].
  intros value.
  apply always_bind; [apply reads_only_trans|apply always_gets, reads_only_refl|].
  intros t. apply always_bind; [apply reads_only_trans| |].
  2: { intros _. apply always_ret, reads_only_refl. }
  destruct t; [|apply always_ret, reads_only_refl].
  apply always_bind; [apply reads_only_trans| |].
  { apply always_bind; [apply reads_only_trans|apply always_gets, reads_only_refl|].
    intros d. apply depend_reads. }
  intros _.
  apply always_bind; [apply reads_only_trans|apply always_gets, reads_only_refl|].
  intros [o|]; [|apply always_ret, reads_only_refl].
  apply always_bind; [apply reads_only_trans| |].
  { apply always_bind; [apply reads_only_trans|apply always_gets, reads_only_refl|].
    intros d. apply depend_reads. }
  intros _.
  apply always_bind; [apply reads_only_trans|apply always_gets, reads_only_refl|].
  intros arr. destruct value; try apply always_ret, reads_only_refl.
  destruct arr; [by apply dependArray_reads|apply always_ret, reads_only_refl].
Qed.

Lemma get_prop_reads R a k :
  hooks_read R → always reads_only (get_prop user_get R a k).
Proof.
  intros HR. unfold get_prop.
  apply always_bind; [apply reads_only_trans|apply always_gets, reads_only_refl|].
  intros o.
  assert (always reads_only
            match lookup_prop k (o_props o) with
            | Some (PData v _ _ _) => ret v
            | Some (PUser (Some g) _ _ _) =>
              modify (emit (EvGetter g)) >> gets (λ s, user_get g (user s))
            | Some (PUser None _ _ _) => ret VUndef
            | Some (PReactive c) => h_get R c
            | None => ret VUndef
            end) as Hp.
  { destruct (lookup_prop k (o_props o)) as [[v w e c|[g|] f e c|c]|];
      try apply always_ret, reads_only_refl.
    - apply always_bind; [apply reads_only_trans| |].
      + apply always_modify. intros s. by apply reads_only_emit.
      + intros _. apply always_gets, reads_only_refl.
    - apply HR. }
  destruct (o_kind o); try done.
  destruct k; [done|]. apply always_ret, reads_only_refl.
Qed.

Lemma hooks_at_read n : hooks_read (hooks_at cfg user_get user_set n).
Proof.
  induction n as [|n IH]; [by split|].
  split; simpl.
  - intros c. by apply reactiveGetter_reads.
  - intros a. by apply dependArray_reads.
Qed.

(** X14: Reading a property of an object, through a reactive accessor or
    not, changes nothing but the log, however the accessors nest: no
    object, closure, Observer or variable of the user changes, no id is
    consumed, no Dep is notified and no setter called; the only events
    are calls of getters of the user and of [dep.depend()], and without
    a current consumer no Dep is told anything.  So do the accessor
    [reactiveGetter] itself and [dependArray]. *)
Theorem reads_change_nothing n s :
  (∀ a k, ends reads_only s
            (get_prop user_get (hooks_at cfg user_get user_set n) a k s)) ∧
  (∀ c, ends reads_only s
          (reactiveGetter' (hooks_at cfg user_get user_set n) c s)) ∧
  (∀ a, ends reads_only s (dependArray (hooks_at cfg user_get user_set n) a s)).
Proof.
  pose proof (hooks_at_read n) as HR.
  split; [|split]; intros.
  - by apply get_prop_reads.
  - by apply reactiveGetter_reads.
  - by apply dependArray_reads.
Qed.

(** The hooks read only, and [observe(value)] only grows the state. *)
Definition hooks_grow (R : hooks) : Prop :=
  hooks_read R ∧ ∀ v, always (grows None) (h_observe R v false).

Lemma new_Dep_grows ex : always (grows ex) new_Dep.
Proof. intros s. split; simpl; try done; try lia. exists []. by rewrite app_nil_r. Qed.

Lemma child_grows R ex (sh : bool) v :
  hooks_grow R →
  always (grows ex) (if sh then ret None else h_observe R v false).
Proof.
  intros [_ Ho]. destruct sh; [apply always_ret, grows_refl|].
  intros s. eapply ends_impl; [|apply Ho]. intros s'. apply grows_weaken.
Qed.

Lemma install_grows a k c d v childOb sh cs w s :
  c = next_cell s →
  grows (Some a) s
    (set_obj a (with_props (define_prop k (PReactive c) (o_props (obj_of s a)))
                  (obj_of s a))
       (set_cells
          (<[c := {| c_dep := d; c_val := v; c_childOb := childOb;
                     c_shallow := sh; c_customSetter := cs;
                     c_wrapped := w |}]> (cells s)) (S c) s)).
Proof.
  intros ->. split; simpl; try done; try lia.
  - intros c Hc. rewrite lookup_insert_ne; [done|lia].
  - exists []. by rewrite app_nil_r.
  - intros a'. rewrite obj_of_set_obj. case_decide; [subst|done]. done.
  - intros a' Ha _. rewrite obj_of_set_obj. rewrite decide_False; [done|].
    congruence.
Qed.

Lemma defineReactive_grows R a k val cs sh :
  hooks_grow R → always (grows (Some a)) (defineReactive user_get R a k val cs sh).
Proof.
  intros HR. pose proof HR as [Hread _]. unfold defineReactive.
  apply always_bind; [apply grows_trans|apply new_Dep_grows|]. intros d.
  apply always_bind; [apply grows_trans|apply always_gets, grows_refl|].
  intros o. destruct (bool_decide _); [apply always_ret, grows_refl|].
  apply always_bind; [apply grows_trans| |].
  { destruct val as [v|]; [apply always_ret, grows_refl|].
    destruct (negb _ || _); [|apply always_ret, grows_refl].
    intros s. eapply ends_impl; [|by apply get_prop_reads].
    intros s'. apply reads_only_grows. }
  intros v. apply always_bind; [apply grows_trans|by apply child_grows|].
  intros childOb. apply always_gets_bind. intros s.
  destruct (bool_decide _ && negb _); [apply grows_refl|].
  simpl. by apply install_grows.
Qed.

Lemma walk_grows R a : hooks_grow R → always (grows (Some a)) (walk user_get R a).
Proof.
  intros HR. unfold walk.
  apply always_bind; [apply grows_trans|apply always_gets, grows_refl|].
  intros ks. apply always_for_list; [apply grows_refl|apply grows_trans|].
  intros k. by apply defineReactive_grows.
Qed.

Lemma observeArray_grows R ex items :
  hooks_grow R → always (grows ex) (observeArray R items).
Proof.
  intros [_ Ho]. unfold observeArray.
  apply always_for_list; [apply grows_refl|apply grows_trans|].
  intros v. apply always_bind; [apply grows_trans| |].
  - intros s. eapply ends_impl; [|apply Ho]. intros s'. apply grows_weaken.
  - intros _. apply always_ret, grows_refl.
Qed.

(** The state in which [new Observer(value)] starts to walk the object
    at [a]: the Dep and the Observer are allocated and [__ob__] is set. *)
Definition attached (a : nat) (s : state) : state :=
  set_obj a (with_ob (Some (next_ob s)) (obj_of s a))
    (set_observers
       (<[next_ob s := {| ob_value := a; ob_dep := dep_uid s; ob_vmCount := 0 |}]>
          (observers s)) (S (next_ob s))
       (set_dep_uid (S (dep_uid s)) s)).

Lemma new_Observer_unfold R a s :
  new_Observer user_get R a s =
    match (if bool_decide (o_kind (obj_of s a) = Array)
           then observeArray R (o_elems (obj_of s a))
           else walk user_get R a) (attached a s) with
    | Ok _ s' => Ok (next_ob s) s'
    | Exn e s' => Exn e s'
    | Fuel => Fuel
    end.
Proof.
  unfold new_Observer, bind, new_Dep, gets, modify, ret. simpl.
  change (obj_of (set_observers ?o ?n (set_dep_uid ?m ?x)) ?y) with (obj_of x y).
  fold (attached a s).
  assert (obj_of (attached a s) a = with_ob (Some (next_ob s)) (obj_of s a)) as ->.
  { unfold attached. by rewrite obj_of_set_obj, decide_True. }
  simpl. by destruct (bool_decide (o_kind (obj_of s a) = Array)).
Qed.

Lemma attached_grows a s :
  o_ob (obj_of s a) = None → grows None s (attached a s).
Proof.
  intros Hob. split; simpl; try done; try lia.
  - intros b Hb. rewrite lookup_insert_ne; [done|lia].
  - exists []. by rewrite app_nil_r.
  - intros a'. unfold attached. rewrite obj_of_set_obj.
    case_decide; [subst|done]. simpl. repeat split; try done.
    intros b. by rewrite Hob.
  - intros a' _ Ha'. unfold attached. rewrite obj_of_set_obj.
    case_decide; [subst|done]. rewrite Hob in Ha'. by destruct Ha'.
Qed.

Lemma new_Observer_grows R a s :
  hooks_grow R → o_ob (obj_of s a) = None →
  ends (grows None) s (new_Observer user_get R a s).
Proof.
  intros HR Hob. rewrite new_Observer_unfold.
  pose proof (attached_grows a s Hob) as H1.
  assert (ends (grows (Some a)) (attached a s)
            ((if bool_decide (o_kind (obj_of s a) = Array)
              then observeArray R (o_elems (obj_of s a))
              else walk user_get R a) (attached a s))) as H2.
  { destruct (bool_decide _); [by apply observeArray_grows|by apply walk_grows]. }
  destruct ((if bool_decide (o_kind (obj_of s a) = Array)
             then observeArray R (o_elems (obj_of s a))
             else walk user_get R a) (attached a s)) as [[] s'|e s'|];
    simpl in *; [| |done].
  all: apply (grows_unobserved a); [|done].
  all: apply (grows_trans _ _ (attached a s)); [by apply grows_weaken|done].
Qed.

(** The conditions under which [observe] creates an Observer. *)
Definition observable (s : state) (a : nat) : bool :=
  shouldObserve s && negb (serverRendering cfg) &&
  (bool_decide (o_kind (obj_of s a) = Array) ||
   bool_decide (o_kind (obj_of s a) = Plain)) &&
  o_extensible (obj_of s a) && negb (o_isVue (obj_of s a)).

Lemma observe_new R a s :
  o_kind (obj_of s a) ≠ VNode → o_ob (obj_of s a) = None →
  observable s a = true →
  observe' R (VObj a) false s =
    match new_Observer user_get R a s with
    | Ok b s' => Ok (Some b) s'
    | Exn e s' => Exn e s'
    | Fuel => Fuel
    end.
Proof.
  intros Hk Hob Hc. unfold observe, bind at 1, gets at 1.
  rewrite bool_decide_eq_false_2 by done. rewrite Hob.
  unfold bind at 1. unfold bind at 1. unfold gets at 1.
  unfold observable in Hc. rewrite Hc.
  unfold bind at 1.
  by destruct (new_Observer user_get R a s) as [b s'|e s'|].
Qed.

Lemma observe_grows R v :
  hooks_grow R → always (grows None) (observe' R v false).
Proof.
  intros HR s. destruct v as [| | | | | |a]; try apply grows_refl.
  destruct (decide (o_kind (obj_of s a) = VNode)) as [Hk|Hk].
  { unfold observe, bind, gets, ret. rewrite bool_decide_eq_true_2 by done.
    apply grows_refl. }
  destruct (o_ob (obj_of s a)) as [b|] eqn:Hob.
  { unfold observe, bind, gets, ret. rewrite bool_decide_eq_false_2 by done.
    rewrite Hob. apply grows_refl. }
  destruct (observable s a) eqn:Hc.
  - rewrite observe_new by done.
    pose proof (new_Observer_grows R a s HR Hob) as H.
    by destruct (new_Observer user_get R a s).
  - unfold observe, bind, gets, ret. rewrite bool_decide_eq_false_2 by done.
    rewrite Hob. unfold observable in Hc. rewrite Hc. apply grows_refl.
Qed.

Lemma hooks_at_grow n : hooks_grow (hooks_at cfg user_get user_set n).
Proof.
  induction n as [|n IH]; [split; [apply hooks_at_read|done]|].
  split; [apply hooks_at_read|]. intros v. simpl. by apply observe_grows.
Qed.

(** [ob.vmCount++] *)
Definition count_vm (b : nat) (s : state) : state :=
  set_observers
    (<[b := {| ob_value := ob_value (obs_of s b); ob_dep := ob_dep (obs_of s b);
               ob_vmCount := S (ob_vmCount (obs_of s b)) |}]> (observers s))
    (next_ob s) s.

(** X15: However deep the value nests, [observe(value)] only adds: the
    closures and Observers that existed are unchanged, ids are only
    consumed, an object that had an Observer is untouched, every object
    keeps its kind, its elements and its Observer, the variables of the
    user and the flags are as before, and nothing is logged but reads: no
    Dep is notified and no setter called.  [observe(value, true)] is
    [observe(value)] followed by [vmCount++] on the Observer returned. *)
Theorem observe_only_grows n v s :
  ends (grows None) s
    (observe' (hooks_at cfg user_get user_set n) v false s) ∧
  ∀ R, observe' R v true s =
       match observe' R v false s with
       | Ok (Some b) s' => Ok (Some b) (count_vm b s')
       | r => r
       end.
Proof.
  split; [apply observe_grows, hooks_at_grow|].
  intros R. destruct v as [| | | | | |a]; try done.
  unfold observe, bind, gets, ret, modify, count_vm.
  destruct (bool_decide (o_kind (obj_of s a) = VNode)); [done|].
  destruct (o_ob (obj_of s a)) as [b|]; [done|].
  destruct (shouldObserve s && negb (serverRendering cfg) &&
            (bool_decide (o_kind (obj_of s a) = Array)
             || bool_decide (o_kind (obj_of s a) = Plain)) &&
            o_extensible (obj_of s a) && negb (o_isVue (obj_of s a))); [|done].
  by destruct (new_Observer user_get R a s) as [b s'|e s'|].
Qed.

(** X16: When [observe] of an object without Observer returns an Observer,
    it is a new one: it has the next Observer id, a new Dep, [vmCount]
    0 and the object as its [value], and the object holds it as
    [__ob__]; observing the object again returns the same Observer and
    changes nothing. *)
Theorem observe_attaches n a s b s' :
  o_ob (obj_of s a) = None →
  observe' (hooks_at cfg user_get user_set n) (VObj a) false s = Ok (Some b) s' →
  b = next_ob s ∧ o_ob (obj_of s' a) = Some b ∧
  observers s' !! b =
    Some {| ob_value := a; ob_dep := dep_uid s; ob_vmCount := 0 |} ∧
  dep_uid s < dep_uid s' ∧ next_ob s < next_ob s' ∧
  ∀ R, observe' R (VObj a) false s' = Ok (Some b) s'.
Proof.
  intros Hob Hrun. set (R := hooks_at cfg user_get user_set n) in *.
  assert (hooks_grow R) as HR by apply hooks_at_grow.
  destruct (decide (o_kind (obj_of s a) = VNode)) as [Hk|Hk].
  { unfold observe, bind, gets, ret in Hrun.
    by rewrite bool_decide_eq_true_2 in Hrun. }
  destruct (observable s a) eqn:Hc.
  2: { unfold observe, bind, gets, ret in Hrun.
       rewrite bool_decide_eq_false_2, Hob in Hrun by done.
       unfold observable in Hc. by rewrite Hc in Hrun. }
  rewrite observe_new, new_Observer_unfold in Hrun by done.
  assert (ends (grows (Some a)) (attached a s)
            ((if bool_decide (o_kind (obj_of s a) = Array)
              then observeArray R (o_elems (obj_of s a))
              else walk user_get R a) (attached a s))) as H2.
  { destruct (bool_decide _); [by apply observeArray_grows|by apply walk_grows]. }
  destruct ((if bool_decide (o_kind (obj_of s a) = Array)
             then observeArray R (o_elems (obj_of s a))
             else walk user_get R a) (attached a s)) as [[] s1|e s1|];
    simpl in *; [|done|done].
  injection Hrun as <- <-.
  assert (o_ob (obj_of (attached a s) a) = Some (next_ob s)) as Hat.
  { unfold attached. by rewrite obj_of_set_obj, decide_True. }
  destruct (g_shape _ _ _ H2 a) as (K1 & _ & _ & _ & K5).
  split; [done|]. split; [by apply K5|]. split.
  { rewrite (g_observers _ _ _ H2) by (simpl; lia). simpl.
    by rewrite lookup_insert_eq. }
  split. { pose proof (g_dep_uid _ _ _ H2) as H. simpl in H. lia. }
  split. { pose proof (g_next_ob _ _ _ H2) as H. simpl in H. lia. }
  intros R'. unfold observe, bind, gets, ret.
  rewrite bool_decide_eq_false_2.
  - by rewrite (K5 _ Hat).
  - rewrite K1. unfold attached. by rewrite obj_of_set_obj, decide_True.
Qed.

(** What [defineReactive] finds on the property and delegates to. *)
Definition wrap (p : prop) : wrapped :=
  match p with
  | PUser g f _ _ => WUser g f
  | PReactive c => WCell c
  | PData _ _ _ _ => WData
  end.

Lemma get_prop_data R a k v w e cf s :
  o_kind (obj_of s a) ≠ Array →
  lookup_prop k (o_props (obj_of s a)) = Some (PData v w e cf) →
  get_prop user_get R a k s = Ok v s.
Proof.
  intros Hk Hp. unfold get_prop, bind, gets. rewrite Hp.
  destruct (o_kind (obj_of s a)); try done.
Qed.

Lemma defineReactive_own R a k p s s' :
  hooks_grow R → is_Some (o_ob (obj_of s a)) →
  lookup_prop k (o_props (obj_of s a)) = Some p → configurable p = true →
  defineReactive user_get R a k None false false s = Ok tt s' →
  ∃ c, next_cell s ≤ c < next_cell s' ∧
       o_props (obj_of s' a) =
         define_prop k (PReactive c) (o_props (obj_of s a)) ∧
       c_wrapped (cell_of s' c) = wrap p ∧
       c_dep (cell_of s' c) = dep_uid s ∧ dep_uid s < dep_uid s' ∧
       (o_kind (obj_of s a) ≠ Array → ∀ v w e cf,
          p = PData v w e cf → c_val (cell_of s' c) = v).
Proof.
  intros HR Hob Hp Hc Hrun. pose proof HR as [Hread Hobs].
  unfold defineReactive in Hrun. unfold bind at 1 in Hrun.
  unfold new_Dep at 1 in Hrun. unfold bind at 1 in Hrun.
  unfold gets at 1 in Hrun.
  change (obj_of (set_dep_uid ?n ?x) ?y) with (obj_of x y) in Hrun.
  rewrite Hp in Hrun. simpl fmap in Hrun.
  rewrite bool_decide_eq_false_2 in Hrun by (cbn; rewrite Hc; done).
  unfold bind at 1 in Hrun. fold (wrap p) in Hrun.
  set (s1 := set_dep_uid (S (dep_uid s)) s) in *.
  set (G := if negb (has_getter (wrap p)) || has_setter (wrap p)
            then get_prop user_get R a k else ret VUndef) in *.
  assert (ends reads_only s1 (G s1)) as HG.
  { unfold G. destruct (negb _ || _); [by apply get_prop_reads|].
    apply reads_only_refl. }
  assert (HGv : o_kind (obj_of s a) ≠ Array → ∀ v w e cf,
            p = PData v w e cf → G s1 = Ok v s1).
  { intros Hk v w e cf ->. unfold G. simpl.
    by apply (get_prop_data R a k v w e cf s1). }
  destruct (G s1) as [v0 s2|e s2|] eqn:EG; [|done|done].
  destruct HG as (tr & -> & _).
  unfold bind at 1 in Hrun.
  pose proof (Hobs v0 (logged tr s1)) as HO.
  destruct (h_observe R v0 false (logged tr s1)) as [ob s3|e s3|] eqn:EO;
    [|done|done].
  simpl in HO.
  assert (obj_of s3 a = obj_of s a) as Ho3.
  { by apply (g_heap _ _ _ HO). }
  unfold bind at 1 in Hrun. unfold gets at 1 in Hrun.
  rewrite Ho3, Hp in Hrun. rewrite bool_decide_eq_false_2 in Hrun by done.
  cbn [andb] in Hrun. unfold bind, gets, modify in Hrun.
  injection Hrun as <-.
  exists (next_cell s3).
  pose proof (g_next_cell _ _ _ HO) as Hn. simpl in Hn.
  split; [simpl; lia|].
  split. { by rewrite obj_of_set_obj, decide_True. }
  assert (cell_of
            (set_obj a
               (with_props (define_prop k (PReactive (next_cell s3))
                              (o_props (obj_of s a))) (obj_of s a))
               (set_cells
                  (<[next_cell s3 := {| c_dep := dep_uid s; c_val := v0;
                                       c_childOb := ob; c_shallow := false;
                                       c_customSetter := false;
                                       c_wrapped := wrap p |}]> (cells s3))
                  (S (next_cell s3)) s3)) (next_cell s3) =
          {| c_dep := dep_uid s; c_val := v0; c_childOb := ob;
             c_shallow := false; c_customSetter := false;
             c_wrapped := wrap p |}) as ->.
  { unfold cell_of. simpl. by rewrite lookup_insert_eq. }
  split; [done|]. split; [done|].
  split. { pose proof (g_dep_uid _ _ _ HO) as Hd. simpl in *. lia. }
  intros Hk v w e cf Hpd. specialize (HGv Hk v w e cf Hpd). by simplify_eq.
Qed.

Lemma defineReactive_fixed R a k p val cs sh s :
  lookup_prop k (o_props (obj_of s a)) = Some p → configurable p = false →
  defineReactive user_get R a k val cs sh s =
    Ok tt (set_dep_uid (S (dep_uid s)) s).
Proof.
  intros Hp Hc. unfold defineReactive, bind, new_Dep, gets, ret.
  change (obj_of (set_dep_uid ?n ?x) ?y) with (obj_of x y).
  rewrite Hp. cbn. by rewrite Hc, bool_decide_eq_true_2.
Qed.

(** What the loop of [walk] has done to an own property [p] at key [k]
    when it ended in [s']. *)
Definition walked (a : nat) (s s' : state) (k : key) (p : prop) : Prop :=
  if configurable p
  then ∃ c, next_cell s ≤ c < next_cell s' ∧
            lookup_prop k (o_props (obj_of s' a)) = Some (PReactive c) ∧
            c_wrapped (cell_of s' c) = wrap p ∧
            dep_uid s ≤ c_dep (cell_of s' c) < dep_uid s' ∧
            ∀ v w e cf, p = PData v w e cf → c_val (cell_of s' c) = v
  else lookup_prop k (o_props (obj_of s' a)) = Some p.

Lemma walk_loop R a ks :
  hooks_grow R → ∀ s s',
  is_Some (o_ob (obj_of s a)) → o_kind (obj_of s a) ≠ Array → NoDup ks →
  (∀ k, k ∈ ks → is_Some (lookup_prop k (o_props (obj_of s a)))) →
  for_list (λ k, defineReactive user_get R a k None false false) ks s = Ok tt s' →
  grows (Some a) s s' ∧
  (∀ k, k ∉ ks → lookup_prop k (o_props (obj_of s' a)) =
                  lookup_prop k (o_props (obj_of s a))) ∧
  (∀ k p, k ∈ ks → lookup_prop k (o_props (obj_of s a)) = Some p →
          walked a s s' k p).
Proof.
  intros HR. induction ks as [|k ks IH]; intros s s' Hob Hkind Hnd Hown Hrun.
  { simpl in Hrun. injection Hrun as <-. split; [apply grows_refl|].
    split; [done|]. intros k p Hk. by apply elem_of_nil in Hk. }
  apply NoDup_cons in Hnd as [Hk Hnd].
  simpl in Hrun. unfold bind at 1 in Hrun.
  pose proof (defineReactive_grows R a k None false false HR s) as G1.
  destruct (defineReactive user_get R a k None false false s)
    as [[] s1|e s1|] eqn:E1; [|done|done].
  simpl in G1.
  destruct (Hown k) as [p0 Hp0]; [apply list_elem_of_here|].
  destruct (g_shape _ _ _ G1 a) as (K1 & _ & _ & _ & K5).
  assert (F1 : ∀ k', k' ≠ k →
            lookup_prop k' (o_props (obj_of s1 a)) =
            lookup_prop k' (o_props (obj_of s a))).
  { intros k' Hne. destruct (configurable p0) eqn:Hc.
    - destruct (defineReactive_own R a k p0 s s1 HR Hob Hp0 Hc E1)
        as (c & _ & -> & _).
      by rewrite lookup_define_prop, decide_False.
    - rewrite (defineReactive_fixed R a k p0 None false false s Hp0 Hc) in E1.
      by injection E1 as <-. }
  destruct (IH s1 s') as (G2 & U2 & W2); try done.
  { destruct Hob as [b Hb]. exists b. by apply K5. }
  { by rewrite K1. }
  { intros k' Hk'. rewrite F1; [apply Hown; by apply list_elem_of_further|].
    intros ->. done. }
  split; [by eapply grows_trans|]. split.
  { intros k' [Hne Hk']%not_elem_of_cons. rewrite U2 by done. by apply F1. }
  intros k' p [->|Hin]%elem_of_cons Hp.
  - assert (p = p0) as -> by congruence. unfold walked.
    destruct (configurable p0) eqn:Hc.
    + destruct (defineReactive_own R a k p0 s s1 HR Hob Hp0 Hc E1)
        as (c & Hc1 & Hprops & Hw & Hd & Hdu & Hv).
      assert (cell_of s' c = cell_of s1 c) as Hcell.
      { unfold cell_of. rewrite (g_cells _ _ _ G2); [done|lia]. }
      exists c. pose proof (g_next_cell _ _ _ G2). pose proof (g_dep_uid _ _ _ G2).
      split; [lia|]. split.
      { rewrite U2 by done. rewrite Hprops.
        by rewrite lookup_define_prop, decide_True. }
      rewrite Hcell. split; [done|]. split; [lia|]. by apply Hv.
    + rewrite U2 by done.
      rewrite (defineReactive_fixed R a k p0 None false false s Hp0 Hc) in E1.
      by injection E1 as <-.
  - assert (k' ≠ k) as Hne by (intros ->; done).
    rewrite <- F1 in Hp by done. specialize (W2 k' p Hin Hp).
    unfold walked in *. destruct (configurable p); [|done].
    destruct W2 as (c & Hc1 & Hl & Hw & Hd & Hv).
    exists c. pose proof (g_next_cell _ _ _ G1). pose proof (g_dep_uid _ _ _ G1).
    split; [lia|]. split; [done|]. split; [done|]. split; [lia|done].
Qed.

(** X17: When [observe] of a plain object without Observer returns one,
    every own property that is enumerable and configurable has become a
    reactive accessor with a closure and a Dep of its own, both new; the
    closure delegates to the accessor functions the property had and
    holds the value of a data property.  Every other own property is as
    it was, and no key was added. *)
Theorem observe_makes_reactive n a s b s' :
  o_ob (obj_of s a) = None → o_kind (obj_of s a) = Plain →
  NoDup (o_props (obj_of s a)).*1 →
  observe' (hooks_at cfg user_get user_set n) (VObj a) false s = Ok (Some b) s' →
  (∀ k p, lookup_prop k (o_props (obj_of s a)) = Some p →
     if enumerable p && configurable p
     then ∃ c, next_cell s ≤ c < next_cell s' ∧
               lookup_prop k (o_props (obj_of s' a)) = Some (PReactive c) ∧
               c_wrapped (cell_of s' c) = wrap p ∧
               dep_uid s < c_dep (cell_of s' c) < dep_uid s' ∧
               ∀ v w e cf, p = PData v w e cf → c_val (cell_of s' c) = v
     else lookup_prop k (o_props (obj_of s' a)) = Some p) ∧
  (∀ k, lookup_prop k (o_props (obj_of s a)) = None →
        lookup_prop k (o_props (obj_of s' a)) = None).
Proof.
  intros Hob Hkind Hnd Hrun. set (R := hooks_at cfg user_get user_set n) in *.
  assert (hooks_grow R) as HR by apply hooks_at_grow.
  destruct (observable s a) eqn:Hc.
  2: { unfold observe, bind, gets, ret in Hrun.
       rewrite bool_decide_eq_false_2, Hob in Hrun by (by rewrite Hkind).
       unfold observable in Hc. by rewrite Hc in Hrun. }
  rewrite observe_new, new_Observer_unfold in Hrun by (done || by rewrite Hkind).
  rewrite bool_decide_eq_false_2 in Hrun by (by rewrite Hkind).
  assert (obj_of (attached a s) a = with_ob (Some (next_ob s)) (obj_of s a)) as Hat.
  { unfold attached. by rewrite obj_of_set_obj, decide_True. }
  unfold walk in Hrun. unfold bind at 1 in Hrun. unfold gets at 1 in Hrun.
  destruct (for_list (λ k, defineReactive user_get R a k None false false)
              (keys (obj_of (attached a s) a)) (attached a s))
    as [[] s1|e s1|] eqn:Hloop; [|done|done].
  injection Hrun as _ <-.
  assert (keys (obj_of (attached a s) a) = keys (obj_of s a)) as Hkeys
    by by rewrite Hat.
  rewrite Hkeys in Hloop.
  destruct (walk_loop R a (keys (obj_of s a)) HR (attached a s) s1)
    as (G & U & W); try done.
  { rewrite Hat. by eexists. }
  { rewrite Hat. simpl. by rewrite Hkind. }
  { by apply keys_NoDup. }
  { intros k (p & Hin & _)%elem_of_keys. rewrite Hat. simpl.
    apply lookup_prop_is_Some. by apply (list_elem_of_fmap_2 fst _ (k, p)). }
  rewrite Hat in U, W. simpl in U, W.
  split.
  - intros k p Hp.
    destruct (enumerable p) eqn:He; simpl.
    + assert (k ∈ keys (obj_of s a)) as Hk.
      { apply elem_of_keys. exists p. split; [|done].
        by apply lookup_prop_elem_of. }
      specialize (W k p Hk Hp). unfold walked in W.
      destruct (configurable p); [|done].
      destruct W as (c & Hc1 & Hl & Hw & Hd & Hv).
      exists c. simpl in *. split; [done|]. split; [done|]. split; [done|].
      split; [lia|done].
    + rewrite U; [done|].
      intros (p' & Hin & He')%elem_of_keys.
      rewrite (lookup_prop_unique k p' _ Hnd Hin) in Hp. congruence.
  - intros k Hk. rewrite U; [done|].
    intros (p' & Hin & _)%elem_of_keys.
    rewrite (lookup_prop_unique k p' _ Hnd Hin) in Hk. done.
Qed.

(** *** A write and the read after it *)

Lemma same_value_eq a b : same_value a b = true → a = b.
Proof.
  assert (Hself : ∀ x, negb (strict_eq x x) = true → x = VNaN).
  { intros x. destruct x; simpl; try done;
      by rewrite bool_decide_eq_true_2. }
  unfold same_value. intros [H|[H1 H2]%andb_true_iff]%orb_true_iff.
  - destruct a, b; simpl in H; try done; by apply bool_decide_eq_true in H.
  - by rewrite (Hself a H1), (Hself b H2).
Qed.

Lemma current_value_data R c s :
  c_wrapped (cell_of s c) = WData →
  current_value user_get R c s = Ok (c_val (cell_of s c)) s.
Proof. intros Hw. unfold current_value, bind, gets. by rewrite Hw. Qed.

Lemma reactiveGetter_data R c s :
  c_wrapped (cell_of s c) = WData →
  (tracking s = false → reactiveGetter' R c s = Ok (c_val (cell_of s c)) s) ∧
  (∀ v s', reactiveGetter' R c s = Ok v s' → v = c_val (cell_of s c)).
Proof.
  intros Hw. split.
  - intros Ht. unfold reactiveGetter, bind.
    rewrite (current_value_data R c s Hw). unfold gets. by rewrite Ht.
  - intros v s'. unfold reactiveGetter. unfold bind at 1.
    rewrite (current_value_data R c s Hw). unfold bind at 1. unfold gets at 1.
    unfold bind at 1.
    match goal with |- context [match ?m s with _ => _ end] =>
      destruct (m s) as [[] s1|e s1|] end; unfold ret; intros; by simplify_eq.
Qed.


(** *** [del] on objects, [set] and [del] on arrays *)

(** [ob.dep.notify()] when the object has an Observer. *)
Definition notified (s : state) (a : nat) : list event :=
  match o_ob (obj_of s a) with
  | Some b => [EvNotify (ob_dep (obs_of s b))]
  | None => []
  end.



(** *** Nested values *)

Lemma for_list_split {A} (f : A → M unit) ks1 k ks2 s s' :
  for_list f (ks1 ++ k :: ks2) s = Ok tt s' →
  ∃ s1 s2, for_list f ks1 s = Ok tt s1 ∧ f k s1 = Ok tt s2 ∧
           for_list f ks2 s2 = Ok tt s'.
Proof.
  revert s. induction ks1 as [|k0 ks1 IH]; intros s; simpl.
  - unfold bind at 1. destruct (f k s) as [[] s2|e s2|] eqn:E; [|done|done].
    intros H. by exists s, s2.
  - unfold bind at 1. destruct (f k0 s) as [[] s0|e s0|] eqn:E; [|done|done].
    intros (s1 & s2 & H1 & H2 & H3)%IH. exists s1, s2.
    split; [|done]. unfold bind. by rewrite E.
Qed.

(** What [observe(value)] returns is what the object holds as [__ob__]
    afterwards, and it is an Observer when the object had one or can be
    observed. *)
Lemma observe_returns R a s ob s' :
  hooks_grow R → o_kind (obj_of s a) ≠ VNode →
  observe' R (VObj a) false s = Ok ob s' →
  o_ob (obj_of s' a) = ob ∧
  (is_Some (o_ob (obj_of s a)) ∨ observable s a = true → is_Some ob).
Proof.
  intros HR Hk Hrun.
  destruct (o_ob (obj_of s a)) as [b|] eqn:Hob.
  { unfold observe, bind, gets, ret in Hrun.
    rewrite bool_decide_eq_false_2, Hob in Hrun by done.
    injection Hrun as <- <-. split; [done|]. by eexists. }
  destruct (observable s a) eqn:Hc.
  2: { unfold observe, bind, gets, ret in Hrun.
       rewrite bool_decide_eq_false_2, Hob in Hrun by done.
       unfold observable in Hc. rewrite Hc in Hrun.
       injection Hrun as <- <-. split; [done|].
       intros [[? ?]|?]; done. }
  rewrite observe_new, new_Observer_unfold in Hrun by done.
  assert (ends (grows (Some a)) (attached a s)
            ((if bool_decide (o_kind (obj_of s a) = Array)
              then observeArray R (o_elems (obj_of s a))
              else walk user_get R a) (attached a s))) as H2.
  { destruct (bool_decide _); [by apply observeArray_grows|by apply walk_grows]. }
  destruct ((if bool_decide (o_kind (obj_of s a) = Array)
             then observeArray R (o_elems (obj_of s a))
             else walk user_get R a) (attached a s)) as [[] s1|e s1|];
    simpl in *; [|done|done].
  injection Hrun as <- <-.
  destruct (g_shape _ _ _ H2 a) as (_ & _ & _ & _ & K5).
  split; [|by eexists]. apply K5. unfold attached.
  by rewrite obj_of_set_obj, decide_True.
Qed.

Lemma defineReactive_child R a k v w e s s' :
  hooks_grow R → is_Some (o_ob (obj_of s a)) → o_kind (obj_of s a) ≠ Array →
  lookup_prop k (o_props (obj_of s a)) = Some (PData v w e true) →
  defineReactive user_get R a k None false false s = Ok tt s' →
  ∃ c s3, next_cell s ≤ c < next_cell s' ∧
          lookup_prop k (o_props (obj_of s' a)) = Some (PReactive c) ∧
          h_observe R v false (set_dep_uid (S (dep_uid s)) s)
            = Ok (c_childOb (cell_of s' c)) s3 ∧
          grows (Some a) s3 s'.
Proof.
  intros HR Hob Hkind Hp Hrun. pose proof HR as [Hread Hobs].
  unfold defineReactive in Hrun. unfold bind at 1 in Hrun.
  unfold new_Dep at 1 in Hrun. unfold bind at 1 in Hrun.
  unfold gets at 1 in Hrun.
  change (obj_of (set_dep_uid ?n ?x) ?y) with (obj_of x y) in Hrun.
  rewrite Hp in Hrun. simpl fmap in Hrun.
  rewrite bool_decide_eq_false_2 in Hrun by done.
  unfold bind at 1 in Hrun. cbv iota in Hrun.
  cbn [has_getter has_setter negb orb] in Hrun.
  set (s1 := set_dep_uid (S (dep_uid s)) s) in *.
  rewrite (get_prop_data R a k v w e true s1) in Hrun by done.
  unfold bind at 1 in Hrun.
  pose proof (Hobs v s1) as HO.
  destruct (h_observe R v false s1) as [ob s3|e0 s3|] eqn:EO; [|done|done].
  simpl in HO.
  assert (obj_of s3 a = obj_of s a) as Ho3 by by apply (g_heap _ _ _ HO).
  unfold bind at 1 in Hrun. unfold gets at 1 in Hrun.
  rewrite Ho3, Hp in Hrun. rewrite bool_decide_eq_false_2 in Hrun by done.
  cbn [andb] in Hrun. unfold bind, gets, modify in Hrun.
  injection Hrun as <-.
  exists (next_cell s3), s3.
  pose proof (g_next_cell _ _ _ HO) as Hn. simpl in Hn.
  split; [simpl; lia|].
  split. { rewrite obj_of_set_obj, decide_True by done. simpl.
           by rewrite lookup_define_prop, decide_True. }
  split. { unfold cell_of. simpl. by rewrite lookup_insert_eq. }
  rewrite <- Ho3. by apply install_grows.
Qed.

Lemma hooks_at_returns n a s ob s' :
  o_kind (obj_of s a) ≠ VNode →
  h_observe (hooks_at cfg user_get user_set n) (VObj a) false s = Ok ob s' →
  o_ob (obj_of s' a) = ob ∧
  (is_Some (o_ob (obj_of s a)) ∨ observable s a = true → is_Some ob).
Proof.
  destruct n as [|n]; [done|]. simpl. intros Hk Hrun.
  by apply (observe_returns (hooks_at cfg user_get user_set n)), Hrun;
    [apply hooks_at_grow|].
Qed.

Lemma observable_grows ex s s' a :
  grows ex s s' → observable s' a = observable s a.
Proof.
  intros G. unfold observable.
  destruct (g_shape _ _ _ G a) as (-> & _ & -> & -> & _).
  by rewrite (g_shouldObserve _ _ _ G).
Qed.

(** X21: Observation is deep.  When [observe] of a plain object without
    Observer returns one, the closure of an enumerable, configurable data
    property whose value is an object holds as [childOb] the Observer
    that the value holds as [__ob__]; and there is one whenever the
    value had an Observer, could be observed, or is the object itself. *)
Theorem observe_is_deep n a s b s' k a' w :
  o_ob (obj_of s a) = None → o_kind (obj_of s a) = Plain →
  NoDup (o_props (obj_of s a)).*1 →
  observe' (hooks_at cfg user_get user_set n) (VObj a) false s = Ok (Some b) s' →
  lookup_prop k (o_props (obj_of s a)) = Some (PData (VObj a') w true true) →
  o_kind (obj_of s a') ≠ VNode →
  ∃ c, lookup_prop k (o_props (obj_of s' a)) = Some (PReactive c) ∧
       c_val (cell_of s' c) = VObj a' ∧
       (∀ b', c_childOb (cell_of s' c) = Some b' →
              o_ob (obj_of s' a') = Some b') ∧
       (a' = a ∨ is_Some (o_ob (obj_of s a')) ∨ observable s a' = true →
          ∃ b', c_childOb (cell_of s' c) = Some b' ∧
                o_ob (obj_of s' a') = Some b').
Proof.
  intros Hob Hkind Hnd Hrun Hp Hk'.
  set (R := hooks_at cfg user_get user_set n) in *.
  assert (hooks_grow R) as HR by apply hooks_at_grow.
  destruct (observable s a) eqn:Hc.
  2: { unfold observe, bind, gets, ret in Hrun.
       rewrite bool_decide_eq_false_2, Hob in Hrun by (by rewrite Hkind).
       unfold observable in Hc. by rewrite Hc in Hrun. }
  rewrite observe_new, new_Observer_unfold in Hrun by (done || by rewrite Hkind).
  rewrite bool_decide_eq_false_2 in Hrun by (by rewrite Hkind).
  assert (obj_of (attached a s) a = with_ob (Some (next_ob s)) (obj_of s a)) as Hat.
  { unfold attached. by rewrite obj_of_set_obj, decide_True. }
  unfold walk in Hrun. unfold bind at 1 in Hrun. unfold gets at 1 in Hrun.
  destruct (for_list (λ k, defineReactive user_get R a k None false false)
              (keys (obj_of (attached a s) a)) (attached a s))
    as [[] s0|e s0|] eqn:Hloop; [|done|done].
  injection Hrun as _ <-.
  assert (keys (obj_of (attached a s) a) = keys (obj_of s a)) as Hkeys
    by by rewrite Hat.
  rewrite Hkeys in Hloop.
  assert (k ∈ keys (obj_of s a)) as Hin.
  { apply elem_of_keys. eexists. split; [by apply lookup_prop_elem_of|done]. }
  apply list_elem_of_split in Hin as (ks1 & ks2 & Hks).
  pose proof (keys_NoDup _ Hnd) as Hndk. rewrite Hks in Hndk, Hloop.
  apply NoDup_app in Hndk as (N1 & N12 & [Nk N2]%NoDup_cons).
  apply for_list_split in Hloop as (s1 & s2 & L1 & L2 & L3).
  assert (Hall : ∀ k0, k0 ∈ ks1 ++ k :: ks2 →
            is_Some (lookup_prop k0 (o_props (obj_of (attached a s) a)))).
  { intros k0 Hk0. rewrite <- Hks in Hk0.
    apply elem_of_keys in Hk0 as (p & Hp0 & _). rewrite Hat. simpl.
    apply lookup_prop_is_Some. by apply (list_elem_of_fmap_2 fst _ (k0, p)). }
  assert (Hat_ob : is_Some (o_ob (obj_of (attached a s) a)))
    by (rewrite Hat; by eexists).
  assert (Hat_kind : o_kind (obj_of (attached a s) a) ≠ Array)
    by (rewrite Hat; simpl; by rewrite Hkind).
  (* the keys before [k] *)
  destruct (walk_loop R a ks1 HR (attached a s) s1) as (G1 & U1 & _); try done.
  { intros k0 Hk0. apply Hall. apply elem_of_app. by left. }
  assert (k ∉ ks1) as Hk1.
  { intros Hk1. apply (N12 k Hk1). apply list_elem_of_here. }
  assert (lookup_prop k (o_props (obj_of s1 a))
          = Some (PData (VObj a') w true true)) as Hp1.
  { rewrite U1 by done. rewrite Hat. done. }
  destruct (g_shape _ _ _ G1 a) as (K1 & _ & _ & _ & K5).
  assert (is_Some (o_ob (obj_of s1 a))) as Hob1.
  { destruct Hat_ob as [b0 Hb0]. exists b0. by apply K5. }
  assert (o_kind (obj_of s1 a) ≠ Array) as Hkind1 by by rewrite K1.
  (* the key [k] *)
  destruct (defineReactive_own R a k _ s1 s2 HR Hob1 Hp1 eq_refl L2)
    as (c0 & _ & Hprops2 & _ & _ & _ & Hval).
  destruct (defineReactive_child R a k _ _ _ s1 s2 HR Hob1 Hkind1 Hp1 L2)
    as (c & s3 & Hcb & Hl2 & Hobs & G3).
  assert (c0 = c) as ->.
  { rewrite Hprops2, lookup_define_prop, decide_True in Hl2 by done.
    by injection Hl2. }
  pose proof (grows_trans _ _ _ _ (grows_weaken (Some a) _ _ (attached_grows a s Hob)) G1)
    as G01.
  assert (grows (Some a) s1 (set_dep_uid (S (dep_uid s1)) s1)) as Gd.
  { apply new_Dep_grows. }
  pose proof (grows_trans _ _ _ _ G01 Gd) as G0d.
  assert (o_kind (obj_of (set_dep_uid (S (dep_uid s1)) s1) a') ≠ VNode) as Hk1'.
  { by destruct (g_shape _ _ _ G0d a') as (-> & _). }
  destruct (hooks_at_returns n a' _ _ _ Hk1' Hobs) as [Hret Hsome].
  (* the keys after [k] *)
  pose proof (defineReactive_grows R a k None false false HR s1) as G12.
  rewrite L2 in G12. simpl in G12.
  destruct (g_shape _ _ _ G12 a) as (K1' & _ & _ & _ & K5').
  destruct (walk_loop R a ks2 HR s2 s0) as (G2 & U2 & _); try done.
  { destruct Hob1 as [b0 Hb0]. exists b0. by apply K5'. }
  { by rewrite K1'. }
  { intros k0 Hk0.
    assert (k0 ≠ k) as Hne by (intros ->; done).
    rewrite Hprops2, lookup_define_prop, decide_False by done.
    rewrite U1.
    - apply Hall. apply elem_of_app. right. by apply list_elem_of_further.
    - intros Hk01. apply (N12 k0 Hk01). by apply list_elem_of_further. }
  assert (cell_of s0 c = cell_of s2 c) as Hcell.
  { unfold cell_of. rewrite (g_cells _ _ _ G2); [done|lia]. }
  exists c. split; [by rewrite U2|]. rewrite Hcell.
  split; [by apply (Hval Hkind1 _ _ _ _ eq_refl)|].
  assert (Hkeep : ∀ b', c_childOb (cell_of s2 c) = Some b' →
            o_ob (obj_of s0 a') = Some b').
  { intros b' Hb'. rewrite Hb' in Hret.
    destruct (g_shape _ _ _ G2 a') as (_ & _ & _ & _ & P2). apply P2.
    destruct (g_shape _ _ _ G3 a') as (_ & _ & _ & _ & P3). by apply P3. }
  split; [done|].
  intros Hcase.
  assert (is_Some (c_childOb (cell_of s2 c))) as [b' Hb'].
  { apply Hsome. destruct (g_shape _ _ _ G0d a') as (_ & _ & _ & _ & P0).
    destruct Hcase as [->|[[b0 Hb0]|Hobs']].
    - left. destruct Hat_ob as [b0 Hb0].
      destruct (g_shape _ _ _ (grows_trans _ _ _ _ G1 Gd) a) as (_ & _ & _ & _ & P1).
      exists b0. by apply P1.
    - left. exists b0. by apply P0.
    - right. by rewrite (observable_grows _ _ _ _ G0d). }
  exists b'. split; [done|by apply Hkeep].
Qed.

(** *** What a tracked read tells the Deps *)

(** [e && e.__ob__ && e.__ob__.dep.depend()] for each element. *)
Definition element_deps (s : state) (es : list val) : list event :=
  omap (λ e, match e with
             | VObj b => (λ o, EvDepend (ob_dep (obs_of s o))) <$> o_ob (obj_of s b)
             | _ => None
             end) es.

Lemma dependArray_loop R es : ∀ s,
  tracking s = true → Forall (λ e, isArray s e = false) es →
  for_list (λ e,
    (match e with
     | VObj b =>
       let! ob := gets (λ s, o_ob (obj_of s b)) in
       match ob with
       | Some o => let! d := gets (λ s, ob_dep (obs_of s o)) in depend d
       | None => ret tt
       end
     | _ => ret tt
     end) >>
    (let! arr := gets (λ s, isArray s e) in
     match e with
     | VObj b => if arr then h_dependArray R b else ret tt
     | _ => ret tt
     end)) es s = Ok tt (logged (element_deps s es) s).
Proof.
  induction es as [|e es IH]; intros s Ht Hflat.
  { simpl. unfold ret. by rewrite logged_nil. }
  apply Forall_cons in Hflat as [He Hflat].
  assert (Hstep : ∀ tr, tr = element_deps s [e] →
    ((match e with
      | VObj b =>
        let! ob := gets (λ s, o_ob (obj_of s b)) in
        match ob with
        | Some o => let! d := gets (λ s, ob_dep (obs_of s o)) in depend d
        | None => ret tt
        end
      | _ => ret tt
      end) >>
     (let! arr := gets (λ s, isArray s e) in
      match e with
      | VObj b => if arr then h_dependArray R b else ret tt
      | _ => ret tt
      end)) s = Ok tt (logged tr s)).
  { intros tr ->. unfold element_deps. simpl.
    destruct e as [| | | | | |b];
      try (unfold bind, gets, ret; simpl; by rewrite logged_nil).
    unfold bind at 1. unfold bind at 1. unfold gets at 1.
    cbn [omap list_omap].
    destruct (o_ob (obj_of s b)) as [o|] eqn:Eo.
    - unfold bind at 1. unfold gets at 1. unfold depend, bind, gets.
      rewrite Ht. unfold modify.
      change (isArray (emit ?x s) ?y) with (isArray s y). rewrite He. done.
    - unfold ret at 1. unfold bind, gets. rewrite He. unfold ret.
      simpl. by rewrite logged_nil. }
  cbn [for_list]. unfold bind at 1. rewrite (Hstep _ eq_refl).
  rewrite IH; [|done|done].
  rewrite logged_app. f_equal.
  change (element_deps (logged (element_deps s [e]) s) es)
    with (element_deps s es).
  unfold element_deps. change (e :: es) with ([e] ++ es). by rewrite omap_app.
Qed.

(** X22: A read through the accessor of a data property while a consumer is
    being evaluated returns the value and tells, in this order, the Dep
    of the property, the Dep of the value's Observer when the closure
    holds one, and, when the value is an array, the Dep of the Observer
    of each of its elements; it tells no Dep anything else.  (The
    elements are taken not to be arrays themselves.) *)
Theorem reactiveGetter_tracks R c s :
  c_wrapped (cell_of s c) = WData → tracking s = true →
  (c_childOb (cell_of s c) = None →
     reactiveGetter' R c s =
       Ok (c_val (cell_of s c)) (logged [EvDepend (c_dep (cell_of s c))] s)) ∧
  (∀ o, c_childOb (cell_of s c) = Some o →
     (isArray s (c_val (cell_of s c)) = false →
        reactiveGetter' R c s =
          Ok (c_val (cell_of s c))
             (logged [EvDepend (c_dep (cell_of s c));
                      EvDepend (ob_dep (obs_of s o))] s)) ∧
     (∀ a, c_val (cell_of s c) = VObj a → o_kind (obj_of s a) = Array →
        Forall (λ e, isArray s e = false) (o_elems (obj_of s a)) →
        reactiveGetter' R c s =
          Ok (VObj a)
             (logged ([EvDepend (c_dep (cell_of s c));
                       EvDepend (ob_dep (obs_of s o))] ++
                      element_deps s (o_elems (obj_of s a))) s))).
Proof.
  intros Hw Ht.
  assert (Hhead : reactiveGetter' R c s =
    match c_childOb (cell_of s c) with
    | None => Ok (c_val (cell_of s c)) (logged [EvDepend (c_dep (cell_of s c))] s)
    | Some o =>
      match (match c_val (cell_of s c) with
             | VObj a =>
               if isArray s (c_val (cell_of s c)) then dependArray R a else ret tt
             | _ => ret tt
             end)
              (logged [EvDepend (c_dep (cell_of s c));
                       EvDepend (ob_dep (obs_of s o))] s) with
      | Ok _ s' => Ok (c_val (cell_of s c)) s'
      | Exn e s' => Exn e s'
      | Fuel => Fuel
      end
    end).
  { unfold reactiveGetter. unfold bind at 1.
    rewrite (current_value_data R c s Hw). unfold bind at 1. unfold gets at 1.
    rewrite Ht. unfold bind at 1. unfold bind at 1. unfold bind at 1.
    unfold gets at 1. unfold depend at 1. unfold bind at 1. unfold gets at 1.
    rewrite Ht. unfold modify at 1.
    unfold bind at 1. unfold gets at 1. rewrite cell_of_emit.
    destruct (c_childOb (cell_of s c)) as [o|]; [|done].
    unfold bind at 1. unfold bind at 1. unfold gets at 1.
    unfold depend at 1. unfold bind at 1. unfold gets at 1.
    change (tracking (emit ?e s)) with (tracking s). rewrite Ht.
    unfold modify at 1. unfold bind at 1. unfold gets at 1.
    change (obs_of (emit ?e s) o) with (obs_of s o).
    change (isArray (emit ?e1 (emit ?e2 s)) ?v) with (isArray s v).
    change (emit ?e1 (emit ?e2 s)) with (logged [e1] (logged [e2] s)).
    rewrite logged_app. cbn [app].
    match goal with |- context [match ?m ?x with _ => _ end] =>
      destruct (m x) as [[] s1|e s1|] end; done. }
  rewrite Hhead. clear Hhead. split.
  - intros ->. done.
  - intros o ->. split.
    + intros ->. by destruct (c_val (cell_of s c)).
    + intros a Hv Hk Hflat. rewrite Hv.
      assert (isArray s (VObj a) = true) as ->.
      { unfold isArray. by rewrite bool_decide_eq_true_2. }
      unfold dependArray. unfold bind at 1. unfold gets at 1.
      change (obj_of (logged ?tr s) a) with (obj_of s a).
      rewrite (dependArray_loop R (o_elems (obj_of s a))); [|done|done].
      rewrite logged_app. done.
Qed.

End Further.

(** *** Concrete runs *)

Lemma observe_existing_witness :
  observe dev slot_get (hooks_at dev slot_get slot_set 1) (VObj 0) false observed
    = Ok (Some 0) observed ∧
  ∃ s', observe dev slot_get (hooks_at dev slot_get slot_set 1) (VObj 0) true
          observed = Ok (Some 0) s' ∧
        ob_vmCount (obs_of s' 0) = 1.
Proof.
  destruct (observe_existing dev slot_get (hooks_at dev slot_get slot_set 1)
              0 0 observed) as (H1 & s' & H2 & H3 & _).
  - vm_compute. discriminate.
  - vm_compute; reflexivity.
  - split; [exact H1|]. exists s'. split; [exact H2|].
    rewrite H3. vm_compute; reflexivity.
Defined.

Lemma sample_observed :
  observe dev slot_get (hooks_at dev slot_get slot_set 3) (VObj 0) false sample
    = Ok (Some 0) observed.
Proof. vm_compute; reflexivity. Qed.

Lemma observe_attaches_witness :
  o_ob (obj_of observed 0) = Some 0 ∧
  observers observed !! 0 =
    Some {| ob_value := 0; ob_dep := dep_uid sample; ob_vmCount := 0 |} ∧
  observe dev slot_get (hooks_at dev slot_get slot_set 0) (VObj 0) false observed
    = Ok (Some 0) observed.
Proof.
  destruct (observe_attaches dev slot_get slot_set 3 0 sample 0 observed
              eq_refl sample_observed) as (_ & H2 & H3 & _ & _ & H6).
  split; [exact H2|]. split; [exact H3|]. apply H6.
Defined.

Lemma observe_makes_reactive_witness :
  ∃ c, lookup_prop (KName "a") (o_props (obj_of observed 0))
         = Some (PReactive c) ∧
       c_wrapped (cell_of observed c) = WData ∧
       c_val (cell_of observed c) = VNum 1.
Proof.
  destruct (observe_makes_reactive dev slot_get slot_set 3 0 sample 0 observed
              eq_refl eq_refl) as [H _].
  - apply (bool_decide_unpack _). vm_compute. exact I.
  - exact sample_observed.
  - specialize (H (KName "a") (PData (VNum 1) true true true) eq_refl).
    simpl in H. destruct H as (c & _ & Hl & Hw & _ & Hv).
    exists c. split; [exact Hl|]. split; [exact Hw|].
    exact (Hv _ _ _ _ eq_refl).
Defined.

(** After the write [obj.a = 2] through the accessor. *)
Definition written : state :=
  state_of (reactiveSetter dev slot_get slot_set
              (hooks_at dev slot_get slot_set 2) 0 (VNum 2) observed) observed.



(** An array of three numbers at address 0, not observed. *)
Definition shelf : state :=
  {| heap := {[ 0 :=
       {| o_kind := Array; o_props := [];
          o_elems := [VNum 1; VNum 2; VNum 3]; o_ob := None; o_isVue := false;
          o_extensible := true |} ]};
     cells := ∅; observers := ∅; next_cell := 0; next_ob := 0; dep_uid := 0;
     user := ∅; tracking := false; shouldObserve := true; trace := [] |}.


(** A plain object at address 0 whose property [child] holds the plain
    object at address 1. *)
Definition family : state :=
  {| heap := {[ 0 :=
       {| o_kind := Plain;
          o_props := [(KName "child", PData (VObj 1) true true true)];
          o_elems := []; o_ob := None; o_isVue := false;
          o_extensible := true |};
                1 :=
       {| o_kind := Plain;
          o_props := [(KName "x", PData (VNum 1) true true true)];
          o_elems := []; o_ob := None; o_isVue := false;
          o_extensible := true |} ]};
     cells := ∅; observers := ∅; next_cell := 0; next_ob := 0; dep_uid := 0;
     user := ∅; tracking := false; shouldObserve := true; trace := [] |}.

Definition family_observed : state :=
  state_of (observe dev slot_get (hooks_at dev slot_get slot_set 4)
              (VObj 0) false family) family.

Lemma observe_is_deep_witness :
  ∃ c b', lookup_prop (KName "child") (o_props (obj_of family_observed 0))
            = Some (PReactive c) ∧
          c_childOb (cell_of family_observed c) = Some b' ∧
          o_ob (obj_of family_observed 1) = Some b'.
Proof.
  destruct (observe_is_deep dev slot_get slot_set 4 0 family 0 family_observed
              (KName "child") 1 true eq_refl eq_refl)
    as (c & Hl & _ & _ & H).
  - apply (bool_decide_unpack _). vm_compute. exact I.
  - vm_compute; reflexivity.
  - reflexivity.
  - vm_compute. discriminate.
  - destruct H as (b' & H1 & H2); [right; right; vm_compute; reflexivity|].
    exists c, b'. split; [exact Hl|]. split; [exact H1|exact H2].
Defined.

(** A plain object at address 0 whose property [list] holds the array at
    address 1, of the plain object at address 2 and a number. *)
Definition library : state :=
  {| heap := {[ 0 :=
       {| o_kind := Plain;
          o_props := [(KName "list", PData (VObj 1) true true true)];
          o_elems := []; o_ob := None; o_isVue := false;
          o_extensible := true |};
                1 :=
       {| o_kind := Array; o_props := [];
          o_elems := [VObj 2; VNum 5]; o_ob := None; o_isVue := false;
          o_extensible := true |};
                2 :=
       {| o_kind := Plain; o_props := [];
          o_elems := []; o_ob := None; o_isVue := false;
          o_extensible := true |} ]};
     cells := ∅; observers := ∅; next_cell := 0; next_ob := 0; dep_uid := 0;
     user := ∅; tracking := false; shouldObserve := true; trace := [] |}.

(** The state [s] while a watcher is being evaluated. *)
Definition tracked (s : state) : state :=
  {| heap := heap s; cells := cells s; observers := observers s;
     next_cell := next_cell s; next_ob := next_ob s; dep_uid := dep_uid s;
     user := user s; tracking := true;
     shouldObserve := shouldObserve s; trace := trace s |}.

(** After [observe(obj)], during an evaluation. *)
Definition library_read : state :=
  tracked (state_of (observe dev slot_get (hooks_at dev slot_get slot_set 5)
                       (VObj 0) false library) library).

Lemma reactiveGetter_tracks_witness :
  reactiveGetter slot_get (hooks_at dev slot_get slot_set 2) 0 library_read
    = Ok (VObj 1) (logged [EvDepend 1; EvDepend 2; EvDepend 3] library_read).
Proof.
  destruct (reactiveGetter_tracks slot_get (hooks_at dev slot_get slot_set 2)
              0 library_read) as [_ H].
  - vm_compute; reflexivity.
  - reflexivity.
  - destruct (H 1) as [_ H']; [vm_compute; reflexivity|].
    rewrite (H' 1).
    + f_equal.
    + vm_compute; reflexivity.
    + vm_compute; reflexivity.
    + assert (o_elems (obj_of library_read 1) = [VObj 2; VNum 5]) as ->
        by (vm_compute; reflexivity).
      repeat apply Forall_cons_2; [vm_compute; reflexivity..|apply Forall_nil_2].
Defined.

End Observer.
